(** * Nonparametric Bayes classification for two classes (nbc.cc)

    A shallow embedding of [class Nbc] from [fastlib/u/rriegel/nbc/nbc.cc]:
    the per-node statistics, the label lattice, the postponed / summary /
    per-point results, the leaf visitor and the pruning policy
    [Nbc::Algorithm], followed by the properties established about them.

    Conventions of the embedding.
    - [index_t] and [int] are [Z]; counts never approach the machine bound
      (they are bounded by the number of reference points), so their
      arithmetic is written without wrap-around.
    - [double] is an abstract carrier [D] with the operations the source
      applies to it (class [Double]).  Two instances are provided:
      IEEE-754 binary64 (the kernel's primitive floats) and exact rational
      arithmetic.  Statements about control flow hold for every instance;
      algebraic statements are made for the exact instance.
    - [DEBUG_ASSERT] aborts in a build with [DEBUG] and is a no-op
      otherwise; the compile-time toggle [CHECK_POS_NEG_BOUNDS] is the other
      component of the build configuration.
    - A C++ method that mutates [*this] or writes through a pointer
      returns the updated object. *)

From Stdlib Require Import ZArith QArith Lqa Lia List Bool Permutation.
From Stdlib Require Import Relation_Operators.
From Stdlib Require Import PrimFloat Uint63.
Import ListNotations.

Set Implicit Arguments.
Local Open Scope Z_scope.

(** ** Build configuration and assertions *)

Record Build : Type := {
  DEBUG : bool;                 (* assertions compiled in *)
  CHECK_POS_NEG_BOUNDS : bool   (* the #ifdef in PairVisitor and Algorithm *)
}.

Inductive Result (A : Type) : Type :=
| Ok (a : A)
| AssertionFailed.
Arguments Ok {A} a.
Arguments AssertionFailed {A}.

Definition bind {A B : Type} (m : Result A) (k : A -> Result B) : Result B :=
  match m with
  | Ok a => k a
  | AssertionFailed => AssertionFailed
  end.

Declare Scope result_scope.
Delimit Scope result_scope with result.
Notation "x <- m ;; k" := (bind m (fun x => k))
  (at level 100, m at next level, right associativity) : result_scope.
Notation "' pat <- m ;; k" := (bind m (fun pat => k))
  (at level 100, pat strict pattern, m at next level, right associativity)
  : result_scope.
Notation "m ;;; k" := (bind m (fun _ => k))
  (at level 100, right associativity) : result_scope.

(** Modelled from the spec: [DEBUG_ASSERT] is fastlib's assertion macro,
    not part of nbc.cc.  A failed assertion is a terminal failure of the
    run; whether assertions are compiled in is a matter of the build. *)
Definition DEBUG_ASSERT (cfg : Build) (cond : bool) : Result unit :=
  if DEBUG cfg then (if cond then Ok tt else AssertionFailed) else Ok tt.

(** ** The carrier of [double] *)

Class Double (D : Type) : Type := {
  of_index : Z -> D;            (* integer literal / index_t converted *)
  dadd : D -> D -> D;
  dsub : D -> D -> D;
  dmul : D -> D -> D;
  ddiv : D -> D -> D;
  dneg : D -> D;
  dlt : D -> D -> bool;         (* a < b *)
  deq : D -> D -> bool          (* a == b *)
}.

Declare Scope dbl_scope.
Delimit Scope dbl_scope with dbl.
Notation "x + y" := (dadd x y) : dbl_scope.
Notation "x - y" := (dsub x y) : dbl_scope.
Notation "x * y" := (dmul x y) : dbl_scope.
Notation "x / y" := (ddiv x y) : dbl_scope.
Notation "- x" := (dneg x) : dbl_scope.
Notation "x <? y" := (dlt x y) : dbl_scope.
Notation "x >? y" := (dlt y x) : dbl_scope.
Notation "x =? y" := (deq x y) : dbl_scope.

Definition dmax {D} `{Double D} (a b : D) : D := if (a <? b)%dbl then b else a.
Definition dmin {D} `{Double D} (a b : D) : D := if (b <? a)%dbl then b else a.

(** Exact rational arithmetic. *)
#[export] Instance Double_Q : Double Q := {|
  of_index := inject_Z;
  dadd := Qplus;
  dsub := Qminus;
  dmul := Qmult;
  ddiv := Qdiv;
  dneg := Qopp;
  dlt := fun a b => match Qcompare a b with Lt => true | _ => false end;
  deq := Qeq_bool
|}.

(** IEEE-754 binary64. *)
Definition float_of_index (z : Z) : float :=
  match z with
  | Z0 => PrimFloat.of_uint63 0%uint63
  | Zpos _ => PrimFloat.of_uint63 (Uint63.of_Z z)
  | Zneg p => PrimFloat.opp (PrimFloat.of_uint63 (Uint63.of_Z (Zpos p)))
  end.

#[export] Instance Double_binary64 : Double float := {|
  of_index := float_of_index;
  dadd := PrimFloat.add;
  dsub := PrimFloat.sub;
  dmul := PrimFloat.mul;
  ddiv := PrimFloat.div;
  dneg := PrimFloat.opp;
  dlt := PrimFloat.ltb;
  deq := PrimFloat.eqb
|}.

(** The largest finite [double], [DBL_MAX], which fastlib's intervals use
    for the ends of the empty set. *)
Class Limits (D : Type) : Type := {
  DBL_MAX : D
}.

#[export] Instance Limits_Q : Limits Q := {|
  DBL_MAX := inject_Z (Z.ones 53 * 2 ^ 971)
|}.

#[export] Instance Limits_binary64 : Limits float := {|
  DBL_MAX := 0x1.fffffffffffffp+1023%float
|}.

(** ** Linear algebra on [Vector] (fastlib's [la::]) *)

Module la.
Section With_double.
Context {D : Type} `{Double D}.
Local Open Scope dbl_scope.

(** Modelled from the spec: [Vector] and the [la::] routines are fastlib
    code that is not part of nbc.cc.  A vector is the list of its
    coordinates. *)
Definition Vector : Type := list D.

(** Modelled from the spec: [la::Dot], the sum of the products of the
    coordinates ([sumsq] is a sum of squared norms [Dot(v, v)]). *)
Fixpoint Dot (x y : Vector) : D :=
  match x, y with
  | a :: x', b :: y' => a * b + Dot x' y'
  | _, _ => of_index 0
  end.

(** Modelled from the spec: [la::AddTo(x, &y)], [y += x] component-wise
    ([mass] is the component-wise sum of the contributing points). *)
Fixpoint AddTo (x y : Vector) : Vector :=
  match x, y with
  | a :: x', b :: y' => (b + a) :: AddTo x' y'
  | _, _ => []
  end.

(** Modelled from the spec: [la::Scale(alpha, &x)], every coordinate
    multiplied by [alpha] (the centroid is [mass] scaled by [1 / count]). *)
Definition Scale (alpha : D) (x : Vector) : Vector :=
  map (fun v => alpha * v) x.

(** Modelled from the spec: [Vector::SetZero], the zero vector of the
    same length. *)
Definition SetZero (x : Vector) : Vector :=
  map (fun _ => of_index 0) x.

(** Modelled from the spec: [Vector::Init(n)] then [SetZero]. *)
Definition Zeros (n : Z) : Vector := repeat (of_index 0) (Z.to_nat n).

(** Modelled from the spec: [la::DistanceSqEuclidean], the squared
    Euclidean distance of two points. *)
Fixpoint DistanceSqEuclidean (x y : Vector) : D :=
  match x, y with
  | a :: x', b :: y' => (a - b) * (a - b) + DistanceSqEuclidean x' y'
  | _, _ => of_index 0
  end.
End With_double.
Arguments Vector D : clear implicits.
End la.

(** ** [DRange]: a closed interval of doubles *)

Module DRange.
Section With_double.
Context {D : Type} `{Double D}.
Local Open Scope dbl_scope.

(** Modelled from the spec: [DRange] is fastlib's interval type, not part
    of nbc.cc; the source uses its fields [lo] and [hi] and builds one with
    [Init(lo, hi)]. *)
Record t : Type := Init { lo : D; hi : D }.

(** Modelled from the spec: [operator+=] on two intervals, the interval
    addition by which a Delta or a kernel-sum range is applied. *)
Definition add (a b : t) : t :=
  {| lo := lo a + lo b; hi := hi a + hi b |}.

(** Modelled from the spec: [operator+] of an interval and a scalar, the
    interval shifted by the scalar. *)
Definition add_scalar (a : t) (d : D) : t :=
  {| lo := lo a + d; hi := hi a + d |}.
End With_double.
Arguments t D : clear implicits.

Section Union.
Context {D : Type} `{Double D} `{Limits D}.
Local Open Scope dbl_scope.

(** Modelled from the spec: [InitEmptySet], the empty interval, whose ends
    are crossed at the largest finite values. *)
Definition InitEmptySet : t D := {| lo := DBL_MAX; hi := - DBL_MAX |}.

(** Modelled from the spec: [operator|=] with a scalar, the interval
    enlarged to cover the scalar. *)
Definition union_point (r : t D) (d : D) : t D :=
  {| lo := if d <? lo r then d else lo r;
     hi := if d >? hi r then d else hi r |}.

(** Modelled from the spec: [operator|=] with an interval, the interval
    enlarged to cover both. *)
Definition union (r o : t D) : t D :=
  {| lo := if lo o <? lo r then lo o else lo r;
     hi := if hi o >? hi r then hi o else hi r |}.
End Union.
End DRange.

(** ** [Bound]: the hyper-rectangle [DHrectBound<2>] *)

Module Bound.
Section With_double.
Context {D : Type} `{Double D}.
Local Open Scope dbl_scope.

(** Modelled from the spec: [DHrectBound<2>] belongs to fastlib's tree
    library, not to nbc.cc.  A Bound is an ordered set of per-dimension
    intervals that answers the minimum and maximum squared Euclidean
    distance to a point or to another Bound. *)
Definition t : Type := list (DRange.t D).

(** Modelled from the spec: in one dimension, the distance from the
    coordinate [p] to the nearest point of the interval [r] (zero
    inside). *)
Definition gap_point (r : DRange.t D) (p : D) : D :=
  if p <? DRange.lo r then DRange.lo r - p
  else if DRange.hi r <? p then p - DRange.hi r
  else of_index 0.

(** Modelled from the spec: in one dimension, the distance from [p] to
    the farther end of [r]. *)
Definition reach_point (r : DRange.t D) (p : D) : D :=
  dmax (p - DRange.lo r) (DRange.hi r - p).

(** Modelled from the spec: in one dimension, the distance between the
    nearest points of two intervals (zero when they overlap). *)
Definition gap_range (r o : DRange.t D) : D :=
  if DRange.hi o <? DRange.lo r then DRange.lo r - DRange.hi o
  else if DRange.hi r <? DRange.lo o then DRange.lo o - DRange.hi r
  else of_index 0.

(** Modelled from the spec: in one dimension, the distance between the
    farthest points of two intervals. *)
Definition reach_range (r o : DRange.t D) : D :=
  dmax (DRange.hi o - DRange.lo r) (DRange.hi r - DRange.lo o).

(** Modelled from the spec: [Contains(point)], the point lies inside the
    box in every dimension. *)
Fixpoint Contains (b : t) (p : la.Vector D) : bool :=
  match b, p with
  | r :: b', x :: p' =>
      negb (x <? DRange.lo r) && negb (DRange.hi r <? x) && Contains b' p'
  | _, _ => true
  end.

(** Modelled from the spec: [MinDistanceSq(point)], the minimum squared
    Euclidean distance from the box to a point. *)
Fixpoint MinDistanceSq_point (b : t) (p : la.Vector D) : D :=
  match b, p with
  | r :: b', x :: p' =>
      gap_point r x * gap_point r x + MinDistanceSq_point b' p'
  | _, _ => of_index 0
  end.

(** Modelled from the spec: [MaxDistanceSq(point)], the maximum squared
    Euclidean distance from the box to a point. *)
Fixpoint MaxDistanceSq_point (b : t) (p : la.Vector D) : D :=
  match b, p with
  | r :: b', x :: p' =>
      reach_point r x * reach_point r x + MaxDistanceSq_point b' p'
  | _, _ => of_index 0
  end.

(** Modelled from the spec: [MinDistanceSq(other)], the minimum squared
    Euclidean distance between two boxes. *)
Fixpoint MinDistanceSq (b o : t) : D :=
  match b, o with
  | r :: b', s :: o' =>
      gap_range r s * gap_range r s + MinDistanceSq b' o'
  | _, _ => of_index 0
  end.

(** Modelled from the spec: [MaxDistanceSq(other)], the maximum squared
    Euclidean distance between two boxes. *)
Fixpoint MaxDistanceSq (b o : t) : D :=
  match b, o with
  | r :: b', s :: o' =>
      reach_range r s * reach_range r s + MaxDistanceSq b' o'
  | _, _ => of_index 0
  end.
End With_double.
Arguments t D : clear implicits.

Section Union.
Context {D : Type} `{Double D} `{Limits D}.

(** Modelled from the spec: [Init(dim)], the empty Bound of the given
    dimension. *)
Definition Init (dim : Z) : t D := repeat DRange.InitEmptySet (Z.to_nat dim).

(** Modelled from the spec: [operator|=] with a point, the Bound enlarged
    to cover the point. *)
Fixpoint union_point (b : t D) (p : la.Vector D) : t D :=
  match b, p with
  | r :: b', x :: p' => DRange.union_point r x :: union_point b' p'
  | _, _ => []
  end.

(** Modelled from the spec: [operator|=] with a Bound, the Bound enlarged
    to cover both. *)
Fixpoint union (b o : t D) : t D :=
  match b, o with
  | r :: b', s :: o' => DRange.union r s :: union b' o'
  | _, _ => []
  end.
End Union.
End Bound.

(** ** [Kernel]: the Epanechnikov kernel [EpanKernel] *)

Module Kernel.
Section With_double.
Context {D : Type} `{Double D}.
Local Open Scope dbl_scope.

(** Modelled from the spec: [EpanKernel] is a fastlib class, not part of
    nbc.cc; the source reads its [bandwidth_sq()] and
    [inv_bandwidth_sq()]. *)
Record t : Type := {
  bandwidth_sq : D;
  inv_bandwidth_sq : D
  }.

(** Modelled from the spec: [Init(bandwidth)], a kernel of the given
    bandwidth. *)
Definition Init (bandwidth_in : D) : t :=
  {| bandwidth_sq := bandwidth_in * bandwidth_in;
     inv_bandwidth_sq := of_index 1 / (bandwidth_in * bandwidth_in) |}.

(** Modelled from the spec: [EvalUnnormOnSq], the Epanechnikov profile: a
    non-negative weighting of the squared distance, [1 - d^2 / h^2] below
    the bandwidth [h] and zero from the bandwidth on. *)
Definition EvalUnnormOnSq (k : t) (distance_squared : D) : D :=
  if distance_squared <? bandwidth_sq k
  then of_index 1 - distance_squared * inv_bandwidth_sq k
  else of_index 0.
End With_double.
Arguments t D : clear implicits.
End Kernel.

(** ** [enum Label] *)

Definition LAB_NEITHER : Z := 0.
Definition LAB_POS : Z := 1.
Definition LAB_NEG : Z := 2.
Definition LAB_EITHER : Z := 3.

(** ** [NbcPoint] *)

Module NbcPoint.
Section With_double.
Context {D : Type} `{Double D}.
Local Open Scope dbl_scope.

Record t : Type := {
  vec : la.Vector D;
  is_pos : bool;     (* the point's class (if reference) *)
  pi : D             (* the point's prior (if query) *)
}.

Definition pi_pos (p : t) : D := pi p.
Definition pi_neg (p : t) : D := of_index 1 - pi p.
End With_double.
Arguments t D : clear implicits.
End NbcPoint.

(** ** [Param] *)

Module Param.
Section With_double.
Context {D : Type} `{Double D}.

(** [kernel] is the member that [MomentInfo::ComputeKernelSum] reads as
    [param.kernel]; the struct as declared lists only [kernel_pos] and
    [kernel_neg], so it is carried as a field of its own. *)
Record t : Type := {
  const_pos : DRange.t D;
  const_neg : DRange.t D;
  kernel_pos : Kernel.t D;
  kernel_neg : Kernel.t D;
  kernel : Kernel.t D;
  dim : Z;
  count_all : Z;
  count_pos : Z;
  count_neg : Z;
  threshold : D
}.
End With_double.
Arguments t D : clear implicits.

Section Consts.
Context {D : Type} `{Double D}.
Local Open Scope dbl_scope.

Definition SetDimensions (p : t D) (vector_dimension n_points : Z) : t D :=
  {| const_pos := const_pos p; const_neg := const_neg p;
     kernel_pos := kernel_pos p; kernel_neg := kernel_neg p;
     kernel := kernel p;
     dim := vector_dimension;
     count_all := n_points;
     count_pos := count_pos p; count_neg := count_neg p;
     threshold := threshold p |}.

(** [ComputeConsts].  The body spells the member [threshold] in three ways;
    all three are read as [threshold].  [CalcNormConstant] is a method of
    the fastlib kernel and is taken as a parameter; [1e-3] is the
    correctly rounded quotient [1 / 1000].  The [ot::Print] calls that end
    the body only write the stored values out. *)
Definition ComputeConsts (CalcNormConstant : Kernel.t D -> Z -> D)
  (p : t D) (count_pos_in count_neg_in : Z) : t D :=
  let epsilon :=
    dmin (threshold p) (of_index 1 - threshold p)
    * (of_index 1 / of_index 1000) in
  let norm_pos := CalcNormConstant (kernel_pos p) (dim p) * of_index count_pos_in in
  let norm_neg := CalcNormConstant (kernel_neg p) (dim p) * of_index count_neg_in in
  {| const_pos :=
       {| DRange.lo := (of_index 1 - threshold p - epsilon) / norm_pos;
          DRange.hi := (of_index 1 - threshold p + epsilon) / norm_pos |};
     const_neg :=
       {| DRange.lo := (threshold p - epsilon) / norm_neg;
          DRange.hi := (threshold p + epsilon) / norm_neg |};
     kernel_pos := kernel_pos p; kernel_neg := kernel_neg p;
     kernel := kernel p;
     dim := dim p;
     count_all := count_all p;
     count_pos := count_pos_in;
     count_neg := count_neg_in;
     threshold := threshold p |}.
End Consts.
End Param.

(** ** [MomentInfo] *)

(** What [ComputeKernelSumRange] does with [count], in program order: a
    computation paired with the events it has produced so far. *)
Inductive Event : Type :=
| DividedByCount (count : Z)
| AssertChecked (holds : bool).

Definition Traced (A : Type) : Type := (list Event * Result A)%type.

Definition traced_ret {A : Type} (a : A) : Traced A := ([], Ok a).

Definition traced_bind {A B : Type} (m : Traced A) (k : A -> Traced B)
  : Traced B :=
  match m with
  | (ev, Ok a) => let (ev', r) := k a in (ev ++ ev', r)
  | (ev, AssertionFailed) => (ev, AssertionFailed)
  end.

Definition traced_assert (cfg : Build) (cond : bool) : Traced unit :=
  (if DEBUG cfg then [AssertChecked cond] else [], DEBUG_ASSERT cfg cond).

Declare Scope traced_scope.
Delimit Scope traced_scope with traced.
Notation "x <- m ;; k" := (traced_bind m (fun x => k))
  (at level 100, m at next level, right associativity) : traced_scope.
Notation "m ;;; k" := (traced_bind m (fun _ => k))
  (at level 100, right associativity) : traced_scope.

Module MomentInfo.
Section With_double.
Context {D : Type} `{Double D}.
Local Open Scope dbl_scope.

Record t : Type := {
  mass : la.Vector D;
  sumsq : D;
  count : Z
}.

Definition Reset (m : t) : t :=
  {| mass := la.SetZero (mass m); sumsq := of_index 0; count := 0 |}.

Definition Init (cfg : Build) (param : Param.t D) : Result t :=
  (DEBUG_ASSERT cfg (0 <? Param.dim param)%Z ;;;
   Ok {| mass := la.Zeros (Param.dim param); sumsq := of_index 0; count := 0 |})%result.

(** [Add(index_t count_in, const Vector& mass_in, double sumsq_in)] *)
Definition Add_parts (m : t) (count_in : Z) (mass_in : la.Vector D)
  (sumsq_in : D) : t :=
  if negb (count_in =? 0)%Z then
    {| mass := la.AddTo mass_in (mass m);
       sumsq := sumsq m + sumsq_in;
       count := (count m + count_in)%Z |}
  else m.

(** [Add(const MomentInfo& other)] *)
Definition Add (m other : t) : t :=
  Add_parts m (count other) (mass other) (sumsq other).

(** [ComputeKernelSum(param, q)]: against the actual query point. *)
Definition ComputeKernelSum (param : Param.t D) (m : t) (q : la.Vector D) : D :=
  let quadratic_term :=
    of_index (count m) * la.Dot q q
    - of_index 2 * la.Dot q (mass m)
    + sumsq m in
  of_index (count m)
  - quadratic_term * Kernel.inv_bandwidth_sq (Param.kernel param).

(** [ComputeKernelSum(param, distance_squared, center_dot_center)] *)
Definition ComputeKernelSum_dist (param : Param.t D) (m : t)
  (distance_squared center_dot_center : D) : D :=
  let quadratic_term :=
    (distance_squared - center_dot_center) * of_index (count m)
    + sumsq m in
  (- quadratic_term) * Kernel.inv_bandwidth_sq (Param.kernel param)
  + of_index (count m).

Definition ComputeKernelSumRange (cfg : Build) (param : Param.t D) (m : t)
  (query_bound : Bound.t D) : Result (DRange.t D) :=
  (let center_dot_center :=
     la.Dot (mass m) (mass m) / of_index (count m) / of_index (count m) in
   DEBUG_ASSERT cfg (negb (count m =? 0)%Z) ;;;
   let center := la.Scale (of_index 1 / of_index (count m)) (mass m) in
   Ok {| DRange.lo :=
           ComputeKernelSum_dist param m
             (Bound.MaxDistanceSq_point query_bound center) center_dot_center;
         DRange.hi :=
           ComputeKernelSum_dist param m
             (Bound.MinDistanceSq_point query_bound center) center_dot_center
      |})%result.

(** The same body in the tracing monad: every division by [count] and the
    assertion are recorded as they are reached. *)
Definition divide_by_count (x : D) (c : Z) : Traced D :=
  ([DividedByCount c], Ok (x / of_index c)).

Definition ComputeKernelSumRange_traced (cfg : Build) (param : Param.t D)
  (m : t) (query_bound : Bound.t D) : Traced (DRange.t D) :=
  (t0 <- divide_by_count (la.Dot (mass m) (mass m)) (count m) ;;
   center_dot_center <- divide_by_count t0 (count m) ;;
   traced_assert cfg (negb (count m =? 0)%Z) ;;;
   s <- divide_by_count (of_index 1) (count m) ;;
   let center := la.Scale s (mass m) in
   traced_ret
     {| DRange.lo :=
          ComputeKernelSum_dist param m
            (Bound.MaxDistanceSq_point query_bound center) center_dot_center;
        DRange.hi :=
          ComputeKernelSum_dist param m
            (Bound.MinDistanceSq_point query_bound center) center_dot_center
     |})%traced.

Definition is_empty (m : t) : bool := (count m =? 0)%Z.
End With_double.
Arguments t D : clear implicits.
End MomentInfo.

(** ** [NbcStat] and the THOR node *)

Module NbcStat.
Section With_double.
Context {D : Type}.

Record t : Type := {
  moment_info_pos : MomentInfo.t D;
  moment_info_neg : MomentInfo.t D;
  bound_pos : Bound.t D;
  bound_neg : Bound.t D;
  count_pos : Z;
  count_neg : Z;
  pi_pos : DRange.t D;
  pi_neg : DRange.t D
}.
End With_double.
Arguments t D : clear implicits.

Section Accumulation.
Context {D : Type} `{Double D} `{Limits D}.
Local Open Scope dbl_scope.

(** Initialize to a default zero value, as if no data is seen. *)
Definition Init (cfg : Build) (param : Param.t D) : Result (t D) :=
  (mp <- MomentInfo.Init cfg param ;;
   mn <- MomentInfo.Init cfg param ;;
   Ok {| moment_info_pos := mp;
         moment_info_neg := mn;
         bound_pos := Bound.Init (Param.dim param);
         bound_neg := Bound.Init (Param.dim param);
         count_pos := 0;
         count_neg := 0;
         pi_pos := DRange.InitEmptySet;
         pi_neg := DRange.InitEmptySet |})%result.

(** Accumulate data from a single point.  The prior the source reads as
    [point.pi()] is the member [pi_]. *)
Definition Accumulate_point (param : Param.t D) (s : t D)
  (point : NbcPoint.t D) : t D :=
  let s1 :=
    if NbcPoint.is_pos point then
      {| moment_info_pos :=
           MomentInfo.Add_parts (moment_info_pos s) 1 (NbcPoint.vec point)
             (la.Dot (NbcPoint.vec point) (NbcPoint.vec point));
         moment_info_neg := moment_info_neg s;
         bound_pos := Bound.union_point (bound_pos s) (NbcPoint.vec point);
         bound_neg := bound_neg s;
         count_pos := (count_pos s + 1)%Z;
         count_neg := count_neg s;
         pi_pos := pi_pos s;
         pi_neg := pi_neg s |}
    else
      {| moment_info_pos := moment_info_pos s;
         moment_info_neg :=
           MomentInfo.Add_parts (moment_info_neg s) 1 (NbcPoint.vec point)
             (la.Dot (NbcPoint.vec point) (NbcPoint.vec point));
         bound_pos := bound_pos s;
         bound_neg := Bound.union_point (bound_neg s) (NbcPoint.vec point);
         count_pos := count_pos s;
         count_neg := (count_neg s + 1)%Z;
         pi_pos := pi_pos s;
         pi_neg := pi_neg s |} in
  {| moment_info_pos := moment_info_pos s1;
     moment_info_neg := moment_info_neg s1;
     bound_pos := bound_pos s1;
     bound_neg := bound_neg s1;
     count_pos := count_pos s1;
     count_neg := count_neg s1;
     pi_pos := DRange.union_point (pi_pos s1) (NbcPoint.pi point);
     pi_neg := DRange.union_point (pi_neg s1) (of_index 1 - NbcPoint.pi point) |}.

(** Accumulate data from one of your children.  [bound] and [n], the
    child's own Bound and size, are not used; what the source reads as
    [stat.pi_pos()] and [stat.pi_neg()] are the members [pi_pos] and
    [pi_neg]. *)
Definition Accumulate (param : Param.t D) (s stat : t D) (bound : Bound.t D)
  (n : Z) : t D :=
  {| moment_info_pos := MomentInfo.Add (moment_info_pos s) (moment_info_pos stat);
     moment_info_neg := MomentInfo.Add (moment_info_neg s) (moment_info_neg stat);
     bound_pos := Bound.union (bound_pos s) (bound_pos stat);
     bound_neg := Bound.union (bound_neg s) (bound_neg stat);
     count_pos := (count_pos s + count_pos stat)%Z;
     count_neg := (count_neg s + count_neg stat)%Z;
     pi_pos := DRange.union (pi_pos s) (pi_pos stat);
     pi_neg := DRange.union (pi_neg s) (pi_neg stat) |}.

(** Finish accumulating data: nothing to do. *)
Definition Postprocess (param : Param.t D) (s : t D) (bound : Bound.t D)
  (n : Z) : t D := s.
End Accumulation.
End NbcStat.

Module ThorNode.
Section With_double.
Context {D : Type}.

(** Modelled from the spec: [ThorNode<Bound, NbcStat>] is THOR's tree
    node, not part of nbc.cc; the source reads its [bound()] and
    [stat()]. *)
Record t : Type := {
  bound : Bound.t D;
  stat : NbcStat.t D
}.
End With_double.
Arguments t D : clear implicits.
End ThorNode.

(** ** [QPostponed] *)

Module QPostponed.
Section With_double.
Context {D : Type} `{Double D}.

(** Every user of a [QPostponed] reads [moment_info_pos] and
    [moment_info_neg]; the members of the struct itself still speak of one
    [moment_info], which is read here as the pair. *)
Record t : Type := {
  moment_info_pos : MomentInfo.t D;
  moment_info_neg : MomentInfo.t D;
  label : Z
}.

Definition with_label (p : t) (l : Z) : t :=
  {| moment_info_pos := moment_info_pos p;
     moment_info_neg := moment_info_neg p;
     label := l |}.

Definition Init (cfg : Build) (param : Param.t D) : Result t :=
  (mp <- MomentInfo.Init cfg param ;;
   mn <- MomentInfo.Init cfg param ;;
   Ok {| moment_info_pos := mp; moment_info_neg := mn;
         label := LAB_EITHER |})%result.

Definition Reset (param : Param.t D) (p : t) : t :=
  {| moment_info_pos := MomentInfo.Reset (moment_info_pos p);
     moment_info_neg := MomentInfo.Reset (moment_info_neg p);
     label := LAB_EITHER |}.

Definition ApplyPostponed (cfg : Build) (param : Param.t D) (p other : t)
  : Result t :=
  (let label' := Z.land (label p) (label other) in
   DEBUG_ASSERT cfg (negb (label' =? LAB_NEITHER)) ;;;
   Ok {| moment_info_pos :=
           MomentInfo.Add (moment_info_pos p) (moment_info_pos other);
         moment_info_neg :=
           MomentInfo.Add (moment_info_neg p) (moment_info_neg other);
         label := label' |})%result.
End With_double.
Arguments t D : clear implicits.
End QPostponed.

(** ** [Delta] *)

Module Delta.
Section With_double.
Context {D : Type}.

Record t : Type := {
  d_density_pos : DRange.t D;
  d_density_neg : DRange.t D
}.
End With_double.
Arguments t D : clear implicits.
End Delta.

(** ** [QResult]: the per-point result *)

Module QResult.
Section With_double.
Context {D : Type} `{Double D}.
Local Open Scope dbl_scope.

Record t : Type := {
  density_pos : D;
  density_neg : D;
  label : Z
}.

Definition with_label (r : t) (l : Z) : t :=
  {| density_pos := density_pos r; density_neg := density_neg r; label := l |}.

Definition Init (param : Param.t D) : t :=
  {| density_pos := of_index 0; density_neg := of_index 0;
     label := LAB_EITHER |}.

Definition Postprocess (cfg : Build) (param : Param.t D) (r : t)
  (q : NbcPoint.t D) : Result t :=
  (let label' :=
     if DRange.lo (Param.const_pos param) * density_pos r * NbcPoint.pi_pos q
        >? DRange.hi (Param.const_neg param) * density_neg r * NbcPoint.pi_neg q
     then Z.land (label r) LAB_POS
     else if DRange.lo (Param.const_neg param) * density_neg r * NbcPoint.pi_neg q
             >? DRange.hi (Param.const_pos param) * density_pos r * NbcPoint.pi_pos q
     then Z.land (label r) LAB_NEG
     else label r in
   DEBUG_ASSERT cfg (negb (label' =? LAB_NEITHER)%Z) ;;;
   Ok (with_label r label'))%result.

Definition ApplyPostponed (cfg : Build) (param : Param.t D) (r : t)
  (postponed : QPostponed.t D) (q : NbcPoint.t D) : Result t :=
  (let label' := Z.land (label r) (QPostponed.label postponed) in
   DEBUG_ASSERT cfg (negb (label' =? LAB_NEITHER)%Z) ;;;
   let density_pos' :=
     if negb (MomentInfo.is_empty (QPostponed.moment_info_pos postponed))
     then density_pos r
          + MomentInfo.ComputeKernelSum param
              (QPostponed.moment_info_pos postponed) (NbcPoint.vec q)
     else density_pos r in
   let density_neg' :=
     if negb (MomentInfo.is_empty (QPostponed.moment_info_neg postponed))
     then density_neg r
          + MomentInfo.ComputeKernelSum param
              (QPostponed.moment_info_neg postponed) (NbcPoint.vec q)
     else density_neg r in
   Ok {| density_pos := density_pos'; density_neg := density_neg';
         label := label' |})%result.
End With_double.
Arguments t D : clear implicits.
End QResult.

(** ** [QSummaryResult]: the per-node interval result *)

Module QSummaryResult.
Section With_double.
Context {D : Type} `{Double D}.
Local Open Scope dbl_scope.

Record t : Type := {
  density_pos : DRange.t D;
  density_neg : DRange.t D;
  label : Z
}.

Definition Init (param : Param.t D) : t :=
  {| density_pos := DRange.Init (of_index 0) (of_index 0);
     density_neg := DRange.Init (of_index 0) (of_index 0);
     label := LAB_EITHER |}.

(** horizontal join operator *)
Definition ApplySummaryResult (cfg : Build) (param : Param.t D)
  (s summary_result : t) : Result t :=
  (let label' := Z.land (label s) (label summary_result) in
   DEBUG_ASSERT cfg (negb (label' =? LAB_NEITHER)%Z) ;;;
   Ok {| density_pos := DRange.add (density_pos s) (density_pos summary_result);
         density_neg := DRange.add (density_neg s) (density_neg summary_result);
         label := label' |})%result.

Definition ApplyDelta (param : Param.t D) (s : t) (delta : Delta.t D) : t :=
  {| density_pos := DRange.add (density_pos s) (Delta.d_density_pos delta);
     density_neg := DRange.add (density_neg s) (Delta.d_density_neg delta);
     label := label s |}.

(** [bool change_made;] is declared without an initialiser: [None] is the
    indeterminate value it holds until a branch assigns it. *)
Definition ApplyPostponed (cfg : Build) (param : Param.t D) (s : t)
  (postponed : QPostponed.t D) (q_node : ThorNode.t D)
  : Result (t * option bool) :=
  (let change_made : option bool := None in
   '(s1, change_made) <-
     (if negb (QPostponed.label postponed =? LAB_EITHER)%Z then
        let label' := Z.land (label s) (QPostponed.label postponed) in
        DEBUG_ASSERT cfg (negb (label' =? LAB_NEITHER)%Z) ;;;
        Ok ({| density_pos := density_pos s; density_neg := density_neg s;
               label := label' |}, Some true)
      else Ok (s, change_made)) ;;
   '(s2, change_made) <-
     (if negb (MomentInfo.is_empty (QPostponed.moment_info_pos postponed)) then
        r <- MomentInfo.ComputeKernelSumRange cfg param
               (QPostponed.moment_info_pos postponed) (ThorNode.bound q_node) ;;
        Ok ({| density_pos := DRange.add (density_pos s1) r;
               density_neg := density_neg s1;
               label := label s1 |}, Some true)
      else Ok (s1, change_made)) ;;
   '(s3, change_made) <-
     (if negb (MomentInfo.is_empty (QPostponed.moment_info_neg postponed)) then
        r <- MomentInfo.ComputeKernelSumRange cfg param
               (QPostponed.moment_info_neg postponed) (ThorNode.bound q_node) ;;
        Ok ({| density_pos := density_pos s2;
               density_neg := DRange.add (density_neg s2) r;
               label := label s2 |}, Some true)
      else Ok (s2, change_made)) ;;
   Ok (s3, change_made))%result.
End With_double.
Arguments t D : clear implicits.

Section Reaccumulate.
Context {D : Type} `{Double D} `{Limits D}.

(** vertical init *)
Definition StartReaccumulate (param : Param.t D) (s : t D)
  (q_node : ThorNode.t D) : t D :=
  {| density_pos := DRange.InitEmptySet;
     density_neg := DRange.InitEmptySet;
     label := LAB_NEITHER |}.

(** [Accumulate(param, const QResult& result)] *)
Definition Accumulate (cfg : Build) (param : Param.t D) (s : t D)
  (result : QResult.t D) : Result (t D) :=
  (let s' :=
     {| density_pos :=
          DRange.union_point (density_pos s) (QResult.density_pos result);
        density_neg :=
          DRange.union_point (density_neg s) (QResult.density_neg result);
        label := Z.lor (label s) (QResult.label result) |} in
   DEBUG_ASSERT cfg (negb (QResult.label result =? LAB_NEITHER)%Z) ;;;
   Ok s')%result.

(** [Accumulate(param, const QSummaryResult& result, index_t n_points)] *)
Definition Accumulate_summary (cfg : Build) (param : Param.t D) (s result : t D)
  (n_points : Z) : Result (t D) :=
  (let s' :=
     {| density_pos := DRange.union (density_pos s) (density_pos result);
        density_neg := DRange.union (density_neg s) (density_neg result);
        label := Z.lor (label s) (label result) |} in
   DEBUG_ASSERT cfg (negb (label result =? LAB_NEITHER)%Z) ;;;
   Ok s')%result.

(** no post-processing steps necessary *)
Definition FinishReaccumulate (param : Param.t D) (s : t D)
  (q_node : ThorNode.t D) : t D := s.
End Reaccumulate.
End QSummaryResult.

(** ** [GlobalResult] *)

Module GlobalResult.
Record t : Type := {
  count_pos : Z;
  count_unknown : Z
}.

Definition Init : t := {| count_pos := 0; count_unknown := 0 |}.

Definition Accumulate (g other : t) : t :=
  {| count_pos := count_pos g + count_pos other;
     count_unknown := count_unknown g + count_unknown other |}.

Definition ApplyResult {D : Type} (g : t) (result : QResult.t D) : t :=
  if QResult.label result =? LAB_POS then
    {| count_pos := count_pos g + 1; count_unknown := count_unknown g |}
  else if QResult.label result =? LAB_EITHER then
    {| count_pos := count_pos g; count_unknown := count_unknown g + 1 |}
  else g.
End GlobalResult.

(** ** [PairVisitor]: the exact leaf-level evaluator *)

Module PairVisitor.
Section With_double.
Context {D : Type} `{Double D}.
Local Open Scope dbl_scope.

(** [do_pos] and [do_neg] are the members used by the
    [CHECK_POS_NEG_BOUNDS] variant. *)
Record t : Type := {
  density_pos : D;
  density_neg : D;
  do_pos : bool;
  do_neg : bool
}.

(** Returns the [bool] result with the visitor and [*q_result] as they are
    left. *)
Definition StartVisitingQueryPoint (cfg : Build) (param : Param.t D) (v : t)
  (q : NbcPoint.t D) (r_node : ThorNode.t D)
  (unapplied_summary_results : QSummaryResult.t D)
  (q_result : QResult.t D) : bool * t * QResult.t D :=
  let st := ThorNode.stat r_node in
  if negb (QResult.label q_result =? LAB_EITHER)%Z then (false, v, q_result)
  else if CHECK_POS_NEG_BOUNDS cfg then
    if ((NbcStat.count_pos st =? 0)%Z
        || (Bound.MinDistanceSq_point (NbcStat.bound_pos st) (NbcPoint.vec q)
            >? Kernel.bandwidth_sq (Param.kernel_pos param)))
       && ((NbcStat.count_neg st =? 0)%Z
           || (Bound.MinDistanceSq_point (NbcStat.bound_neg st) (NbcPoint.vec q)
               >? Kernel.bandwidth_sq (Param.kernel_neg param)))
    then (false, v, q_result)
    else
      let include_pos :=
        (0 <? NbcStat.count_pos st)%Z
        && (Bound.MaxDistanceSq_point (NbcStat.bound_pos st) (NbcPoint.vec q)
            <? Kernel.bandwidth_sq (Param.kernel_pos param)) in
      let include_neg :=
        (0 <? NbcStat.count_neg st)%Z
        && (Bound.MaxDistanceSq_point (NbcStat.bound_neg st) (NbcPoint.vec q)
            <? Kernel.bandwidth_sq (Param.kernel_neg param)) in
      let q_result' :=
        {| QResult.density_pos :=
             if include_pos
             then QResult.density_pos q_result
                  + MomentInfo.ComputeKernelSum param
                      (NbcStat.moment_info_pos st) (NbcPoint.vec q)
             else QResult.density_pos q_result;
           QResult.density_neg :=
             if include_neg
             then QResult.density_neg q_result
                  + MomentInfo.ComputeKernelSum param
                      (NbcStat.moment_info_neg st) (NbcPoint.vec q)
             else QResult.density_neg q_result;
           QResult.label := QResult.label q_result |} in
      let v' :=
        {| density_pos := of_index 0; density_neg := of_index 0;
           do_pos := negb include_pos; do_neg := negb include_neg |} in
      (do_pos v' || do_neg v', v', q_result')
  else
    if Bound.MinDistanceSq_point (ThorNode.bound r_node) (NbcPoint.vec q)
       >? dmax (Kernel.bandwidth_sq (Param.kernel_pos param))
               (Kernel.bandwidth_sq (Param.kernel_neg param))
    then (false, v, q_result)
    else if Bound.MaxDistanceSq_point (ThorNode.bound r_node) (NbcPoint.vec q)
            <? dmin (Kernel.bandwidth_sq (Param.kernel_pos param))
                    (Kernel.bandwidth_sq (Param.kernel_neg param))
    then
      (false, v,
       {| QResult.density_pos :=
            if (0 <? NbcStat.count_pos st)%Z
            then QResult.density_pos q_result
                 + MomentInfo.ComputeKernelSum param
                     (NbcStat.moment_info_pos st) (NbcPoint.vec q)
            else QResult.density_pos q_result;
          QResult.density_neg :=
            if (0 <? NbcStat.count_neg st)%Z
            then QResult.density_neg q_result
                 + MomentInfo.ComputeKernelSum param
                     (NbcStat.moment_info_neg st) (NbcPoint.vec q)
            else QResult.density_neg q_result;
          QResult.label := QResult.label q_result |})
    else
      (true,
       {| density_pos := of_index 0; density_neg := of_index 0;
          do_pos := do_pos v; do_neg := do_neg v |},
       q_result).

Definition VisitPair (cfg : Build) (param : Param.t D) (v : t)
  (q r : NbcPoint.t D) : t :=
  if CHECK_POS_NEG_BOUNDS cfg then
    if NbcPoint.is_pos r then
      if do_pos v then
        let distance :=
          la.DistanceSqEuclidean (NbcPoint.vec q) (NbcPoint.vec r) in
        {| density_pos :=
             density_pos v
             + Kernel.EvalUnnormOnSq (Param.kernel_pos param) distance;
           density_neg := density_neg v;
           do_pos := do_pos v; do_neg := do_neg v |}
      else v
    else
      if do_neg v then
        let distance :=
          la.DistanceSqEuclidean (NbcPoint.vec q) (NbcPoint.vec r) in
        {| density_pos := density_pos v;
           density_neg :=
             density_neg v
             + Kernel.EvalUnnormOnSq (Param.kernel_neg param) distance;
           do_pos := do_pos v; do_neg := do_neg v |}
      else v
  else
    let distance := la.DistanceSqEuclidean (NbcPoint.vec q) (NbcPoint.vec r) in
    if NbcPoint.is_pos r then
      {| density_pos :=
           density_pos v
           + Kernel.EvalUnnormOnSq (Param.kernel_pos param) distance;
         density_neg := density_neg v;
         do_pos := do_pos v; do_neg := do_neg v |}
    else
      {| density_pos := density_pos v;
         density_neg :=
           density_neg v
           + Kernel.EvalUnnormOnSq (Param.kernel_neg param) distance;
         do_pos := do_pos v; do_neg := do_neg v |}.

(** The [label] narrowed at the end is the one of [*q_result], the only
    label in reach of the visitor. *)
Definition FinishVisitingQueryPoint (param : Param.t D) (v : t)
  (q : NbcPoint.t D) (r_node : ThorNode.t D)
  (unapplied_summary_results : QSummaryResult.t D)
  (q_result : QResult.t D) : QResult.t D :=
  let density_pos' := QResult.density_pos q_result + density_pos v in
  let density_neg' := QResult.density_neg q_result + density_neg v in
  let total_density_pos :=
    DRange.add_scalar
      (QSummaryResult.density_pos unapplied_summary_results) density_pos' in
  let total_density_neg :=
    DRange.add_scalar
      (QSummaryResult.density_neg unapplied_summary_results) density_neg' in
  let label' :=
    if DRange.lo (Param.const_pos param) * DRange.lo total_density_pos
       * NbcPoint.pi_pos q
       >? DRange.hi (Param.const_neg param) * DRange.hi total_density_neg
          * NbcPoint.pi_neg q
    then Z.land (QResult.label q_result) LAB_POS
    else if DRange.lo (Param.const_neg param) * DRange.lo total_density_neg
            * NbcPoint.pi_neg q
            >? DRange.hi (Param.const_pos param) * DRange.hi total_density_pos
               * NbcPoint.pi_pos q
    then Z.land (QResult.label q_result) LAB_NEG
    else QResult.label q_result in
  {| QResult.density_pos := density_pos';
     QResult.density_neg := density_neg';
     QResult.label := label' |}.
End With_double.
Arguments t D : clear implicits.
End PairVisitor.

(** ** [Algorithm]: the pruning and termination policy *)

Module Algorithm.

(** The three ways [ConsiderPairIntrinsic] ends; the first two are the ones
    it announces with [DEBUG_MSG] (Exclusion, Inclusion) before returning
    [false]. *)
Inductive Outcome : Type := Exclusion | Inclusion | Approximate.

Section With_double.
Context {D : Type} `{Double D}.
Local Open Scope dbl_scope.

(** What a call leaves behind: the returned [bool] and the three objects
    passed by pointer.  [param], [q_node] and [r_node] are [const]
    references and are only read. *)
Record PairResult : Type := {
  returned : bool;
  outcome : Outcome;
  delta : Delta.t D;
  global_result : GlobalResult.t;
  q_postponed : QPostponed.t D
}.

Definition Inclusion_test (cfg : Build) (param : Param.t D)
  (q_node r_node : ThorNode.t D) : bool :=
  let st := ThorNode.stat r_node in
  if CHECK_POS_NEG_BOUNDS cfg then
    ((NbcStat.count_pos st =? 0)%Z
     || (Bound.MaxDistanceSq (NbcStat.bound_pos st) (ThorNode.bound q_node)
         <? Kernel.bandwidth_sq (Param.kernel_pos param)))
    && ((NbcStat.count_neg st =? 0)%Z
        || (Bound.MaxDistanceSq (NbcStat.bound_neg st) (ThorNode.bound q_node)
            <? Kernel.bandwidth_sq (Param.kernel_neg param)))
  else
    Bound.MaxDistanceSq (ThorNode.bound r_node) (ThorNode.bound q_node)
    <? Kernel.bandwidth_sq (Param.kernel_pos param).

Definition ConsiderPairIntrinsic (cfg : Build) (param : Param.t D)
  (q_node r_node : ThorNode.t D) (delta0 : Delta.t D)
  (global_result0 : GlobalResult.t) (q_postponed0 : QPostponed.t D)
  : PairResult :=
  let st := ThorNode.stat r_node in
  let d_density_pos_hi :=
    if (0 <? NbcStat.count_pos st)%Z then
      let distance_sq_pos_lo :=
        Bound.MinDistanceSq (NbcStat.bound_pos st) (ThorNode.bound q_node) in
      Kernel.EvalUnnormOnSq (Param.kernel_pos param) distance_sq_pos_lo
    else of_index 0 in
  let d_density_neg_hi :=
    if (0 <? NbcStat.count_neg st)%Z then
      let distance_sq_neg_lo :=
        Bound.MinDistanceSq (NbcStat.bound_neg st) (ThorNode.bound q_node) in
      Kernel.EvalUnnormOnSq (Param.kernel_neg param) distance_sq_neg_lo
    else of_index 0 in
  if (d_density_pos_hi =? of_index 0) && (d_density_neg_hi =? of_index 0) then
    {| returned := false; outcome := Exclusion; delta := delta0;
       global_result := global_result0; q_postponed := q_postponed0 |}
  else if Inclusion_test cfg param q_node r_node then
    let qp1 :=
      if (0 <? NbcStat.count_pos st)%Z then
        {| QPostponed.moment_info_pos :=
             MomentInfo.Add (QPostponed.moment_info_pos q_postponed0)
               (NbcStat.moment_info_pos st);
           QPostponed.moment_info_neg := QPostponed.moment_info_neg q_postponed0;
           QPostponed.label := QPostponed.label q_postponed0 |}
      else q_postponed0 in
    let qp2 :=
      if (0 <? NbcStat.count_neg st)%Z then
        {| QPostponed.moment_info_pos := QPostponed.moment_info_pos qp1;
           QPostponed.moment_info_neg :=
             MomentInfo.Add (QPostponed.moment_info_neg qp1)
               (NbcStat.moment_info_neg st);
           QPostponed.label := QPostponed.label qp1 |}
      else qp1 in
    {| returned := false; outcome := Inclusion; delta := delta0;
       global_result := global_result0; q_postponed := qp2 |}
  else
    (* delta->d_density_pos.Init(0, count_pos * d_density_pos_hi); *)
    let d1 :=
      {| Delta.d_density_pos :=
           DRange.Init (of_index 0)
             (of_index (NbcStat.count_pos st) * d_density_pos_hi);
         Delta.d_density_neg := Delta.d_density_neg delta0 |} in
    (* delta->d_density_pos.hi = delta->d_density_neg.lo = 0; *)
    let d2 :=
      {| Delta.d_density_pos := Delta.d_density_pos d1;
         Delta.d_density_neg :=
           DRange.Init (of_index 0) (DRange.hi (Delta.d_density_neg d1)) |} in
    let d3 :=
      {| Delta.d_density_pos :=
           DRange.Init (DRange.lo (Delta.d_density_pos d2))
             (DRange.lo (Delta.d_density_neg d2));
         Delta.d_density_neg := Delta.d_density_neg d2 |} in
    (* delta->d_density_neg.hi = count_neg * d_density_neg_hi; *)
    let d4 :=
      {| Delta.d_density_pos := Delta.d_density_pos d3;
         Delta.d_density_neg :=
           DRange.Init (DRange.lo (Delta.d_density_neg d3))
             (of_index (NbcStat.count_neg st) * d_density_neg_hi) |} in
    {| returned := true; outcome := Approximate; delta := d4;
       global_result := global_result0; q_postponed := q_postponed0 |}.

Definition ConsiderPairExtrinsic (param : Param.t D)
  (q_node r_node : ThorNode.t D) (delta0 : Delta.t D)
  (q_summary_result : QSummaryResult.t D) (global_result0 : GlobalResult.t)
  (q_postponed0 : QPostponed.t D) : bool * QPostponed.t D :=
  (true, q_postponed0).

(** Returns the [bool] result with [*q_postponed] as it is left. *)
Definition ConsiderQueryTermination (cfg : Build) (param : Param.t D)
  (q_node : ThorNode.t D) (q_summary_result : QSummaryResult.t D)
  (global_result0 : GlobalResult.t) (q_postponed0 : QPostponed.t D)
  : Result (bool * QPostponed.t D) :=
  (DEBUG_ASSERT cfg
     (DRange.lo (QSummaryResult.density_pos q_summary_result)
      <? DRange.hi (QSummaryResult.density_pos q_summary_result)) ;;;
   DEBUG_ASSERT cfg
     (DRange.lo (QSummaryResult.density_neg q_summary_result)
      <? DRange.hi (QSummaryResult.density_neg q_summary_result)) ;;;
   if negb (QSummaryResult.label q_summary_result =? LAB_EITHER)%Z then
     DEBUG_ASSERT cfg
       (negb (Z.land (QSummaryResult.label q_summary_result)
                (QPostponed.label q_postponed0) =? LAB_NEITHER)%Z) ;;;
     Ok (false,
         QPostponed.with_label q_postponed0
           (QSummaryResult.label q_summary_result))
   else if DRange.lo (Param.const_pos param)
           * DRange.lo (QSummaryResult.density_pos q_summary_result)
           * DRange.lo (NbcStat.pi_pos (ThorNode.stat q_node))
           >? DRange.hi (Param.const_neg param)
              * DRange.hi (QSummaryResult.density_neg q_summary_result)
              * DRange.hi (NbcStat.pi_neg (ThorNode.stat q_node))
   then Ok (false, QPostponed.with_label q_postponed0 LAB_POS)
   else if DRange.lo (Param.const_neg param)
           * DRange.lo (QSummaryResult.density_neg q_summary_result)
           * DRange.lo (NbcStat.pi_neg (ThorNode.stat q_node))
           >? DRange.hi (Param.const_pos param)
              * DRange.hi (QSummaryResult.density_pos q_summary_result)
              * DRange.hi (NbcStat.pi_pos (ThorNode.stat q_node))
   then Ok (false, QPostponed.with_label q_postponed0 LAB_NEG)
   else Ok (true, q_postponed0))%result.
End With_double.
Arguments PairResult D : clear implicits.
End Algorithm.

(** * What the specification says

    The definitions of this part follow the wording of the specification;
    they are the yardstick the code above is compared with. *)

Module Claimed.
Section With_double.
Context {D : Type} `{Double D}.
Local Open Scope dbl_scope.

(** The class-c kernel evaluated at the minimum squared distance between
    the class-c reference Bound and the query Bound, taken as 0 when the
    class count is 0. *)
Definition kernel_upper_bound_pos (param : Param.t D)
  (q_node r_node : ThorNode.t D) : D :=
  if (NbcStat.count_pos (ThorNode.stat r_node) =? 0)%Z then of_index 0
  else Kernel.EvalUnnormOnSq (Param.kernel_pos param)
         (Bound.MinDistanceSq (NbcStat.bound_pos (ThorNode.stat r_node))
            (ThorNode.bound q_node)).

Definition kernel_upper_bound_neg (param : Param.t D)
  (q_node r_node : ThorNode.t D) : D :=
  if (NbcStat.count_neg (ThorNode.stat r_node) =? 0)%Z then of_index 0
  else Kernel.EvalUnnormOnSq (Param.kernel_neg param)
         (Bound.MinDistanceSq (NbcStat.bound_neg (ThorNode.stat r_node))
            (ThorNode.bound q_node)).

(** Both classes' upper bounds are zero. *)
Definition excluded (param : Param.t D) (q_node r_node : ThorNode.t D) : bool :=
  (kernel_upper_bound_pos param q_node r_node =? of_index 0)
  && (kernel_upper_bound_neg param q_node r_node =? of_index 0).

(** The Delta of the Approximate outcome:
    [[0, count_class * kernel_upper_bound]] per class. *)
Definition approximate_delta (param : Param.t D)
  (q_node r_node : ThorNode.t D) : Delta.t D :=
  {| Delta.d_density_pos :=
       DRange.Init (of_index 0)
         (of_index (NbcStat.count_pos (ThorNode.stat r_node))
          * kernel_upper_bound_pos param q_node r_node);
     Delta.d_density_neg :=
       DRange.Init (of_index 0)
         (of_index (NbcStat.count_neg (ThorNode.stat r_node))
          * kernel_upper_bound_neg param q_node r_node) |}.

(** A class is saturated when the maximum possible (squared) distance
    between its own reference Bound and the query Bound is below its own
    kernel's (squared) bandwidth. *)
Definition saturated_pos (param : Param.t D) (q_node r_node : ThorNode.t D)
  : bool :=
  Bound.MaxDistanceSq (NbcStat.bound_pos (ThorNode.stat r_node))
    (ThorNode.bound q_node)
  <? Kernel.bandwidth_sq (Param.kernel_pos param).

Definition saturated_neg (param : Param.t D) (q_node r_node : ThorNode.t D)
  : bool :=
  Bound.MaxDistanceSq (NbcStat.bound_neg (ThorNode.stat r_node))
    (ThorNode.bound q_node)
  <? Kernel.bandwidth_sq (Param.kernel_neg param).

(** The dominance tests over the query node's summary intervals and prior
    bounds. *)
Definition pos_dominates (param : Param.t D) (q_node : ThorNode.t D)
  (s : QSummaryResult.t D) : bool :=
  DRange.lo (Param.const_pos param) * DRange.lo (QSummaryResult.density_pos s)
  * DRange.lo (NbcStat.pi_pos (ThorNode.stat q_node))
  >? DRange.hi (Param.const_neg param) * DRange.hi (QSummaryResult.density_neg s)
     * DRange.hi (NbcStat.pi_neg (ThorNode.stat q_node)).

Definition neg_dominates (param : Param.t D) (q_node : ThorNode.t D)
  (s : QSummaryResult.t D) : bool :=
  DRange.lo (Param.const_neg param) * DRange.lo (QSummaryResult.density_neg s)
  * DRange.lo (NbcStat.pi_neg (ThorNode.stat q_node))
  >? DRange.hi (Param.const_pos param) * DRange.hi (QSummaryResult.density_pos s)
     * DRange.hi (NbcStat.pi_pos (ThorNode.stat q_node)).

(** Query termination: a summary label narrowed to a single class is
    stored and recursion stops; with the label still EITHER, a dominating
    class is stored and recursion stops; in every other case recursion
    continues and the Postponed is left alone. *)
Definition query_termination (param : Param.t D) (q_node : ThorNode.t D)
  (s : QSummaryResult.t D) (q_postponed : QPostponed.t D)
  : bool * QPostponed.t D :=
  if (QSummaryResult.label s =? LAB_POS)%Z
     || (QSummaryResult.label s =? LAB_NEG)%Z
  then (false, QPostponed.with_label q_postponed (QSummaryResult.label s))
  else if (QSummaryResult.label s =? LAB_EITHER)%Z then
    if pos_dominates param q_node s
    then (false, QPostponed.with_label q_postponed LAB_POS)
    else if neg_dominates param q_node s
    then (false, QPostponed.with_label q_postponed LAB_NEG)
    else (true, q_postponed)
  else (true, q_postponed).
End With_double.
End Claimed.

(** The assertions of [ConsiderQueryTermination] hold, or are compiled
    out. *)
Definition termination_asserts_pass {D : Type} `{Double D} (cfg : Build)
  (s : QSummaryResult.t D) (q_postponed : QPostponed.t D) : bool :=
  negb (DEBUG cfg)
  || ((DRange.lo (QSummaryResult.density_pos s)
       <? DRange.hi (QSummaryResult.density_pos s))%dbl
      && (DRange.lo (QSummaryResult.density_neg s)
          <? DRange.hi (QSummaryResult.density_neg s))%dbl
      && ((QSummaryResult.label s =? LAB_EITHER)
          || negb (Z.land (QSummaryResult.label s)
                     (QPostponed.label q_postponed) =? LAB_NEITHER))).

(** An interval of non-negative numbers with its ends in order. *)
Definition range_ok (r : DRange.t Q) : Prop :=
  (0 <= DRange.lo r)%Q /\ (DRange.lo r <= DRange.hi r)%Q.

(** A label that names at least one class. *)
Definition is_class_label (l : Z) : Prop :=
  l = LAB_POS \/ l = LAB_NEG \/ l = LAB_EITHER.

(** A label narrowed to a single class. *)
Definition is_narrowed (l : Z) : Prop := l = LAB_POS \/ l = LAB_NEG.

(** Well-formed [MomentInfo] over [n] dimensions: the state reached from
    [Init] by adding points and merging.  The count is not negative, and an
    empty summary is the zero state left by [Reset]. *)
Definition MomentInfo_wf {D : Type} `{Double D} (n : nat)
  (m : MomentInfo.t D) : Prop :=
  length (MomentInfo.mass m) = n
  /\ 0 <= MomentInfo.count m
  /\ (MomentInfo.count m = 0 ->
      MomentInfo.mass m = repeat (of_index 0) n
      /\ MomentInfo.sumsq m = of_index 0).

(** The centroid [mass / count] of the summarized points and its squared
    norm, as [ComputeKernelSumRange] forms them. *)
Definition centroid {D : Type} `{Double D} (m : MomentInfo.t D)
  : la.Vector D :=
  la.Scale (of_index 1 / of_index (MomentInfo.count m))%dbl (MomentInfo.mass m).

Definition centroid_norm_sq {D : Type} `{Double D} (m : MomentInfo.t D) : D :=
  (la.Dot (MomentInfo.mass m) (MomentInfo.mass m)
   / of_index (MomentInfo.count m) / of_index (MomentInfo.count m))%dbl.

(** ** Labels during a run

    The objects that carry a label, and the operations of the source that
    apply evidence to one of them.  [Attempt cfg k c e res] reads: applied
    to [c], the operation brings evidence [e] ([None] when it brings
    none), combines it with the label in the way [k], and ends in [res].

    These are all the places where nbc.cc writes a label after evidence:
    [label &= ...] at lines 409, 459, 462, 476, 545, 560, 767 and 771, and
    [q_postponed->label = ...] at lines 875, 884 and 893.  The other writes
    bring no evidence: [Init] and [Reset] set [LAB_EITHER] (lines 400, 405,
    451, 508), and the bottom-up reduce starts from [LAB_NEITHER] and ORs
    the labels of the results below (lines 515, 523, 531). *)

Module Narrowing.
Section With_double.
Context {D : Type} `{Double D}.
Local Open Scope dbl_scope.

Inductive Cell : Type :=
| PostponedCell (p : QPostponed.t D)
| ResultCell (r : QResult.t D)
| SummaryCell (s : QSummaryResult.t D).

Definition label_of (c : Cell) : Z :=
  match c with
  | PostponedCell p => QPostponed.label p
  | ResultCell r => QResult.label r
  | SummaryCell s => QSummaryResult.label s
  end.

Definition narrow (l : Z) (e : option Z) : Z :=
  match e with
  | Some ev => Z.land l ev
  | None => l
  end.

Definition lift {A : Type} (f : A -> Cell) (r : Result A) : Result Cell :=
  match r with
  | Ok a => Ok (f a)
  | AssertionFailed => AssertionFailed
  end.

(** The class, if any, that the dominance test on a query point names. *)
Definition dominance_evidence (param : Param.t D) (dpos dneg : DRange.t D)
  (q : NbcPoint.t D) : option Z :=
  if DRange.lo (Param.const_pos param) * DRange.lo dpos * NbcPoint.pi_pos q
     >? DRange.hi (Param.const_neg param) * DRange.hi dneg * NbcPoint.pi_neg q
  then Some LAB_POS
  else if DRange.lo (Param.const_neg param) * DRange.lo dneg * NbcPoint.pi_neg q
          >? DRange.hi (Param.const_pos param) * DRange.hi dpos * NbcPoint.pi_pos q
  then Some LAB_NEG
  else None.

Definition visit_all (cfg : Build) (param : Param.t D) (v : PairVisitor.t D)
  (q : NbcPoint.t D) (rs : list (NbcPoint.t D)) : PairVisitor.t D :=
  fold_left (fun v r => PairVisitor.VisitPair cfg param v q r) rs v.

(** The label [ConsiderQueryTermination] stores, if any: the label of the
    SummaryResult when that is no longer [LAB_EITHER], and otherwise the
    class that dominates over the query node's intervals. *)
Definition termination_evidence (param : Param.t D) (q_node : ThorNode.t D)
  (s : QSummaryResult.t D) : option Z :=
  if negb (QSummaryResult.label s =? LAB_EITHER)%Z
  then Some (QSummaryResult.label s)
  else if DRange.lo (Param.const_pos param)
          * DRange.lo (QSummaryResult.density_pos s)
          * DRange.lo (NbcStat.pi_pos (ThorNode.stat q_node))
          >? DRange.hi (Param.const_neg param)
             * DRange.hi (QSummaryResult.density_neg s)
             * DRange.hi (NbcStat.pi_neg (ThorNode.stat q_node))
  then Some LAB_POS
  else if DRange.lo (Param.const_neg param)
          * DRange.lo (QSummaryResult.density_neg s)
          * DRange.lo (NbcStat.pi_neg (ThorNode.stat q_node))
          >? DRange.hi (Param.const_pos param)
             * DRange.hi (QSummaryResult.density_pos s)
             * DRange.hi (NbcStat.pi_pos (ThorNode.stat q_node))
  then Some LAB_NEG
  else None.

(** How an operation combines its evidence with the label it finds:
    [label &= evidence], or [label = evidence].  The second is
    [ConsiderQueryTermination]; [summary_label] is the label of the
    SummaryResult it is handed. *)
Inductive Store : Type :=
| ByAnd
| ByAssignment (summary_label : Z).

Inductive Attempt (cfg : Build)
  : Store -> Cell -> option Z -> Result Cell -> Prop :=
| QPostponed_ApplyPostponed param p other :
    Attempt cfg ByAnd (PostponedCell p) (Some (QPostponed.label other))
      (lift PostponedCell (QPostponed.ApplyPostponed cfg param p other))
| QResult_ApplyPostponed param r postponed q :
    Attempt cfg ByAnd (ResultCell r) (Some (QPostponed.label postponed))
      (lift ResultCell (QResult.ApplyPostponed cfg param r postponed q))
| QResult_Postprocess param r q :
    Attempt cfg ByAnd (ResultCell r)
      (dominance_evidence param
         (DRange.Init (QResult.density_pos r) (QResult.density_pos r))
         (DRange.Init (QResult.density_neg r) (QResult.density_neg r)) q)
      (lift ResultCell (QResult.Postprocess cfg param r q))
| QSummaryResult_ApplySummaryResult param s summary_result :
    Attempt cfg ByAnd (SummaryCell s)
      (Some (QSummaryResult.label summary_result))
      (lift SummaryCell
         (QSummaryResult.ApplySummaryResult cfg param s summary_result))
| QSummaryResult_ApplyPostponed param s postponed q_node :
    Attempt cfg ByAnd (SummaryCell s)
      (if (QPostponed.label postponed =? LAB_EITHER)%Z then None
       else Some (QPostponed.label postponed))
      (lift (fun x => SummaryCell (fst x))
         (QSummaryResult.ApplyPostponed cfg param s postponed q_node))
| PairVisitor_visit param v q r_node unapplied r v0 r1 rs :
    PairVisitor.StartVisitingQueryPoint cfg param v q r_node unapplied r
    = (true, v0, r1) ->
    let v1 := visit_all cfg param v0 q rs in
    Attempt cfg ByAnd (ResultCell r)
      (dominance_evidence param
         (DRange.add_scalar (QSummaryResult.density_pos unapplied)
            (QResult.density_pos r1 + PairVisitor.density_pos v1))
         (DRange.add_scalar (QSummaryResult.density_neg unapplied)
            (QResult.density_neg r1 + PairVisitor.density_neg v1)) q)
      (Ok (ResultCell
             (PairVisitor.FinishVisitingQueryPoint param v1 q r_node
                unapplied r1)))
| Algorithm_ConsiderQueryTermination param q_node s global_result p :
    Attempt cfg (ByAssignment (QSummaryResult.label s)) (PostponedCell p)
      (termination_evidence param q_node s)
      (lift (fun x => PostponedCell (snd x))
         (Algorithm.ConsiderQueryTermination cfg param q_node s
            global_result p)).

(** What an assignment needs to be a narrowing: the label of the
    SummaryResult is within the label [l] that is overwritten.  An AND
    needs nothing. *)
Definition accounted (k : Store) (l : Z) : Prop :=
  match k with
  | ByAnd => True
  | ByAssignment summary_label => Z.land summary_label l = summary_label
  end.

(** One successful application of evidence, every assignment among them
    being accounted for, and a run of them. *)
Definition step (cfg : Build) (c c' : Cell) : Prop :=
  exists k e, Attempt cfg k c e (Ok c') /\ accounted k (label_of c).

Definition run (cfg : Build) : Cell -> Cell -> Prop :=
  clos_refl_trans_1n Cell (step cfg).
End With_double.
Arguments Cell D : clear implicits.
End Narrowing.

(** ** Concrete inputs

    One-dimensional data used to run the definitions: a node spans
    [[lo, hi]] and holds one positive reference point at [pos] and one
    negative reference point at [neg]. *)

Module Example.
Section With_double.
Context {D : Type} `{Double D}.
Local Open Scope dbl_scope.

Definition range (a b : Z) : DRange.t D := DRange.Init (of_index a) (of_index b).

Definition half : D := of_index 1 / of_index 2.

Definition one_point (x : Z) : MomentInfo.t D :=
  {| MomentInfo.mass := [of_index x];
     MomentInfo.sumsq := of_index (x * x);
     MomentInfo.count := 1 |}.

Definition empty : MomentInfo.t D :=
  {| MomentInfo.mass := [of_index 0];
     MomentInfo.sumsq := of_index 0;
     MomentInfo.count := 0 |}.

Definition param (h_pos h_neg : Z) : Param.t D :=
  {| Param.const_pos := range 1 2;
     Param.const_neg := range 1 2;
     Param.kernel_pos := Kernel.Init (of_index h_pos);
     Param.kernel_neg := Kernel.Init (of_index h_neg);
     Param.kernel := Kernel.Init (of_index h_pos);
     Param.dim := 1;
     Param.count_all := 2;
     Param.count_pos := 1;
     Param.count_neg := 1;
     Param.threshold := half |}.

Definition node (lo hi pos neg : Z) : ThorNode.t D :=
  {| ThorNode.bound := [range lo hi];
     ThorNode.stat :=
       {| NbcStat.moment_info_pos := one_point pos;
          NbcStat.moment_info_neg := one_point neg;
          NbcStat.bound_pos := [range pos pos];
          NbcStat.bound_neg := [range neg neg];
          NbcStat.count_pos := 1;
          NbcStat.count_neg := 1;
          NbcStat.pi_pos := DRange.Init half half;
          NbcStat.pi_neg := DRange.Init half half |} |}.

Definition delta0 : Delta.t D :=
  {| Delta.d_density_pos := range 7 7; Delta.d_density_neg := range 7 7 |}.

Definition postponed (l : Z) : QPostponed.t D :=
  {| QPostponed.moment_info_pos := empty;
     QPostponed.moment_info_neg := empty;
     QPostponed.label := l |}.

Definition summary (pos_lo pos_hi neg_lo neg_hi l : Z) : QSummaryResult.t D :=
  {| QSummaryResult.density_pos := range pos_lo pos_hi;
     QSummaryResult.density_neg := range neg_lo neg_hi;
     QSummaryResult.label := l |}.

Definition result (l : Z) : QResult.t D :=
  {| QResult.density_pos := of_index 1;
     QResult.density_neg := of_index 0;
     QResult.label := l |}.
End With_double.

Definition debug_build : Build :=
  {| DEBUG := true; CHECK_POS_NEG_BOUNDS := false |}.
Definition release_build : Build :=
  {| DEBUG := false; CHECK_POS_NEG_BOUNDS := false |}.
Definition per_class_build : Build :=
  {| DEBUG := true; CHECK_POS_NEG_BOUNDS := true |}.
End Example.

(** ** Notions used by the further properties *)

(** How many results carry the label [l]. *)
Definition count_label {D : Type} (l : Z) (rs : list (QResult.t D)) : Z :=
  Z.of_nat (length (filter (fun r => QResult.label r =? l) rs)).

(** Modelled from the spec: the driver that makes the calls is THOR's,
    not part of nbc.cc.  [ApplyResult] over the results of a run, one
    after the other. *)
Definition tally {D : Type} (rs : list (QResult.t D)) (g : GlobalResult.t)
  : GlobalResult.t :=
  fold_left GlobalResult.ApplyResult rs g.

(** A node statistic whose two summaries are well-formed over [n]
    dimensions and whose counts agree with the summaries' counts. *)
Definition NbcStat_consistent {D : Type} `{Double D} (n : nat)
  (s : NbcStat.t D) : Prop :=
  MomentInfo_wf n (NbcStat.moment_info_pos s)
  /\ MomentInfo_wf n (NbcStat.moment_info_neg s)
  /\ MomentInfo.count (NbcStat.moment_info_pos s) = NbcStat.count_pos s
  /\ MomentInfo.count (NbcStat.moment_info_neg s) = NbcStat.count_neg s.

(** Modelled from the spec: the tree builder that makes the calls is
    THOR's, not part of nbc.cc.  The statistic of a leaf: [Accumulate]
    over its points, one after the other. *)
Definition accumulate_points {D : Type} `{Double D} `{Limits D}
  (param : Param.t D) (ps : list (NbcPoint.t D)) (s : NbcStat.t D)
  : NbcStat.t D :=
  fold_left (NbcStat.Accumulate_point param) ps s.

(** The coordinates of the points of one class. *)
Definition class_points {D : Type} (pos : bool) (ps : list (NbcPoint.t D))
  : list (la.Vector D) :=
  map (@NbcPoint.vec D) (filter (fun p => Bool.eqb (NbcPoint.is_pos p) pos) ps).

(** The brute-force kernel sum of the points [ps] at the query point
    [q]. *)
Fixpoint kernel_total {D : Type} `{Double D} (k : Kernel.t D)
  (q : la.Vector D) (ps : list (la.Vector D)) : D :=
  match ps with
  | [] => of_index 0
  | p :: ps' =>
      (Kernel.EvalUnnormOnSq k (la.DistanceSqEuclidean q p)
       + kernel_total k q ps')%dbl
  end.

(** The same sum with the kernel's profile [1 - d^2 / h^2] left
    unclamped. *)
Fixpoint profile_total {D : Type} `{Double D} (k : Kernel.t D)
  (q : la.Vector D) (ps : list (la.Vector D)) : D :=
  match ps with
  | [] => of_index 0
  | p :: ps' =>
      ((of_index 1 - la.DistanceSqEuclidean q p * Kernel.inv_bandwidth_sq k)
       + profile_total k q ps')%dbl
  end.

(** A Postponed whose two summaries are well-formed over [n] dimensions. *)
Definition QPostponed_wf {D : Type} `{Double D} (n : nat)
  (p : QPostponed.t D) : Prop :=
  MomentInfo_wf n (QPostponed.moment_info_pos p)
  /\ MomentInfo_wf n (QPostponed.moment_info_neg p).

(** Two per-point results with the same label and equal densities. *)
Definition QResult_equiv (a b : QResult.t Q) : Prop :=
  (QResult.density_pos a == QResult.density_pos b)%Q
  /\ (QResult.density_neg a == QResult.density_neg b)%Q
  /\ QResult.label a = QResult.label b.

(** Two computations that fail together or return related values. *)
Definition Result_rel {A : Type} (R : A -> A -> Prop) (x y : Result A) : Prop :=
  match x, y with
  | Ok a, Ok b => R a b
  | AssertionFailed, AssertionFailed => True
  | _, _ => False
  end.

(** Modelled from the spec: the driver that makes the calls is THOR's,
    not part of nbc.cc.  The bottom-up pass over the results of a query
    node's points: [StartReaccumulate], [Accumulate] for each result in
    turn, [FinishReaccumulate]. *)
Definition reaccumulate {D : Type} `{Double D} `{Limits D} (cfg : Build)
  (param : Param.t D) (q_node : ThorNode.t D) (s : QSummaryResult.t D)
  (rs : list (QResult.t D)) : Result (QSummaryResult.t D) :=
  (s' <- fold_left
           (fun acc r => a <- acc ;; QSummaryResult.Accumulate cfg param a r)
           rs (Ok (QSummaryResult.StartReaccumulate param s q_node)) ;;
   Ok (QSummaryResult.FinishReaccumulate param s' q_node))%result.

(** One label within another: every class the first allows, the second
    allows. *)
Definition label_within (l m : Z) : Prop := Z.land l m = l.

(** Modelled from the spec: the driver that makes the calls is THOR's,
    not part of nbc.cc.  A leaf visit of the query point [q] against the
    reference points [rs]: [StartVisitingQueryPoint], [VisitPair] for each
    reference point when it returned [true], and then
    [FinishVisitingQueryPoint]; when it returned [false] the result is
    left as [StartVisitingQueryPoint] left it. *)
Definition visit_leaf {D : Type} `{Double D} (cfg : Build)
  (param : Param.t D) (v : PairVisitor.t D) (q : NbcPoint.t D)
  (r_node : ThorNode.t D) (rs : list (NbcPoint.t D))
  (unapplied : QSummaryResult.t D) (q_result : QResult.t D) : QResult.t D :=
  match PairVisitor.StartVisitingQueryPoint cfg param v q r_node unapplied
          q_result with
  | (true, v0, r1) =>
      PairVisitor.FinishVisitingQueryPoint param
        (Narrowing.visit_all cfg param v0 q rs) q r_node unapplied r1
  | (false, _, r1) => r1
  end.

(** A Bound over [n] dimensions that contains the point [x] of [n]
    coordinates. *)
Definition Bound_covers {D : Type} `{Double D} (n : nat) (b : Bound.t D)
  (x : la.Vector D) : Prop :=
  length b = n /\ length x = n /\ Bound.Contains b x = true.

(** The scalar [d] lies in the interval [r]. *)
Definition DRange_covers (r : DRange.t Q) (d : Q) : Prop :=
  (DRange.lo r <= d)%Q /\ (d <= DRange.hi r)%Q.

(** The summary of one point, as [NbcStat::Accumulate] adds it. *)
Definition point_moment {D : Type} `{Double D} (p : la.Vector D)
  : MomentInfo.t D :=
  {| MomentInfo.mass := p; MomentInfo.sumsq := la.Dot p p;
     MomentInfo.count := 1 |}.

(** ** Concrete inputs of the further properties

    Points on the line with prior one half, the statistic [NbcStat::Init]
    returns in one dimension, a leaf spanning [[lo, hi]] whose statistic is
    built from its points, a Postponed that holds one positive point, a
    per-point result and a visitor. *)

Module Sample.
Section With_double.
Context {D : Type} `{Double D} `{Limits D}.

Definition point (x : Z) (is_pos : bool) : NbcPoint.t D :=
  {| NbcPoint.vec := [of_index x];
     NbcPoint.is_pos := is_pos;
     NbcPoint.pi := Example.half |}.

Definition points : list (NbcPoint.t D) := [point 0 true; point 1 false].

Definition zero_stat : NbcStat.t D :=
  {| NbcStat.moment_info_pos :=
       {| MomentInfo.mass := la.Zeros 1; MomentInfo.sumsq := of_index 0;
          MomentInfo.count := 0 |};
     NbcStat.moment_info_neg :=
       {| MomentInfo.mass := la.Zeros 1; MomentInfo.sumsq := of_index 0;
          MomentInfo.count := 0 |};
     NbcStat.bound_pos := Bound.Init 1;
     NbcStat.bound_neg := Bound.Init 1;
     NbcStat.count_pos := 0;
     NbcStat.count_neg := 0;
     NbcStat.pi_pos := DRange.InitEmptySet;
     NbcStat.pi_neg := DRange.InitEmptySet |}.

Definition leaf (lo hi h : Z) (ps : list (NbcPoint.t D)) : ThorNode.t D :=
  {| ThorNode.bound := [Example.range lo hi];
     ThorNode.stat := accumulate_points (Example.param h h) ps zero_stat |}.

(** The summary of one positive point at [x], as [NbcStat] accumulates
    it. *)
Definition distant (x : Z) : MomentInfo.t D :=
  NbcStat.moment_info_pos
    (accumulate_points (Example.param 2 2) [point x true] zero_stat).

Definition postponed_point (x : Z) : QPostponed.t D :=
  {| QPostponed.moment_info_pos := Example.one_point x;
     QPostponed.moment_info_neg := Example.empty;
     QPostponed.label := LAB_EITHER |}.

Definition result (density_pos density_neg l : Z) : QResult.t D :=
  {| QResult.density_pos := of_index density_pos;
     QResult.density_neg := of_index density_neg;
     QResult.label := l |}.

Definition visitor : PairVisitor.t D :=
  {| PairVisitor.density_pos := of_index 0;
     PairVisitor.density_neg := of_index 0;
     PairVisitor.do_pos := true;
     PairVisitor.do_neg := true |}.
End With_double.
End Sample.

(** ** Proof automation *)

(** Case analysis on the exclusion test of [ConsiderPairIntrinsic]. *)
Ltac split_exclusion :=
  match goal with |- context [if ?c then _ else _] =>
    match c with (_ && _)%bool => destruct c eqn:?Hexcl end end.

(** Exposes rational arithmetic behind the operations of [Double]. *)
Ltac to_Q :=
  cbn [of_index dadd dsub dmul ddiv dneg dlt deq Double_Q] in *;
  change (inject_Z 0) with 0%Q in *;
  change (inject_Z 1) with 1%Q in *;
  change (inject_Z 2) with 2%Q in *.

(** * Properties *)

(** ** Generic facts *)

Lemma positive_count_cases (A : Type) (c : Z) (a b : A) :
  0 <= c -> (if 0 <? c then a else b) = (if c =? 0 then b else a).
Proof.
  intros Hc. destruct (Z.ltb_spec 0 c), (Z.eqb_spec c 0); trivial; lia.
Qed.

Lemma DEBUG_ASSERT_true (cfg : Build) : DEBUG_ASSERT cfg true = Ok tt.
Proof. unfold DEBUG_ASSERT. now destruct (DEBUG cfg). Qed.

Lemma DEBUG_ASSERT_release (cfg : Build) (c : bool) :
  DEBUG cfg = false -> DEBUG_ASSERT cfg c = Ok tt.
Proof. unfold DEBUG_ASSERT. now intros ->. Qed.

Lemma DEBUG_ASSERT_debug (cfg : Build) (c : bool) :
  DEBUG cfg = true ->
  DEBUG_ASSERT cfg c = if c then Ok tt else AssertionFailed.
Proof. unfold DEBUG_ASSERT. now intros ->. Qed.

(** ** ConsiderPairIntrinsic *)

Section Pair_intrinsic.
Context {D : Type} `{Double D}.
Variables (cfg : Build) (param : Param.t D) (q_node r_node : ThorNode.t D).
Variables (delta0 : Delta.t D) (g0 : GlobalResult.t) (qp0 : QPostponed.t D).

Local Abbreviation out :=
  (Algorithm.ConsiderPairIntrinsic cfg param q_node r_node delta0 g0 qp0).

(** The test at the top of the function is the claimed exclusion test. *)
Lemma exclusion_test_agrees :
  0 <= NbcStat.count_pos (ThorNode.stat r_node) ->
  0 <= NbcStat.count_neg (ThorNode.stat r_node) ->
  Algorithm.outcome out = Algorithm.Exclusion
  <-> Claimed.excluded param q_node r_node = true.
Proof.
  intros Hp Hn.
  unfold Algorithm.ConsiderPairIntrinsic, Claimed.excluded,
    Claimed.kernel_upper_bound_pos, Claimed.kernel_upper_bound_neg.
  rewrite !(positive_count_cases _ _ Hp), !(positive_count_cases _ _ Hn).
  split_exclusion.
  - simpl. tauto.
  - destruct (Algorithm.Inclusion_test cfg param q_node r_node); simpl;
      split; intros; discriminate.
Qed.

(** What the Approximate branch stores. *)
Lemma approximate_delta_stored :
  Algorithm.outcome out = Algorithm.Approximate ->
  Algorithm.delta out =
  {| Delta.d_density_pos := DRange.Init (of_index 0) (of_index 0);
     Delta.d_density_neg :=
       DRange.Init (of_index 0)
         (of_index (NbcStat.count_neg (ThorNode.stat r_node))
          * (if (0 <? NbcStat.count_neg (ThorNode.stat r_node))%Z
             then Kernel.EvalUnnormOnSq (Param.kernel_neg param)
                    (Bound.MinDistanceSq
                       (NbcStat.bound_neg (ThorNode.stat r_node))
                       (ThorNode.bound q_node))
             else of_index 0))%dbl |}.
Proof.
  unfold Algorithm.ConsiderPairIntrinsic.
  split_exclusion; [simpl; discriminate|].
  destruct (Algorithm.Inclusion_test cfg param q_node r_node);
    [simpl; discriminate|].
  reflexivity.
Qed.

(** Inclusion, in the build that checks the classes separately, happens
    only when every non-empty class is saturated. *)
Lemma inclusion_per_class :
  CHECK_POS_NEG_BOUNDS cfg = true ->
  Algorithm.outcome out = Algorithm.Inclusion ->
  (0 < NbcStat.count_pos (ThorNode.stat r_node) ->
   Claimed.saturated_pos param q_node r_node = true)
  /\ (0 < NbcStat.count_neg (ThorNode.stat r_node) ->
      Claimed.saturated_neg param q_node r_node = true).
Proof.
  intros Hb.
  unfold Algorithm.ConsiderPairIntrinsic, Algorithm.Inclusion_test.
  rewrite Hb.
  split_exclusion; [simpl; discriminate|].
  match goal with |- context [if ?c then _ else _] =>
    match c with (_ && _)%bool => destruct c eqn:Hinc end end;
    [|simpl; discriminate].
  intros _. apply andb_true_iff in Hinc as [Hpos Hneg].
  apply orb_true_iff in Hpos, Hneg.
  unfold Claimed.saturated_pos, Claimed.saturated_neg.
  split; intros Hc.
  - destruct Hpos as [Hz|]; trivial. apply Z.eqb_eq in Hz. lia.
  - destruct Hneg as [Hz|]; trivial. apply Z.eqb_eq in Hz. lia.
Qed.

(** Inclusion, in the build that checks the node as a whole, compares the
    whole reference Bound with the positive kernel's bandwidth only. *)
Lemma inclusion_combined :
  CHECK_POS_NEG_BOUNDS cfg = false ->
  Algorithm.outcome out = Algorithm.Inclusion ->
  (Bound.MaxDistanceSq (ThorNode.bound r_node) (ThorNode.bound q_node)
   <? Kernel.bandwidth_sq (Param.kernel_pos param))%dbl = true.
Proof.
  intros Hb.
  unfold Algorithm.ConsiderPairIntrinsic, Algorithm.Inclusion_test.
  rewrite Hb.
  split_exclusion; [simpl; discriminate|].
  match goal with |- context [if ?c then _ else _] =>
    match c with (_ <? _)%dbl => destruct c end end;
    [reflexivity|simpl; discriminate].
Qed.

(** The returned [bool] tells Approximate from the two prunes. *)
Lemma returned_iff_approximate :
  Algorithm.returned out = true
  <-> Algorithm.outcome out = Algorithm.Approximate.
Proof.
  unfold Algorithm.ConsiderPairIntrinsic.
  split_exclusion; [simpl; split; discriminate|].
  destruct (Algorithm.Inclusion_test cfg param q_node r_node); simpl;
    split; (discriminate || reflexivity).
Qed.

(** Which outputs each outcome writes. *)
Lemma pair_intrinsic_writes :
  (Algorithm.returned out = false -> Algorithm.delta out = delta0)
  /\ (Algorithm.q_postponed out <> qp0 ->
      Algorithm.outcome out = Algorithm.Inclusion
      /\ Algorithm.returned out = false)
  /\ (Algorithm.returned out = true -> Algorithm.q_postponed out = qp0)
  /\ (Algorithm.outcome out = Algorithm.Exclusion ->
      Algorithm.returned out = false
      /\ Algorithm.delta out = delta0 /\ Algorithm.q_postponed out = qp0)
  /\ Algorithm.global_result out = g0
  /\ (Algorithm.outcome out = Algorithm.Inclusion ->
      QPostponed.label (Algorithm.q_postponed out) = QPostponed.label qp0
      /\ QPostponed.moment_info_pos (Algorithm.q_postponed out)
         = (if 0 <? NbcStat.count_pos (ThorNode.stat r_node)
            then MomentInfo.Add (QPostponed.moment_info_pos qp0)
                   (NbcStat.moment_info_pos (ThorNode.stat r_node))
            else QPostponed.moment_info_pos qp0)
      /\ QPostponed.moment_info_neg (Algorithm.q_postponed out)
         = (if 0 <? NbcStat.count_neg (ThorNode.stat r_node)
            then MomentInfo.Add (QPostponed.moment_info_neg qp0)
                   (NbcStat.moment_info_neg (ThorNode.stat r_node))
            else QPostponed.moment_info_neg qp0)).
Proof.
  unfold Algorithm.ConsiderPairIntrinsic.
  split_exclusion.
  - simpl. repeat split; trivial; intros; try discriminate; congruence.
  - destruct (Algorithm.Inclusion_test cfg param q_node r_node); simpl.
    + repeat split; trivial; intros; try discriminate;
        destruct (0 <? NbcStat.count_pos (ThorNode.stat r_node));
        destruct (0 <? NbcStat.count_neg (ThorNode.stat r_node));
        reflexivity.
    + repeat split; trivial; intros; try discriminate; congruence.
Qed.
End Pair_intrinsic.

(** C9.  [ConsiderPairIntrinsic] writes to [*delta] only when it returns
    [true] (Approximate) and to [*q_postponed] only on the Inclusion path,
    where it returns [false]; on Exclusion it modifies neither, and it never
    modifies [*global_result].  On Inclusion the write to the Postponed is
    the merge of the non-empty classes' MomentInfo, its label being kept.
    The nodes and the parameters are [const] inputs of the function: they
    are read, and no updated copy of them is returned. *)
Theorem C9_pair_intrinsic_frame {D : Type} `{Double D} (cfg : Build)
  (param : Param.t D) (q_node r_node : ThorNode.t D) (delta0 : Delta.t D)
  (g0 : GlobalResult.t) (qp0 : QPostponed.t D) :
  let out :=
    Algorithm.ConsiderPairIntrinsic cfg param q_node r_node delta0 g0 qp0 in
  (Algorithm.returned out = false -> Algorithm.delta out = delta0)
  /\ (Algorithm.q_postponed out <> qp0 ->
      Algorithm.outcome out = Algorithm.Inclusion
      /\ Algorithm.returned out = false)
  /\ (Algorithm.returned out = true -> Algorithm.q_postponed out = qp0)
  /\ (Algorithm.outcome out = Algorithm.Exclusion ->
      Algorithm.returned out = false
      /\ Algorithm.delta out = delta0 /\ Algorithm.q_postponed out = qp0)
  /\ Algorithm.global_result out = g0
  /\ (Algorithm.outcome out = Algorithm.Inclusion ->
      QPostponed.label (Algorithm.q_postponed out) = QPostponed.label qp0
      /\ QPostponed.moment_info_pos (Algorithm.q_postponed out)
         = (if 0 <? NbcStat.count_pos (ThorNode.stat r_node)
            then MomentInfo.Add (QPostponed.moment_info_pos qp0)
                   (NbcStat.moment_info_pos (ThorNode.stat r_node))
            else QPostponed.moment_info_pos qp0)
      /\ QPostponed.moment_info_neg (Algorithm.q_postponed out)
         = (if 0 <? NbcStat.count_neg (ThorNode.stat r_node)
            then MomentInfo.Add (QPostponed.moment_info_neg qp0)
                   (NbcStat.moment_info_neg (ThorNode.stat r_node))
            else QPostponed.moment_info_neg qp0)).
Proof.
  cbv zeta. apply pair_intrinsic_writes.
Qed.

(** C2.  [ConsiderPairIntrinsic] declares Exclusion if and only if both
    classes' upper bounds on the kernel value, taken at the minimum possible
    distance between the class's reference Bound and the query Bound and
    taken as zero for a class without reference points, are zero; the pair
    then contributes nothing: the call returns [false] and has written to
    none of its outputs. *)
Theorem C2_exclusion_iff_bounds_zero {D : Type} `{Double D} (cfg : Build)
  (param : Param.t D) (q_node r_node : ThorNode.t D) (delta0 : Delta.t D)
  (g0 : GlobalResult.t) (qp0 : QPostponed.t D) :
  0 <= NbcStat.count_pos (ThorNode.stat r_node) ->
  0 <= NbcStat.count_neg (ThorNode.stat r_node) ->
  let out :=
    Algorithm.ConsiderPairIntrinsic cfg param q_node r_node delta0 g0 qp0 in
  (Algorithm.outcome out = Algorithm.Exclusion
   <-> ((Claimed.kernel_upper_bound_pos param q_node r_node =? of_index 0)%dbl
        = true
        /\ (Claimed.kernel_upper_bound_neg param q_node r_node =? of_index 0)%dbl
           = true))
  /\ (Algorithm.outcome out = Algorithm.Exclusion ->
      Algorithm.returned out = false
      /\ Algorithm.delta out = delta0
      /\ Algorithm.q_postponed out = qp0
      /\ Algorithm.global_result out = g0).
Proof.
  intros Hp Hn out. split.
  - subst out. rewrite exclusion_test_agrees by assumption.
    unfold Claimed.excluded. apply andb_true_iff.
  - intros Hex.
    destruct (pair_intrinsic_writes cfg param q_node r_node delta0 g0 qp0)
      as (_ & _ & _ & Hframe & Hg & _).
    destruct (Hframe Hex) as (Hr & Hd & Hq). auto.
Qed.

Lemma C2_exclusion_witness :
  0 <= 1 /\ 0 <= 1
  /\ Algorithm.outcome
       (Algorithm.ConsiderPairIntrinsic (D := float) Example.debug_build
          (Example.param 1 1) (Example.node 0 1 0 1)
          (Example.node 10 20 10 20) Example.delta0 GlobalResult.Init
          (Example.postponed LAB_EITHER))
     = Algorithm.Exclusion.
Proof.
  split; [lia|]. split; [lia|].
  apply (C2_exclusion_iff_bounds_zero (D := float) Example.debug_build
           (Example.param 1 1) (Example.node 0 1 0 1)
           (Example.node 10 20 10 20) Example.delta0 GlobalResult.Init
           (Example.postponed LAB_EITHER)).
  - simpl. lia.
  - simpl. lia.
  - split; vm_compute; reflexivity.
Defined.

(** C1 (the code departs from the claim).  Bandwidth 2 for both classes; the
    reference node spans [0,2] with a positive point at 0 and a negative
    point at 2; the query node spans [0,1].  The pair is neither excluded
    nor included, so the call returns [true].  The claimed Delta is
    [0, 1 * 1] for the positive class and [0, 1 * 0.75] for the negative
    class; the stored Delta has the negative interval, but its positive
    interval is [0, 0]: the statement after [Init] assigns 0 to
    [d_density_pos.hi] as well. *)
Theorem C1_positive_delta_dropped :
  let out :=
    Algorithm.ConsiderPairIntrinsic (D := float) Example.debug_build
      (Example.param 2 2) (Example.node 0 1 0 1) (Example.node 0 2 0 2)
      Example.delta0 GlobalResult.Init (Example.postponed LAB_EITHER) in
  Algorithm.returned out = true
  /\ Algorithm.outcome out = Algorithm.Approximate
  /\ Claimed.approximate_delta (Example.param 2 2) (Example.node 0 1 0 1)
       (Example.node 0 2 0 2)
     = {| Delta.d_density_pos := DRange.Init 0%float 1%float;
          Delta.d_density_neg := DRange.Init 0%float 0.75%float |}
  /\ Algorithm.delta out
     = {| Delta.d_density_pos := DRange.Init 0%float 0%float;
          Delta.d_density_neg := DRange.Init 0%float 0.75%float |}.
Proof. vm_compute. repeat split; reflexivity. Qed.

(** C3 (the code departs from the claim).  Bandwidth 10 for the positive
    class and 1 for the negative class; the reference node spans [0,3] with
    a positive point at 0 and a negative point at 3; the query node is the
    point 0.  The negative class is not saturated: the squared distance 9
    between its Bound and the query Bound is not below its squared
    bandwidth 1.  In the build without [CHECK_POS_NEG_BOUNDS] the call
    still declares Inclusion and folds the negative MomentInfo into the
    Postponed, because the whole node is compared with the positive
    bandwidth alone; the build with [CHECK_POS_NEG_BOUNDS] does not. *)
Theorem C3_inclusion_ignores_negative_bandwidth :
  let param := Example.param (D := float) 10 1 in
  let q_node := Example.node 0 0 0 0 in
  let r_node := Example.node 0 3 0 3 in
  let out :=
    Algorithm.ConsiderPairIntrinsic Example.debug_build param q_node r_node
      Example.delta0 GlobalResult.Init (Example.postponed LAB_EITHER) in
  Claimed.saturated_neg param q_node r_node = false
  /\ Algorithm.outcome out = Algorithm.Inclusion
  /\ Algorithm.returned out = false
  /\ QPostponed.moment_info_neg (Algorithm.q_postponed out)
     = {| MomentInfo.mass := [3%float];
          MomentInfo.sumsq := 9%float;
          MomentInfo.count := 1 |}
  /\ Algorithm.outcome
       (Algorithm.ConsiderPairIntrinsic Example.per_class_build param q_node
          r_node Example.delta0 GlobalResult.Init
          (Example.postponed LAB_EITHER))
     = Algorithm.Approximate.
Proof. vm_compute. repeat split; reflexivity. Qed.

(** ** ConsiderQueryTermination *)

Lemma is_class_label_cases (l : Z) :
  is_class_label l ->
  ((l =? LAB_POS) || (l =? LAB_NEG) = true /\ (l =? LAB_EITHER) = false)
  \/ ((l =? LAB_POS) || (l =? LAB_NEG) = false /\ l = LAB_EITHER).
Proof.
  unfold is_class_label, LAB_POS, LAB_NEG, LAB_EITHER.
  intros [-> | [-> | ->]]; simpl; auto.
Qed.

(** C4.  For a summary label that names a class, and when its assertions
    hold or are compiled out, [ConsiderQueryTermination] returns, and it
    stops recursion (returns [false]) in exactly these cases: the summary
    label is narrowed to a single class, which it stores into the
    Postponed; or the label is EITHER and the positive class dominates
    ([const_pos.lo * density_pos.lo * pi_pos.lo >
      const_neg.hi * density_neg.hi * pi_neg.hi]), when it stores POS; or,
    failing that, the negative class dominates by the mirrored inequality,
    when it stores NEG.  In every other case it returns [true] and leaves
    the Postponed alone. *)
Theorem C4_query_termination {D : Type} `{Double D} (cfg : Build)
  (param : Param.t D) (q_node : ThorNode.t D) (s : QSummaryResult.t D)
  (g0 : GlobalResult.t) (qp0 : QPostponed.t D) :
  is_class_label (QSummaryResult.label s) ->
  termination_asserts_pass cfg s qp0 = true ->
  Algorithm.ConsiderQueryTermination cfg param q_node s g0 qp0
  = Ok (Claimed.query_termination param q_node s qp0)
  /\ (fst (Claimed.query_termination param q_node s qp0) = false
      <-> (is_narrowed (QSummaryResult.label s)
           \/ (QSummaryResult.label s = LAB_EITHER
               /\ (Claimed.pos_dominates param q_node s = true
                   \/ Claimed.neg_dominates param q_node s = true)))).
Proof.
  intros Hl Hpass. split.
  - unfold Algorithm.ConsiderQueryTermination, Claimed.query_termination,
      termination_asserts_pass, DEBUG_ASSERT in *.
    fold (Claimed.pos_dominates param q_node s).
    fold (Claimed.neg_dominates param q_node s).
    destruct (is_class_label_cases Hl) as [[Hn He] | [Hn He]].
    + rewrite Hn, He in *. simpl in *.
      destruct (DEBUG cfg); simpl in *; trivial.
      apply andb_true_iff in Hpass as [Hpass ->].
      apply andb_true_iff in Hpass as [-> ->]. reflexivity.
    + rewrite Hn. rewrite He in *. simpl in *.
      destruct (DEBUG cfg); simpl in *.
      * apply andb_true_iff in Hpass as [Hpass _].
        apply andb_true_iff in Hpass as [-> ->]. simpl.
        destruct (Claimed.pos_dominates param q_node s); trivial.
        destruct (Claimed.neg_dominates param q_node s); trivial.
      * destruct (Claimed.pos_dominates param q_node s); trivial.
        destruct (Claimed.neg_dominates param q_node s); trivial.
  - unfold Claimed.query_termination, is_narrowed.
    destruct (is_class_label_cases Hl) as [[Hn He] | [Hn He]].
    + rewrite Hn. simpl. split; trivial. intros _. left.
      apply orb_true_iff in Hn. rewrite !Z.eqb_eq in Hn. exact Hn.
    + rewrite Hn. rewrite He. simpl.
      destruct (Claimed.pos_dominates param q_node s); simpl.
      * split; auto.
      * destruct (Claimed.neg_dominates param q_node s); simpl.
        -- split; auto.
        -- split; [discriminate|].
           unfold LAB_EITHER, LAB_POS, LAB_NEG.
           intros [[?|?] | [_ [?|?]]]; discriminate.
Qed.

Lemma C4_query_termination_witness :
  is_class_label LAB_EITHER
  /\ termination_asserts_pass (D := float) Example.debug_build
       (Example.summary 5 6 0 1 LAB_EITHER) (Example.postponed LAB_EITHER)
     = true
  /\ Algorithm.ConsiderQueryTermination (D := float) Example.debug_build
       (Example.param 1 1) (Example.node 0 1 0 1)
       (Example.summary 5 6 0 1 LAB_EITHER) GlobalResult.Init
       (Example.postponed LAB_EITHER)
     = Ok (false, Example.postponed LAB_POS).
Proof.
  assert (Hl : is_class_label LAB_EITHER) by (right; right; reflexivity).
  assert (Hp : termination_asserts_pass (D := float) Example.debug_build
                 (Example.summary 5 6 0 1 LAB_EITHER)
                 (Example.postponed LAB_EITHER) = true)
    by (vm_compute; reflexivity).
  split; [exact Hl|]. split; [exact Hp|].
  exact (proj1 (C4_query_termination (D := float) Example.debug_build
                  (Example.param 1 1) (Example.node 0 1 0 1)
                  (Example.summary 5 6 0 1 LAB_EITHER) GlobalResult.Init
                  (Example.postponed LAB_EITHER) Hl Hp)).
Defined.

(** ** ComputeKernelSumRange on a non-empty MomentInfo *)

Lemma ComputeKernelSumRange_returns {D : Type} `{Double D} (cfg : Build)
  (param : Param.t D) (m : MomentInfo.t D) (query_bound : Bound.t D) :
  MomentInfo.count m <> 0 ->
  MomentInfo.ComputeKernelSumRange cfg param m query_bound
  = Ok (let center :=
          la.Scale (of_index 1 / of_index (MomentInfo.count m))%dbl
            (MomentInfo.mass m) in
        let center_dot_center :=
          (la.Dot (MomentInfo.mass m) (MomentInfo.mass m)
           / of_index (MomentInfo.count m)
           / of_index (MomentInfo.count m))%dbl in
        {| DRange.lo :=
             MomentInfo.ComputeKernelSum_dist param m
               (Bound.MaxDistanceSq_point query_bound center)
               center_dot_center;
           DRange.hi :=
             MomentInfo.ComputeKernelSum_dist param m
               (Bound.MinDistanceSq_point query_bound center)
               center_dot_center |}).
Proof.
  intros Hc. unfold MomentInfo.ComputeKernelSumRange.
  apply Z.eqb_neq in Hc. rewrite Hc. simpl.
  rewrite DEBUG_ASSERT_true. reflexivity.
Qed.

(** ** QSummaryResult::ApplyPostponed *)

(** C10.  Given a Postponed that carries no information (label EITHER and
    both moment infos empty), [QSummaryResult::ApplyPostponed] leaves the
    summary as it is, and [change_made] is returned without any branch
    having assigned it.  Given a Postponed that carries a narrowed label or
    a non-empty moment info, it returns [true], unless the label it carries
    contradicts the summary's in a build with assertions. *)
Theorem C10_apply_postponed_change_made {D : Type} `{Double D} (cfg : Build)
  (param : Param.t D) (s : QSummaryResult.t D) (postponed : QPostponed.t D)
  (q_node : ThorNode.t D) :
  (QPostponed.label postponed = LAB_EITHER ->
   MomentInfo.count (QPostponed.moment_info_pos postponed) = 0 ->
   MomentInfo.count (QPostponed.moment_info_neg postponed) = 0 ->
   QSummaryResult.ApplyPostponed cfg param s postponed q_node = Ok (s, None))
  /\ (QPostponed.label postponed <> LAB_EITHER
      \/ MomentInfo.count (QPostponed.moment_info_pos postponed) <> 0
      \/ MomentInfo.count (QPostponed.moment_info_neg postponed) <> 0 ->
      DEBUG cfg = false
      \/ QPostponed.label postponed = LAB_EITHER
      \/ Z.land (QSummaryResult.label s) (QPostponed.label postponed)
         <> LAB_NEITHER ->
      exists s',
        QSummaryResult.ApplyPostponed cfg param s postponed q_node
        = Ok (s', Some true)).
Proof.
  split.
  - intros Hl Hp Hn. unfold QSummaryResult.ApplyPostponed, MomentInfo.is_empty.
    rewrite Hl, Hp, Hn. reflexivity.
  - intros Hinfo Hok.
    unfold QSummaryResult.ApplyPostponed, MomentInfo.is_empty.
    set (first := if negb (QPostponed.label postponed =? LAB_EITHER)
                  then _ else _).
    assert (Hfirst :
      exists s1 cm, first = Ok (s1, cm)
        /\ (QPostponed.label postponed <> LAB_EITHER -> cm = Some true)).
    { subst first.
      destruct (Z.eqb_spec (QPostponed.label postponed) LAB_EITHER) as [He|He];
        simpl.
      - eexists _, _. split; [reflexivity|]. intros Hne. now elim Hne.
      - destruct Hok as [Hd | [He' | Hland]]; [ | now elim He | ].
        + rewrite (DEBUG_ASSERT_release _ _ Hd). simpl.
          eexists _, _. split; [reflexivity|trivial].
        + apply Z.eqb_neq in Hland. rewrite Hland. simpl.
          rewrite DEBUG_ASSERT_true. simpl.
          eexists _, _. split; [reflexivity|trivial]. }
    destruct Hfirst as (s1 & cm & -> & Hcm). simpl.
    destruct (Z.eqb_spec
                (MomentInfo.count (QPostponed.moment_info_pos postponed)) 0)
      as [Hp|Hp];
      destruct (Z.eqb_spec
                  (MomentInfo.count (QPostponed.moment_info_neg postponed)) 0)
        as [Hn|Hn]; simpl;
      rewrite ?(ComputeKernelSumRange_returns cfg param _ _ Hp),
        ?(ComputeKernelSumRange_returns cfg param _ _ Hn); simpl;
      try (eexists; reflexivity).
    destruct Hinfo as [Hl | [Hp' | Hn']]; try contradiction.
    rewrite (Hcm Hl). eexists; reflexivity.
Qed.

Lemma C10_apply_postponed_witness :
  QSummaryResult.ApplyPostponed (D := float) Example.debug_build
    (Example.param 1 1) (Example.summary 1 2 0 1 LAB_EITHER)
    (Example.postponed LAB_EITHER) (Example.node 0 1 0 1)
  = Ok (Example.summary 1 2 0 1 LAB_EITHER, None)
  /\ exists s',
       QSummaryResult.ApplyPostponed (D := float) Example.debug_build
         (Example.param 1 1) (Example.summary 1 2 0 1 LAB_EITHER)
         (Example.postponed LAB_POS) (Example.node 0 1 0 1)
       = Ok (s', Some true).
Proof.
  split.
  - apply (C10_apply_postponed_change_made (D := float)); reflexivity.
  - apply (C10_apply_postponed_change_made (D := float)).
    + left. discriminate.
    + right. right. discriminate.
Defined.

(** ** Labels only narrow *)

Lemma land_single_bit (k ev : Z) :
  0 <= k -> Z.land (2 ^ k) ev = 0 \/ Z.land (2 ^ k) ev = 2 ^ k.
Proof.
  intros Hk. destruct (Z.testbit ev k) eqn:E; [right|left];
    apply Z.bits_inj'; intros n Hn;
    rewrite Z.land_spec, Z.pow2_bits_eqb by lia;
    destruct (Z.eqb_spec k n); subst; simpl;
    rewrite ?E, ?Z.bits_0, ?Z.pow2_bits_eqb, ?Z.eqb_refl by lia; trivial.
Qed.

Lemma narrowed_land (l ev : Z) :
  is_narrowed l -> Z.land l ev = LAB_NEITHER \/ Z.land l ev = l.
Proof.
  unfold is_narrowed, LAB_POS, LAB_NEG, LAB_NEITHER. intros [-> | ->].
  - apply (@land_single_bit 0 ev). lia.
  - apply (@land_single_bit 1 ev). lia.
Qed.

Lemma either_within (l : Z) :
  Z.land LAB_EITHER l = LAB_EITHER ->
  Z.land l LAB_POS = LAB_POS /\ Z.land l LAB_NEG = LAB_NEG.
Proof.
  intros Hl. rewrite Z.land_comm in Hl.
  split.
  - change LAB_POS with (Z.land LAB_EITHER LAB_POS) at 1.
    now rewrite Z.land_assoc, Hl.
  - change LAB_NEG with (Z.land LAB_EITHER LAB_NEG) at 1.
    now rewrite Z.land_assoc, Hl.
Qed.

Section Labels.
Context {D : Type} `{Double D}.
Variable cfg : Build.

Lemma started_label (param : Param.t D) (v v0 : PairVisitor.t D)
  (q : NbcPoint.t D) (r_node : ThorNode.t D)
  (unapplied : QSummaryResult.t D) (r r1 : QResult.t D) :
  PairVisitor.StartVisitingQueryPoint cfg param v q r_node unapplied r
  = (true, v0, r1) ->
  QResult.label r = LAB_EITHER /\ QResult.label r1 = LAB_EITHER.
Proof.
  unfold PairVisitor.StartVisitingQueryPoint.
  destruct (Z.eqb_spec (QResult.label r) LAB_EITHER) as [He|He]; simpl;
    [|discriminate].
  repeat match goal with
         | |- context [if ?c then _ else _] => destruct c
         end;
    intros Heq; inversion Heq; subst; simpl; auto.
Qed.

(** What [ConsiderQueryTermination] leaves behind, read off its three
    storing branches: the evidence itself, by assignment. *)
Lemma termination_stores (param : Param.t D) (q_node : ThorNode.t D)
  (s : QSummaryResult.t D) (g0 : GlobalResult.t) (p p' : QPostponed.t D)
  (b : bool) :
  Algorithm.ConsiderQueryTermination cfg param q_node s g0 p = Ok (b, p') ->
  match Narrowing.termination_evidence param q_node s with
  | Some ev =>
      b = false /\ p' = QPostponed.with_label p ev
      /\ (QSummaryResult.label s = LAB_EITHER -> is_narrowed ev)
      /\ (QSummaryResult.label s <> LAB_EITHER ->
          ev = QSummaryResult.label s
          /\ (DEBUG cfg = true ->
              Z.land (QSummaryResult.label s) (QPostponed.label p)
              <> LAB_NEITHER))
  | None => b = true /\ p' = p /\ QSummaryResult.label s = LAB_EITHER
  end.
Proof.
  unfold Algorithm.ConsiderQueryTermination, Narrowing.termination_evidence.
  destruct (DEBUG_ASSERT cfg _); simpl; [|discriminate].
  destruct (DEBUG_ASSERT cfg _); simpl; [|discriminate].
  destruct (Z.eqb_spec (QSummaryResult.label s) LAB_EITHER) as [He|He]; simpl.
  - repeat match goal with
           | |- context [if ?c then _ else _] => destruct c
           end; intros [= <- <-];
      repeat split; trivial; try contradiction;
      intros _; [left|right]; reflexivity.
  - unfold DEBUG_ASSERT. destruct (DEBUG cfg) eqn:Hd.
    + destruct (Z.eqb_spec
                  (Z.land (QSummaryResult.label s) (QPostponed.label p))
                  LAB_NEITHER) as [Hz|Hz]; simpl; [discriminate|].
      intros [= <- <-]. repeat split; trivial. intros He'. contradiction.
    + simpl. intros [= <- <-]. repeat split; trivial.
      * intros He'. contradiction.
      * discriminate.
Qed.

(** When the SummaryResult's label is within the Postponed's, the label
    stored by assignment is the AND that the other operations store. *)
Lemma termination_accounted (param : Param.t D) (q_node : ThorNode.t D)
  (s : QSummaryResult.t D) (g0 : GlobalResult.t) (p p' : QPostponed.t D)
  (b : bool) :
  Algorithm.ConsiderQueryTermination cfg param q_node s g0 p = Ok (b, p') ->
  QPostponed.label p'
  = match Narrowing.termination_evidence param q_node s with
    | Some ev => ev
    | None => QPostponed.label p
    end
  /\ (Z.land (QSummaryResult.label s) (QPostponed.label p)
      = QSummaryResult.label s ->
      QPostponed.label p'
      = Narrowing.narrow (QPostponed.label p)
          (Narrowing.termination_evidence param q_node s))
  /\ (DEBUG cfg = true ->
      Narrowing.termination_evidence param q_node s <> None ->
      QPostponed.label p' <> LAB_NEITHER).
Proof.
  intros Hrun. apply termination_stores in Hrun.
  destruct (Narrowing.termination_evidence param q_node s) as [ev|].
  - destruct Hrun as (_ & -> & Heither & Hother). simpl.
    split; [reflexivity|].
    destruct (Z.eq_dec (QSummaryResult.label s) LAB_EITHER) as [He|He].
    + split.
      * intros Hin. rewrite He in Hin.
        destruct (either_within _ Hin) as [Hp Hn].
        destruct (Heither He) as [-> | ->]; congruence.
      * intros _ _ Hz. destruct (Heither He) as [-> | ->]; discriminate.
    + destruct (Hother He) as [-> Hassert]. split.
      * intros Hin. now rewrite Z.land_comm.
      * intros Hd _ Hz. apply (Hassert Hd). now rewrite Hz.
  - destruct Hrun as (_ & -> & _). simpl.
    split; [reflexivity|]. split; [reflexivity|].
    intros _ Hne. now elim Hne.
Qed.

(** In every build, an operation that ANDs evidence into a label either
    returns with the AND stored, or fails its assertion, which it does
    only with assertions compiled in and the AND being NEITHER. *)
Lemma attempt_and (k : Narrowing.Store) (c : Narrowing.Cell D)
  (e : option Z) (res : Result (Narrowing.Cell D)) :
  Narrowing.Attempt cfg k c e res -> k = Narrowing.ByAnd ->
  match res with
  | Ok c' =>
      Narrowing.label_of c' = Narrowing.narrow (Narrowing.label_of c) e
      /\ (DEBUG cfg = true -> e <> None ->
          Narrowing.label_of c' <> LAB_NEITHER)
  | AssertionFailed =>
      DEBUG cfg = true
      /\ Narrowing.narrow (Narrowing.label_of c) e = LAB_NEITHER
  end.
Proof.
  intros Ha Hk.
  destruct Ha as [param p other | param r postponed q | param r q
                 | param s summary_result | param s postponed q_node
                 | param v q r_node unapplied r v0 r1 rs Hstart v1
                 | param q_node s g0 p]; try discriminate Hk; simpl.
  - unfold QPostponed.ApplyPostponed, DEBUG_ASSERT.
    destruct (DEBUG cfg); simpl; [|split; [trivial|discriminate]].
    destruct (Z.eqb_spec (Z.land (QPostponed.label p) (QPostponed.label other))
                LAB_NEITHER); simpl; auto.
  - unfold QResult.ApplyPostponed, DEBUG_ASSERT.
    destruct (DEBUG cfg); simpl; [|split; [trivial|discriminate]].
    destruct (Z.eqb_spec
                (Z.land (QResult.label r) (QPostponed.label postponed))
                LAB_NEITHER); simpl; auto.
  - unfold QResult.Postprocess, Narrowing.dominance_evidence, DEBUG_ASSERT.
    simpl.
    destruct (DEBUG cfg); simpl;
      repeat match goal with
             | |- context [if dlt ?a ?b then _ else _] => destruct (dlt a b)
             end; simpl; try (split; [trivial|discriminate]);
      match goal with
      | |- context [(?l =? LAB_NEITHER)] =>
          destruct (Z.eqb_spec l LAB_NEITHER)
      end; simpl; auto.
  - unfold QSummaryResult.ApplySummaryResult, DEBUG_ASSERT.
    destruct (DEBUG cfg); simpl; [|split; [trivial|discriminate]].
    destruct (Z.eqb_spec
                (Z.land (QSummaryResult.label s)
                   (QSummaryResult.label summary_result)) LAB_NEITHER);
      simpl; auto.
  - unfold QSummaryResult.ApplyPostponed, MomentInfo.is_empty.
    assert (Hrange : forall m,
               MomentInfo.count m <> 0 ->
               exists rg,
                 MomentInfo.ComputeKernelSumRange cfg param m
                   (ThorNode.bound q_node) = Ok rg).
    { intros m Hm. rewrite (ComputeKernelSumRange_returns cfg param _ _ Hm).
      eexists. reflexivity. }
    destruct (Z.eqb_spec (QPostponed.label postponed) LAB_EITHER) as [He|He];
      simpl.
    + destruct (Z.eqb_spec
                  (MomentInfo.count (QPostponed.moment_info_pos postponed)) 0)
        as [Hp|Hp];
        destruct (Z.eqb_spec
                    (MomentInfo.count (QPostponed.moment_info_neg postponed)) 0)
          as [Hn|Hn]; simpl;
        try (destruct (Hrange _ Hp) as [rp ->]; simpl);
        try (destruct (Hrange _ Hn) as [rn ->]; simpl);
        split; trivial; intros _ Hne; now elim Hne.
    + unfold DEBUG_ASSERT. destruct (DEBUG cfg) eqn:Hd; simpl.
      * destruct (Z.eqb_spec
                    (Z.land (QSummaryResult.label s)
                       (QPostponed.label postponed)) LAB_NEITHER) as [Hz|Hz];
          simpl; [split; trivial|].
        destruct (Z.eqb_spec
                    (MomentInfo.count (QPostponed.moment_info_pos postponed)) 0)
          as [Hp|Hp];
          destruct (Z.eqb_spec
                      (MomentInfo.count (QPostponed.moment_info_neg postponed))
                      0)
            as [Hn|Hn]; simpl;
          try (destruct (Hrange _ Hp) as [rp ->]; simpl);
          try (destruct (Hrange _ Hn) as [rn ->]; simpl); auto.
      * destruct (Z.eqb_spec
                    (MomentInfo.count (QPostponed.moment_info_pos postponed)) 0)
          as [Hp|Hp];
          destruct (Z.eqb_spec
                      (MomentInfo.count (QPostponed.moment_info_neg postponed))
                      0)
            as [Hn|Hn]; simpl;
          try (destruct (Hrange _ Hp) as [rp ->]; simpl);
          try (destruct (Hrange _ Hn) as [rn ->]; simpl);
          split; trivial; discriminate.
  - destruct (started_label _ _ _ _ _ _ Hstart) as [Hr Hr1].
    subst v1. unfold PairVisitor.FinishVisitingQueryPoint,
      Narrowing.dominance_evidence. simpl.
    rewrite Hr, Hr1.
    repeat match goal with
           | |- context [if dlt ?a ?b then _ else _] => destruct (dlt a b)
           end; simpl; split; trivial; try discriminate;
      intros _ Hne; now elim Hne.
Qed.

(** Every operation, the assignment included when it is accounted for,
    returns with the AND stored. *)
Lemma attempt_accounted (k : Narrowing.Store) (c c' : Narrowing.Cell D)
  (e : option Z) :
  Narrowing.Attempt cfg k c e (Ok c') ->
  Narrowing.accounted k (Narrowing.label_of c) ->
  Narrowing.label_of c' = Narrowing.narrow (Narrowing.label_of c) e
  /\ (DEBUG cfg = true -> e <> None -> Narrowing.label_of c' <> LAB_NEITHER).
Proof.
  intros Ha Hacc. destruct k as [|sl].
  - exact (attempt_and Ha eq_refl).
  - remember (Narrowing.ByAssignment sl) as k eqn:Hk.
    remember (Ok c') as res eqn:Hres.
    destruct Ha as [| | | | | | param q_node s g0 p]; try discriminate Hk.
    injection Hk as Hsl. subst sl.
    destruct (Algorithm.ConsiderQueryTermination cfg param q_node s g0 p)
      as [[b p']|] eqn:Hrun; simpl in Hres; [|discriminate].
    injection Hres as <-. simpl in *.
    destruct (termination_accounted _ _ _ _ _ Hrun) as (_ & Hin & Hne).
    split; [now apply Hin | exact Hne].
Qed.

Lemma attempt_assigns (sl : Z) (c c' : Narrowing.Cell D) (e : option Z) :
  Narrowing.Attempt cfg (Narrowing.ByAssignment sl) c e (Ok c') ->
  Narrowing.label_of c'
  = match e with Some ev => ev | None => Narrowing.label_of c end.
Proof.
  intros Ha.
  remember (Narrowing.ByAssignment sl) as k eqn:Hk.
  remember (Ok c') as res eqn:Hres.
  destruct Ha as [| | | | | | param q_node s g0 p]; try discriminate Hk.
  destruct (Algorithm.ConsiderQueryTermination cfg param q_node s g0 p)
    as [[b p']|] eqn:Hrun; simpl in Hres; [|discriminate].
  injection Hres as <-. simpl.
  exact (proj1 (termination_accounted _ _ _ _ _ Hrun)).
Qed.

Lemma attempt_contradiction (c : Narrowing.Cell D) (ev : Z)
  (res : Result (Narrowing.Cell D)) :
  DEBUG cfg = true ->
  Narrowing.Attempt cfg Narrowing.ByAnd c (Some ev) res ->
  Z.land (Narrowing.label_of c) ev = LAB_NEITHER ->
  res = AssertionFailed.
Proof.
  intros debug Ha Hz. apply attempt_and in Ha; [|reflexivity].
  destruct res as [c'|]; trivial.
  destruct Ha as [Hl Hne]. simpl in Hl. rewrite Hz in Hl.
  elim (Hne debug); [discriminate|exact Hl].
Qed.

Lemma attempt_release (c : Narrowing.Cell D) (e : option Z)
  (res : Result (Narrowing.Cell D)) :
  DEBUG cfg = false ->
  Narrowing.Attempt cfg Narrowing.ByAnd c e res ->
  exists c', res = Ok c'
             /\ Narrowing.label_of c'
                = Narrowing.narrow (Narrowing.label_of c) e.
Proof.
  intros Hd Ha. apply attempt_and in Ha; [|reflexivity].
  destruct res as [c'|].
  - exists c'. split; [reflexivity | exact (proj1 Ha)].
  - destruct Ha as [Hd' _]. congruence.
Qed.

Lemma step_keeps_narrowed (c c' : Narrowing.Cell D) :
  DEBUG cfg = true ->
  Narrowing.step cfg c c' ->
  is_narrowed (Narrowing.label_of c) ->
  Narrowing.label_of c' = Narrowing.label_of c.
Proof.
  intros debug (k & e & Ha & Hacc) Hn.
  destruct (attempt_accounted Ha Hacc) as [Hl Hne].
  destruct e as [ev|]; simpl in Hl; trivial.
  destruct (narrowed_land ev Hn) as [Hz|Hk]; [|congruence].
  elim (Hne debug); [discriminate|congruence].
Qed.

Lemma run_keeps_narrowed (c c' : Narrowing.Cell D) :
  DEBUG cfg = true ->
  Narrowing.run cfg c c' ->
  is_narrowed (Narrowing.label_of c) ->
  Narrowing.label_of c' = Narrowing.label_of c.
Proof.
  intros debug. induction 1 as [c | c c1 c2 Hstep _ IH]; trivial.
  intros Hn. pose proof (step_keeps_narrowed debug Hstep Hn) as Heq.
  rewrite <- Heq. apply IH. now rewrite Heq.
Qed.
End Labels.




(** ** ComputeKernelSumRange on an empty MomentInfo *)

(** The traced body computes what [ComputeKernelSumRange] computes. *)
Lemma ComputeKernelSumRange_traced_result {D : Type} `{Double D}
  (cfg : Build) (param : Param.t D) (m : MomentInfo.t D)
  (query_bound : Bound.t D) :
  snd (MomentInfo.ComputeKernelSumRange_traced cfg param m query_bound)
  = MomentInfo.ComputeKernelSumRange cfg param m query_bound.
Proof.
  unfold MomentInfo.ComputeKernelSumRange_traced,
    MomentInfo.ComputeKernelSumRange, MomentInfo.divide_by_count,
    traced_assert, traced_bind, traced_ret. simpl.
  destruct (DEBUG_ASSERT cfg (negb (MomentInfo.count m =? 0))); reflexivity.
Qed.

(** With assertions, an empty MomentInfo has [count] divided into twice
    before the assertion is reached and fails. *)
Lemma empty_range_debug {D : Type} `{Double D} (cfg : Build)
  (param : Param.t D) (m : MomentInfo.t D) (query_bound : Bound.t D) :
  DEBUG cfg = true ->
  MomentInfo.count m = 0 ->
  MomentInfo.ComputeKernelSumRange_traced cfg param m query_bound
  = ([DividedByCount 0; DividedByCount 0; AssertChecked false],
     AssertionFailed).
Proof.
  intros Hd Hc.
  unfold MomentInfo.ComputeKernelSumRange_traced, MomentInfo.divide_by_count,
    traced_assert, traced_bind, traced_ret, DEBUG_ASSERT.
  rewrite Hd, Hc. reflexivity.
Qed.

(** Without assertions, an empty MomentInfo gets an interval back. *)
Lemma empty_range_release {D : Type} `{Double D} (cfg : Build)
  (param : Param.t D) (m : MomentInfo.t D) (query_bound : Bound.t D) :
  DEBUG cfg = false ->
  exists r, MomentInfo.ComputeKernelSumRange cfg param m query_bound = Ok r.
Proof.
  intros Hd. unfold MomentInfo.ComputeKernelSumRange.
  rewrite (DEBUG_ASSERT_release _ _ Hd). simpl. eexists; reflexivity.
Qed.

(** C8, as the code has it.  In a build with assertions, calling
    [ComputeKernelSumRange] on an empty MomentInfo ([count = 0]) fails with
    the assertion [count != 0]: no interval, NaN-carrying or other, is
    returned. *)
Theorem C8_empty_range_asserts {D : Type} `{Double D} (cfg : Build)
  (param : Param.t D) (m : MomentInfo.t D) (query_bound : Bound.t D) :
  DEBUG cfg = true ->
  MomentInfo.count m = 0 ->
  MomentInfo.ComputeKernelSumRange cfg param m query_bound = AssertionFailed.
Proof.
  intros Hd Hc. rewrite <- ComputeKernelSumRange_traced_result.
  now rewrite (empty_range_debug cfg param m query_bound Hd Hc).
Qed.

Lemma C8_empty_range_asserts_witness :
  DEBUG Example.debug_build = true
  /\ MomentInfo.count (Example.empty (D := float)) = 0
  /\ MomentInfo.ComputeKernelSumRange Example.debug_build
       (Example.param 1 1) (Example.empty (D := float)) [Example.range 0 1]
     = AssertionFailed.
Proof.
  split; [reflexivity|]. split; [reflexivity|].
  exact (C8_empty_range_asserts (D := float) Example.debug_build
           (Example.param 1 1) Example.empty [Example.range 0 1]
           eq_refl eq_refl).
Defined.

(** C8, as stated, fails.  On the empty MomentInfo left by [Reset], in
    binary64: with assertions the call fails only after [count] has been
    divided into twice (0/0/0), the guard standing below the division;
    without assertions nothing guards the call, and both ends of the
    interval it returns are NaN. *)
Lemma C8_empty_range_divides_first :
  let m := Example.empty (D := float) in
  let param := Example.param 1 1 in
  let query_bound := [Example.range 0 1] in
  MomentInfo.count m = 0
  /\ MomentInfo.ComputeKernelSumRange_traced Example.debug_build param m
       query_bound
     = ([DividedByCount 0; DividedByCount 0; AssertChecked false],
        AssertionFailed)
  /\ exists r,
       MomentInfo.ComputeKernelSumRange Example.release_build param m
         query_bound = Ok r
       /\ PrimFloat.is_nan (DRange.lo r) = true
       /\ PrimFloat.is_nan (DRange.hi r) = true.
Proof.
  cbv zeta. split; [reflexivity|]. split; [reflexivity|].
  eexists. split; [vm_compute; reflexivity|]. split; reflexivity.
Qed.

(** ** MomentInfo::Add is a commutative, associative merge

    The laws are those of exact addition; they are stated once for any
    carrier whose addition is commutative and associative with [0] as its
    unit, and used at the rationals. *)

Section Merge.
Context {D : Type} `{Double D}.
Local Open Scope dbl_scope.
Hypothesis dadd_comm : forall a b : D, a + b = b + a.
Hypothesis dadd_assoc : forall a b c : D, (a + b) + c = a + (b + c).
Hypothesis dadd_0_l : forall a : D, of_index 0 + a = a.

Lemma AddTo_comm (x y : la.Vector D) : la.AddTo x y = la.AddTo y x.
Proof.
  revert y. induction x as [|a x IH]; intros [|b y]; simpl; trivial.
  now rewrite IH, dadd_comm.
Qed.

Lemma AddTo_assoc (x y z : la.Vector D) :
  la.AddTo z (la.AddTo y x) = la.AddTo (la.AddTo z y) x.
Proof.
  revert y z. induction x as [|a x IH]; intros [|b y] [|c z]; simpl; trivial.
  now rewrite IH, dadd_assoc.
Qed.

Lemma AddTo_length (x y : la.Vector D) (n : nat) :
  length x = n -> length y = n -> length (la.AddTo x y) = n.
Proof.
  revert x y. induction n as [|n IH]; intros [|a x] [|b y]; simpl;
    try discriminate; trivial.
  intros [= Hx] [= Hy]. now rewrite (IH _ _ Hx Hy).
Qed.

Lemma AddTo_zeros (x : la.Vector D) :
  la.AddTo x (repeat (of_index 0) (length x)) = x.
Proof.
  induction x as [|a x IH]; simpl; trivial. now rewrite IH, dadd_0_l.
Qed.

(** Adding an empty summary changes nothing, whatever the target. *)
Lemma Add_empty (t other : MomentInfo.t D) :
  MomentInfo.count other = 0 -> MomentInfo.Add t other = t.
Proof.
  intros Hc. unfold MomentInfo.Add, MomentInfo.Add_parts. now rewrite Hc.
Qed.

(** Adding into an empty summary gives the summary added. *)
Lemma Add_into_empty (n : nat) (t other : MomentInfo.t D) :
  MomentInfo_wf n t -> MomentInfo_wf n other ->
  MomentInfo.count t = 0 -> MomentInfo.Add t other = other.
Proof.
  intros (Ht & _ & Hzero) (Ho & _ & Hozero) Hc.
  destruct (Hzero Hc) as [Hm Hs].
  unfold MomentInfo.Add, MomentInfo.Add_parts.
  destruct (Z.eqb_spec (MomentInfo.count other) 0) as [Hoc|Hoc]; simpl.
  - destruct (Hozero Hoc) as [Hom Hos].
    destruct t, other; simpl in *; congruence.
  - rewrite Hm, Hs, Hc, <- Ho, AddTo_zeros, dadd_0_l.
    now destruct other.
Qed.

Lemma Add_wf (n : nat) (a b : MomentInfo.t D) :
  MomentInfo_wf n a -> MomentInfo_wf n b -> MomentInfo_wf n (MomentInfo.Add a b).
Proof.
  intros Ha Hb. unfold MomentInfo.Add, MomentInfo.Add_parts.
  destruct (Z.eqb_spec (MomentInfo.count b) 0) as [Hc|Hc]; simpl; trivial.
  destruct Ha as (Hla & Hca & _), Hb as (Hlb & Hcb & _).
  split; [|split]; simpl.
  - now apply AddTo_length.
  - lia.
  - intros Hz. exfalso. lia.
Qed.

Lemma Add_comm (n : nat) (a b : MomentInfo.t D) :
  MomentInfo_wf n a -> MomentInfo_wf n b ->
  MomentInfo.Add a b = MomentInfo.Add b a.
Proof.
  intros Ha Hb.
  destruct (Z.eq_dec (MomentInfo.count a) 0) as [Hca|Hca].
  - rewrite (Add_into_empty Ha Hb Hca). now rewrite Add_empty.
  - destruct (Z.eq_dec (MomentInfo.count b) 0) as [Hcb|Hcb].
    + rewrite (Add_into_empty Hb Ha Hcb). now rewrite Add_empty.
    + unfold MomentInfo.Add, MomentInfo.Add_parts.
      apply Z.eqb_neq in Hca, Hcb. rewrite Hca, Hcb. simpl.
      f_equal; [apply AddTo_comm | apply dadd_comm | apply Z.add_comm].
Qed.

Lemma Add_assoc (n : nat) (a b c : MomentInfo.t D) :
  MomentInfo_wf n a -> MomentInfo_wf n b -> MomentInfo_wf n c ->
  MomentInfo.Add (MomentInfo.Add a b) c
  = MomentInfo.Add a (MomentInfo.Add b c).
Proof.
  intros Ha Hb Hc.
  destruct (Z.eq_dec (MomentInfo.count c) 0) as [Hcc|Hcc].
  - now rewrite !(@Add_empty _ c Hcc).
  - destruct (Z.eq_dec (MomentInfo.count b) 0) as [Hcb|Hcb].
    + now rewrite (@Add_empty _ b Hcb), (Add_into_empty Hb Hc Hcb).
    + destruct Hb as (_ & Hb0 & _), Hc as (_ & Hc0 & _).
      unfold MomentInfo.Add, MomentInfo.Add_parts.
      apply Z.eqb_neq in Hcb as Hcb', Hcc as Hcc'. rewrite Hcb', Hcc'. simpl.
      assert (Hsum : (MomentInfo.count b + MomentInfo.count c =? 0)%Z = false)
        by (apply Z.eqb_neq; lia).
      rewrite Hsum. simpl.
      f_equal; [apply AddTo_assoc | apply dadd_assoc | symmetry; apply Z.add_assoc].
Qed.

Lemma Add_swap (n : nat) (t a b : MomentInfo.t D) :
  MomentInfo_wf n t -> MomentInfo_wf n a -> MomentInfo_wf n b ->
  MomentInfo.Add (MomentInfo.Add t a) b
  = MomentInfo.Add (MomentInfo.Add t b) a.
Proof.
  intros Ht Ha Hb.
  now rewrite (Add_assoc Ht Ha Hb), (Add_comm Ha Hb), <- (Add_assoc Ht Hb Ha).
Qed.

Lemma fold_Add_wf (n : nat) (l : list (MomentInfo.t D)) (t : MomentInfo.t D) :
  MomentInfo_wf n t -> Forall (MomentInfo_wf n) l ->
  MomentInfo_wf n (fold_left MomentInfo.Add l t).
Proof.
  revert t. induction l as [|a l IH]; simpl; intros t Ht Hl; trivial.
  inversion Hl; subst. apply IH; trivial. now apply Add_wf.
Qed.

Lemma fold_Add_permutation (n : nat) (l l' : list (MomentInfo.t D)) :
  Permutation l l' ->
  Forall (MomentInfo_wf n) l ->
  forall t, MomentInfo_wf n t ->
            fold_left MomentInfo.Add l t = fold_left MomentInfo.Add l' t.
Proof.
  induction 1 as [| x l l' Hp IH | x y l | l l1 l2 Hp1 IH1 Hp2 IH2];
    intros Hl t Ht; simpl; trivial.
  - inversion Hl; subst. apply IH; trivial. now apply Add_wf.
  - inversion Hl as [|? ? Hy Hl']; subst. inversion Hl' as [|? ? Hx Hl'']; subst.
    now rewrite (Add_swap Ht Hy Hx).
  - rewrite (IH1 Hl t Ht). apply IH2; trivial.
    eapply Permutation_Forall; eassumption.
Qed.

(** The states produced by [Init] and by adding one point are
    well-formed. *)
Lemma Init_wf (cfg : Build) (param : Param.t D) (m : MomentInfo.t D) :
  MomentInfo.Init cfg param = Ok m ->
  MomentInfo_wf (Z.to_nat (Param.dim param)) m.
Proof.
  unfold MomentInfo.Init. destruct (DEBUG_ASSERT cfg _); simpl; [|discriminate].
  intros [= <-]. unfold MomentInfo_wf, la.Zeros. simpl.
  rewrite repeat_length. repeat split; trivial. lia.
Qed.

Lemma Add_parts_wf (n : nat) (m : MomentInfo.t D) (count_in : Z)
  (mass_in : la.Vector D) (sumsq_in : D) :
  MomentInfo_wf n m -> 0 < count_in -> length mass_in = n ->
  MomentInfo_wf n (MomentInfo.Add_parts m count_in mass_in sumsq_in).
Proof.
  intros (Hl & Hc & _) Hin Hlen. unfold MomentInfo.Add_parts.
  destruct (Z.eqb_spec count_in 0); simpl; [lia|].
  split; [|split]; simpl.
  - now apply AddTo_length.
  - lia.
  - intros Hz. exfalso. lia.
Qed.
End Merge.

(** Rational addition satisfies the laws up to equality of the
    representing fractions. *)
Lemma Q_dadd_comm (a b : Q) : (a + b)%dbl = (b + a)%dbl.
Proof.
  destruct a as [an ad], b as [bn bd]. simpl. unfold Qplus. simpl.
  f_equal; [ring | apply Pos.mul_comm].
Qed.

Lemma Q_dadd_assoc (a b c : Q) : ((a + b) + c)%dbl = (a + (b + c))%dbl.
Proof.
  destruct a as [an ad], b as [bn bd], c as [cn cd]. simpl. unfold Qplus.
  simpl. f_equal.
  - rewrite !Pos2Z.inj_mul. ring.
  - symmetry. apply Pos.mul_assoc.
Qed.

Lemma Q_dadd_0_l (a : Q) : (of_index 0 + a)%dbl = a.
Proof.
  destruct a as [an ad]. simpl. unfold Qplus. simpl.
  f_equal. apply Z.mul_1_r.
Qed.

(** C7.  Over exact arithmetic, and for well-formed summaries of one
    dimension [n], [MomentInfo::Add] is commutative and associative, it
    keeps summaries well-formed, and merging a collection into a target
    gives the same [{count, mass, sumsq}] in whatever order the collection
    is taken; adding an empty MomentInfo ([count = 0]) leaves the target's
    count, mass and sumsq unchanged. *)
Theorem C7_moment_merge_order_independent (n : nat) :
  (forall a b : MomentInfo.t Q,
      MomentInfo_wf n a -> MomentInfo_wf n b ->
      MomentInfo.Add a b = MomentInfo.Add b a)
  /\ (forall a b c : MomentInfo.t Q,
         MomentInfo_wf n a -> MomentInfo_wf n b -> MomentInfo_wf n c ->
         MomentInfo.Add (MomentInfo.Add a b) c
         = MomentInfo.Add a (MomentInfo.Add b c))
  /\ (forall a b : MomentInfo.t Q,
         MomentInfo_wf n a -> MomentInfo_wf n b ->
         MomentInfo_wf n (MomentInfo.Add a b))
  /\ (forall (t : MomentInfo.t Q) (l l' : list (MomentInfo.t Q)),
         MomentInfo_wf n t -> Forall (MomentInfo_wf n) l ->
         Permutation l l' ->
         fold_left MomentInfo.Add l t = fold_left MomentInfo.Add l' t)
  /\ (forall t other : MomentInfo.t Q,
         MomentInfo.count other = 0 -> MomentInfo.Add t other = t).
Proof.
  split; [|split; [|split; [|split]]].
  - intros a b. apply (Add_comm Q_dadd_comm Q_dadd_0_l).
  - intros a b c. apply (Add_assoc Q_dadd_assoc Q_dadd_0_l).
  - intros a b. apply Add_wf.
  - intros t l l' Ht Hl Hp.
    now apply (fold_Add_permutation Q_dadd_comm Q_dadd_assoc Q_dadd_0_l
                 (n := n) Hp).
  - intros t other. apply Add_empty.
Qed.

Lemma Example_one_point_wf (x : Z) :
  MomentInfo_wf (D := Q) 1 (Example.one_point x).
Proof.
  unfold MomentInfo_wf. simpl. split; [reflexivity|]. split; [lia|].
  intros Hz. discriminate.
Qed.

Lemma C7_merge_witness :
  MomentInfo_wf (D := Q) 1 (Example.one_point 1)
  /\ Forall (MomentInfo_wf (D := Q) 1)
       [Example.one_point 2; Example.one_point 3; Example.one_point 4]
  /\ Permutation
       [Example.one_point (D := Q) 2; Example.one_point 3; Example.one_point 4]
       [Example.one_point 4; Example.one_point 2; Example.one_point 3]
  /\ fold_left MomentInfo.Add
       [Example.one_point (D := Q) 2; Example.one_point 3; Example.one_point 4]
       (Example.one_point 1)
     = fold_left MomentInfo.Add
         [Example.one_point 4; Example.one_point 2; Example.one_point 3]
         (Example.one_point 1).
Proof.
  assert (Hl : Forall (MomentInfo_wf (D := Q) 1)
                 [Example.one_point 2; Example.one_point 3;
                  Example.one_point 4])
    by (repeat (apply Forall_cons; [apply Example_one_point_wf|]);
        apply Forall_nil).
  assert (Hp : Permutation
                 [Example.one_point (D := Q) 2; Example.one_point 3;
                  Example.one_point 4]
                 [Example.one_point 4; Example.one_point 2;
                  Example.one_point 3]).
  { apply Permutation_sym.
    apply (Permutation_cons_app [_; _] [] _ (Permutation_refl _)). }
  split; [apply Example_one_point_wf|]. split; [exact Hl|].
  split; [exact Hp|].
  exact (proj1 (proj2 (proj2 (proj2 (C7_moment_merge_order_independent 1))))
           _ _ _ (Example_one_point_wf 1) Hl Hp).
Defined.

(** C7, as stated, fails in binary64, where addition rounds.  Three
    well-formed summaries of one point each, the points [2^53], [1] and
    [1], are merged into the empty summary: taken in this order the mass
    ends as [2^53], each [+ 1] being rounded away; with [2^53] last it
    ends as [2^53 + 2].  The same summaries show that [Add] is not
    associative there. *)
Lemma C7_binary64_order_matters :
  let a := point_moment (D := float) [of_index 9007199254740992] in
  let b := point_moment (D := float) [of_index 1] in
  Forall (MomentInfo_wf 1) [a; b; b]
  /\ MomentInfo_wf 1 (Example.empty (D := float))
  /\ Permutation [a; b; b] [b; b; a]
  /\ MomentInfo.mass (fold_left MomentInfo.Add [a; b; b] Example.empty)
     = [of_index 9007199254740992]
  /\ MomentInfo.mass (fold_left MomentInfo.Add [b; b; a] Example.empty)
     = [of_index 9007199254740994]
  /\ MomentInfo.mass (MomentInfo.Add (MomentInfo.Add a b) b)
     = [of_index 9007199254740992]
  /\ MomentInfo.mass (MomentInfo.Add a (MomentInfo.Add b b))
     = [of_index 9007199254740994]
  /\ (of_index (D := float) 9007199254740992 =? of_index 9007199254740994)%dbl
     = false.
Proof.
  cbv zeta.
  assert (Hwf : forall p : la.Vector float,
             length p = 1%nat -> MomentInfo_wf 1 (point_moment p)).
  { intros p Hp. unfold MomentInfo_wf, point_moment. cbn.
    split; [exact Hp|]. split; [lia|]. discriminate. }
  split.
  { repeat (apply Forall_cons; [apply Hwf; reflexivity|]). apply Forall_nil. }
  split.
  { unfold MomentInfo_wf. cbn. split; [reflexivity|]. split; [lia|].
    intros _. split; reflexivity. }
  split.
  { apply (Permutation_cons_append [_; _]). }
  repeat split; vm_compute; reflexivity.
Qed.

(** ** The kernel-sum range contains the exact kernel sum

    Exact rational arithmetic. *)

Section Exact.
Local Open Scope Q_scope.

Lemma Q_dlt_spec (a b : Q) : BoolSpec (a < b) (b <= a) (dlt a b).
Proof.
  to_Q. destruct (Qcompare a b) eqn:E; constructor.
  - apply Qeq_alt in E. rewrite E. apply Qle_refl.
  - now apply Qlt_alt.
  - apply Qgt_alt in E. now apply Qlt_le_weak.
Qed.

Lemma Dot_Scale_r (s : Q) (q m : la.Vector Q) :
  la.Dot q (la.Scale s m) == s * la.Dot q m.
Proof.
  revert m. induction q as [|a q IH]; intros [|b m];
    cbn [la.Dot la.Scale map]; try fold (la.Scale s m); to_Q; try ring.
  rewrite IH. ring.
Qed.

Lemma Dot_Scale_Scale (s : Q) (m : la.Vector Q) :
  la.Dot (la.Scale s m) (la.Scale s m) == s * s * la.Dot m m.
Proof.
  induction m as [|b m IH]; cbn [la.Dot la.Scale map];
    try fold (la.Scale s m); to_Q; try ring.
  rewrite IH. ring.
Qed.

Lemma DistanceSq_expand (q x : la.Vector Q) :
  length q = length x ->
  la.DistanceSqEuclidean q x
  == la.Dot q q - 2 * la.Dot q x + la.Dot x x.
Proof.
  revert x. induction q as [|a q IH]; intros [|b x]; try discriminate;
    cbn [la.Dot la.DistanceSqEuclidean]; to_Q; intros Hlen.
  - ring.
  - injection Hlen as Hlen. rewrite (IH _ Hlen). ring.
Qed.

Lemma Q_square_nonneg (u : Q) : 0 * 0 <= u * u.
Proof.
  destruct (Qlt_le_dec u 0) as [Hneg|Hpos].
  - assert (H3 : 0 <= (- u) * (- u)) by (apply Qmult_le_0_compat; lra). lra.
  - assert (H3 : 0 <= u * u) by (apply Qmult_le_0_compat; lra). lra.
Qed.

Lemma Q_square_le_abs (u R : Q) : - R <= u -> u <= R -> u * u <= R * R.
Proof.
  intros H1 H2.
  assert (H3 : 0 <= (R - u) * (R + u)) by (apply Qmult_le_0_compat; lra).
  lra.
Qed.

Lemma Q_square_ge_abs (u g : Q) :
  0 <= g -> (g <= u \/ g <= - u) -> g * g <= u * u.
Proof.
  intros H0 [H1|H1].
  - assert (H3 : 0 <= (u - g) * (u + g)) by (apply Qmult_le_0_compat; lra).
    lra.
  - assert (H3 : 0 <= (- u - g) * (- u + g)) by (apply Qmult_le_0_compat; lra).
    lra.
Qed.

Lemma point_between (r : DRange.t Q) (x p : Q) :
  negb (dlt x (DRange.lo r)) && negb (dlt (DRange.hi r) x) = true ->
  Bound.gap_point r p * Bound.gap_point r p <= (x - p) * (x - p)
  /\ (x - p) * (x - p) <= Bound.reach_point r p * Bound.reach_point r p.
Proof.
  intros Hin. apply andb_true_iff in Hin as [Hlo Hhi].
  apply negb_true_iff in Hlo, Hhi.
  destruct (Q_dlt_spec x (DRange.lo r)) as [|Hlo']; [discriminate|].
  destruct (Q_dlt_spec (DRange.hi r) x) as [|Hhi']; [discriminate|].
  unfold Bound.gap_point, Bound.reach_point, dmax.
  destruct (Q_dlt_spec p (DRange.lo r));
    destruct (Q_dlt_spec (DRange.hi r) p);
    destruct (Q_dlt_spec (dsub p (DRange.lo r)) (dsub (DRange.hi r) p));
    to_Q;
    (split;
     [first [ apply Q_square_ge_abs; [lra | (left; lra) || (right; lra)]
            | apply Q_square_nonneg ]
     | apply Q_square_le_abs; lra]).
Qed.

Lemma distance_within_bound (b : Bound.t Q) (q x : la.Vector Q) :
  Bound.Contains b q = true ->
  length b = length q -> length q = length x ->
  Bound.MinDistanceSq_point b x <= la.DistanceSqEuclidean q x
  /\ la.DistanceSqEuclidean q x <= Bound.MaxDistanceSq_point b x.
Proof.
  revert q x. induction b as [|r b IH]; intros [|a q] [|p x];
    try discriminate;
    cbn [Bound.Contains Bound.MinDistanceSq_point Bound.MaxDistanceSq_point
           la.DistanceSqEuclidean]; intros Hin Hb Hq.
  - to_Q. split; apply Qle_refl.
  - apply andb_true_iff in Hin as [Hhere Hrest].
    injection Hb as Hb. injection Hq as Hq.
    destruct (IH _ _ Hrest Hb Hq) as [IHmin IHmax].
    destruct (point_between r a p Hhere) as [Hmin Hmax].
    to_Q. split; lra.
Qed.

Lemma index_positive (c : Z) : (0 < c)%Z -> 0 < inject_Z c.
Proof. intros Hc. change 0 with (inject_Z 0). now rewrite <- Zlt_Qlt. Qed.

(** The exact kernel sum is the closed form taken at the squared distance
    between the query point and the centroid. *)
Lemma kernel_sum_closed_form (param : Param.t Q) (m : MomentInfo.t Q)
  (q : la.Vector Q) :
  (0 < MomentInfo.count m)%Z ->
  length (MomentInfo.mass m) = length q ->
  MomentInfo.ComputeKernelSum param m q
  == MomentInfo.ComputeKernelSum_dist param m
       (la.DistanceSqEuclidean q (centroid m)) (centroid_norm_sq m).
Proof.
  intros Hc Hlen. pose proof (index_positive Hc) as Hpos.
  unfold MomentInfo.ComputeKernelSum, MomentInfo.ComputeKernelSum_dist,
    centroid, centroid_norm_sq.
  rewrite DistanceSq_expand
    by (unfold la.Scale; rewrite length_map; congruence).
  rewrite Dot_Scale_r, Dot_Scale_Scale. to_Q. field. lra.
Qed.

(** Every kernel built by [Init] has a non-negative inverse squared
    bandwidth. *)
Lemma Init_inv_bandwidth_sq_nonneg (h : Q) :
  0 <= Kernel.inv_bandwidth_sq (Kernel.Init h).
Proof.
  unfold Kernel.Init. cbn [Kernel.inv_bandwidth_sq]. to_Q.
  pose proof (Q_square_nonneg h) as Hsq.
  assert (Hh : 0 <= h * h) by lra.
  apply Qinv_le_0_compat in Hh. unfold Qdiv. lra.
Qed.

(** The closed form does not increase with the distance. *)
Lemma closed_form_antitone (param : Param.t Q) (m : MomentInfo.t Q)
  (d1 d2 cc : Q) :
  (0 <= MomentInfo.count m)%Z ->
  0 <= Kernel.inv_bandwidth_sq (Param.kernel param) ->
  d1 <= d2 ->
  MomentInfo.ComputeKernelSum_dist param m d2 cc
  <= MomentInfo.ComputeKernelSum_dist param m d1 cc.
Proof.
  intros Hc Hk Hd.
  assert (Hpos : 0 <= inject_Z (MomentInfo.count m))
    by (change 0 with (inject_Z 0); now rewrite <- Zle_Qle).
  unfold MomentInfo.ComputeKernelSum_dist. to_Q.
  assert (H1 : 0 <= (d2 - d1) * inject_Z (MomentInfo.count m))
    by (apply Qmult_le_0_compat; lra).
  assert (H2 : 0 <= (d2 - d1) * inject_Z (MomentInfo.count m)
                    * Kernel.inv_bandwidth_sq (Param.kernel param))
    by (apply Qmult_le_0_compat; trivial).
  lra.
Qed.

Lemma triple_product_mono (a1 a2 b1 b2 c1 c2 : Q) :
  0 <= a1 -> a1 <= a2 -> 0 <= b1 -> b1 <= b2 -> 0 <= c1 -> c1 <= c2 ->
  a1 * b1 * c1 <= a2 * b2 * c2.
Proof.
  intros.
  assert (0 <= a1 * b1) by (apply Qmult_le_0_compat; trivial).
  assert (a1 * b1 <= a2 * b2).
  { apply Qle_trans with (a1 * b2).
    - assert (0 <= a1 * (b2 - b1)) by (apply Qmult_le_0_compat; lra). lra.
    - assert (0 <= (a2 - a1) * b2) by (apply Qmult_le_0_compat; lra). lra. }
  apply Qle_trans with (a1 * b1 * c2).
  - assert (0 <= a1 * b1 * (c2 - c1)) by (apply Qmult_le_0_compat; lra). lra.
  - assert (0 <= (a2 * b2 - a1 * b1) * c2) by (apply Qmult_le_0_compat; lra). lra.
Qed.

(** Over well-formed intervals the two dominance tests cannot both hold,
    so the order in which [ConsiderQueryTermination] tries them does not
    matter. *)
Lemma dominance_exclusive (param : Param.t Q) (q_node : ThorNode.t Q)
  (s : QSummaryResult.t Q) :
  range_ok (Param.const_pos param) -> range_ok (Param.const_neg param) ->
  range_ok (QSummaryResult.density_pos s) ->
  range_ok (QSummaryResult.density_neg s) ->
  range_ok (NbcStat.pi_pos (ThorNode.stat q_node)) ->
  range_ok (NbcStat.pi_neg (ThorNode.stat q_node)) ->
  Claimed.pos_dominates param q_node s = true ->
  Claimed.neg_dominates param q_node s = false.
Proof.
  unfold range_ok, Claimed.pos_dominates, Claimed.neg_dominates.
  intros [Hc1 Hc2] [Hc3 Hc4] [Hd1 Hd2] [Hd3 Hd4] [Hp1 Hp2] [Hp3 Hp4].
  match goal with |- context [dlt ?a ?b] =>
    destruct (Q_dlt_spec a b) as [Hp|]; [|discriminate] end.
  intros _.
  match goal with |- context [dlt ?a ?b] =>
    destruct (Q_dlt_spec a b) as [Hn|]; [|reflexivity] end.
  exfalso. to_Q.
  pose proof (triple_product_mono Hc1 Hc2 Hd1 Hd2 Hp1 Hp2).
  pose proof (triple_product_mono Hc3 Hc4 Hd3 Hd4 Hp3 Hp4).
  lra.
Qed.
End Exact.


(** C5.  Over exact arithmetic: for every MomentInfo with [count > 0],
    every query Bound and every query point [q] inside that Bound (all of
    one dimension), and a kernel whose inverse squared bandwidth is not
    negative, [ComputeKernelSumRange] returns an interval [[lo, hi]] that
    contains the exact value [ComputeKernelSum(param, q)]; [lo] is the
    closed form at the maximum, [hi] the closed form at the minimum
    possible squared distance between the query Bound and the centroid
    [mass / count]. *)
Theorem C5_kernel_sum_within_range (cfg : Build) (param : Param.t Q)
  (m : MomentInfo.t Q) (query_bound : Bound.t Q) (q : la.Vector Q) :
  0 < MomentInfo.count m ->
  length (MomentInfo.mass m) = length q ->
  length query_bound = length q ->
  Bound.Contains query_bound q = true ->
  (0 <= Kernel.inv_bandwidth_sq (Param.kernel param))%Q ->
  exists r : DRange.t Q,
    MomentInfo.ComputeKernelSumRange cfg param m query_bound = Ok r
    /\ (DRange.lo r <= MomentInfo.ComputeKernelSum param m q)%Q
    /\ (MomentInfo.ComputeKernelSum param m q <= DRange.hi r)%Q
    /\ DRange.lo r
       = MomentInfo.ComputeKernelSum_dist param m
           (Bound.MaxDistanceSq_point query_bound (centroid m))
           (centroid_norm_sq m)
    /\ DRange.hi r
       = MomentInfo.ComputeKernelSum_dist param m
           (Bound.MinDistanceSq_point query_bound (centroid m))
           (centroid_norm_sq m).
Proof.
  intros Hc Hm Hb Hin Hk.
  rewrite ComputeKernelSumRange_returns by lia. eexists. split; [reflexivity|].
  cbv zeta. cbn [DRange.lo DRange.hi].
  fold (centroid m). fold (centroid_norm_sq m).
  rewrite (kernel_sum_closed_form param m q Hc Hm).
  destruct (@distance_within_bound query_bound q (centroid m) Hin Hb)
    as [Hmin Hmax].
  { unfold centroid, la.Scale. rewrite length_map. congruence. }
  split; [|split; [|split; reflexivity]];
    apply closed_form_antitone; trivial; lia.
Qed.

Lemma C5_kernel_sum_witness :
  0 < MomentInfo.count (Example.one_point (D := Q) 1)
  /\ Bound.Contains [Example.range (D := Q) 0 1] [1 # 2]%Q = true
  /\ (0 <= Kernel.inv_bandwidth_sq
             (Param.kernel (Example.param (D := Q) 2 2)))%Q
  /\ exists r : DRange.t Q,
       MomentInfo.ComputeKernelSumRange Example.debug_build
         (Example.param 2 2) (Example.one_point 1) [Example.range 0 1]
       = Ok r
       /\ (DRange.lo r
           <= MomentInfo.ComputeKernelSum (Example.param 2 2)
                (Example.one_point 1) [1 # 2]%Q)%Q
       /\ (MomentInfo.ComputeKernelSum (Example.param 2 2)
             (Example.one_point 1) [1 # 2]%Q
           <= DRange.hi r)%Q.
Proof.
  assert (Hc : 0 < MomentInfo.count (Example.one_point (D := Q) 1))
    by (simpl; lia).
  assert (Hin : Bound.Contains [Example.range (D := Q) 0 1] [1 # 2]%Q = true)
    by reflexivity.
  assert (Hk : (0 <= Kernel.inv_bandwidth_sq
                       (Param.kernel (Example.param (D := Q) 2 2)))%Q)
    by (vm_compute; discriminate).
  split; [exact Hc|]. split; [exact Hin|]. split; [exact Hk|].
  destruct (C5_kernel_sum_within_range Example.debug_build
              (Example.param 2 2) (Example.one_point 1)
              [Example.range 0 1] [1 # 2]%Q Hc eq_refl eq_refl Hin Hk)
    as (r & Hr & Hlo & Hhi & _).
  exists r. auto.
Defined.

(** C5, as stated, fails in binary64, where the closed forms round.  One
    point at [2^27 + 2] is summarized, as [NbcStat] accumulates it; the
    query Bound is the single point [2^27 + 1] and the bandwidth is 2.
    [ComputeKernelSumRange] returns [[1, 1]], and [ComputeKernelSum] at
    the query point, which the Bound contains, returns 0, below [lo]; the
    kernel at their squared distance 1 is 3/4. *)
Lemma C5_binary64_sum_outside_range :
  let m := Sample.distant (D := float) 134217730 in
  let param := Example.param (D := float) 2 2 in
  let query_bound := [Example.range (D := float) 134217729 134217729] in
  let q := [of_index (D := float) 134217729] in
  0 < MomentInfo.count m
  /\ length (MomentInfo.mass m) = length q
  /\ length query_bound = length q
  /\ Bound.Contains query_bound q = true
  /\ (Kernel.inv_bandwidth_sq (Param.kernel param) <? of_index 0)%dbl = false
  /\ MomentInfo.ComputeKernelSumRange Example.debug_build param m query_bound
     = Ok (DRange.Init (of_index 1) (of_index 1))
  /\ MomentInfo.ComputeKernelSum param m q = of_index 0
  /\ (MomentInfo.ComputeKernelSum param m q <? of_index 1)%dbl = true
  /\ Kernel.EvalUnnormOnSq (Param.kernel param)
       (la.DistanceSqEuclidean q [of_index 134217730])
     = (of_index 3 / of_index 4)%dbl.
Proof. cbv zeta. repeat split; vm_compute; reflexivity. Qed.

(** * Further properties *)

(** ** GlobalResult *)

Lemma ApplyResult_counts {D : Type} (g : GlobalResult.t) (r : QResult.t D) :
  GlobalResult.ApplyResult g r
  = {| GlobalResult.count_pos :=
         GlobalResult.count_pos g + count_label LAB_POS [r];
       GlobalResult.count_unknown :=
         GlobalResult.count_unknown g + count_label LAB_EITHER [r] |}.
Proof.
  unfold GlobalResult.ApplyResult, count_label. simpl.
  destruct (Z.eqb_spec (QResult.label r) LAB_POS) as [Hp|Hp].
  - rewrite Hp. simpl. destruct g; simpl. f_equal; lia.
  - destruct (Z.eqb_spec (QResult.label r) LAB_EITHER); simpl;
      destruct g; simpl; f_equal; lia.
Qed.

Lemma count_label_app {D : Type} (l : Z) (rs rs' : list (QResult.t D)) :
  count_label l (rs ++ rs') = count_label l rs + count_label l rs'.
Proof.
  unfold count_label. rewrite filter_app, length_app. lia.
Qed.

Lemma count_label_cons {D : Type} (l : Z) (r : QResult.t D)
  (rs : list (QResult.t D)) :
  count_label l (r :: rs) = count_label l [r] + count_label l rs.
Proof. apply (count_label_app l [r] rs). Qed.

Lemma tally_counts {D : Type} (rs : list (QResult.t D)) (g : GlobalResult.t) :
  tally rs g
  = {| GlobalResult.count_pos :=
         GlobalResult.count_pos g + count_label LAB_POS rs;
       GlobalResult.count_unknown :=
         GlobalResult.count_unknown g + count_label LAB_EITHER rs |}.
Proof.
  revert g. induction rs as [|r rs IH]; intros g.
  - unfold tally, count_label. simpl. destruct g; simpl. f_equal; lia.
  - unfold tally in *. simpl. rewrite IH, ApplyResult_counts.
    rewrite (count_label_cons LAB_POS r rs),
      (count_label_cons LAB_EITHER r rs). simpl. f_equal; lia.
Qed.

Lemma count_labels_bounded {D : Type} (rs : list (QResult.t D)) :
  count_label LAB_POS rs + count_label LAB_EITHER rs <= Z.of_nat (length rs).
Proof.
  induction rs as [|r rs IH]; [unfold count_label; simpl; lia|].
  rewrite (count_label_cons LAB_POS), (count_label_cons LAB_EITHER).
  assert (Hone : count_label LAB_POS [r] + count_label LAB_EITHER [r] <= 1).
  { unfold count_label. cbn [filter].
    destruct (Z.eqb_spec (QResult.label r) LAB_POS) as [Hp|Hp];
      destruct (Z.eqb_spec (QResult.label r) LAB_EITHER) as [He|He];
      simpl; try lia.
    rewrite Hp in He. discriminate. }
  cbn [length]. lia.
Qed.

(** X1.  Applying the results of a run to a [GlobalResult] adds to
    [count_pos] the number of results labelled POS and to [count_unknown]
    the number labelled EITHER, and nothing else: results labelled NEG (or
    NEITHER) are counted nowhere, so the two counters never add up to more
    than the number of results applied. *)
Theorem GlobalResult_tally_counts {D : Type} (rs : list (QResult.t D))
  (g : GlobalResult.t) :
  tally rs g
  = {| GlobalResult.count_pos :=
         GlobalResult.count_pos g + count_label LAB_POS rs;
       GlobalResult.count_unknown :=
         GlobalResult.count_unknown g + count_label LAB_EITHER rs |}
  /\ GlobalResult.count_pos (tally rs GlobalResult.Init)
     + GlobalResult.count_unknown (tally rs GlobalResult.Init)
     <= Z.of_nat (length rs).
Proof.
  split; [apply tally_counts|].
  rewrite tally_counts. simpl. apply count_labels_bounded.
Qed.

(** X2.  [GlobalResult::Accumulate] is commutative and associative with the
    value of [Init] as its unit, and it merges tallies: the tally of two
    batches of results taken together is the [Accumulate] of their
    tallies. *)
Theorem GlobalResult_Accumulate_merges {D : Type} :
  (forall a b, GlobalResult.Accumulate a b = GlobalResult.Accumulate b a)
  /\ (forall a b c,
         GlobalResult.Accumulate (GlobalResult.Accumulate a b) c
         = GlobalResult.Accumulate a (GlobalResult.Accumulate b c))
  /\ (forall a, GlobalResult.Accumulate a GlobalResult.Init = a)
  /\ (forall rs rs' : list (QResult.t D),
         tally (rs ++ rs') GlobalResult.Init
         = GlobalResult.Accumulate (tally rs GlobalResult.Init)
             (tally rs' GlobalResult.Init)).
Proof.
  unfold GlobalResult.Accumulate. repeat split.
  - intros a b. f_equal; lia.
  - intros a b c. simpl. f_equal; lia.
  - intros [p u]. simpl. f_equal; lia.
  - intros rs rs'. rewrite !tally_counts. simpl.
    rewrite !count_label_app. f_equal; lia.
Qed.

(** ** QResult::Postprocess *)

Lemma land_idem_r (l k : Z) : Z.land (Z.land l k) k = Z.land l k.
Proof. now rewrite <- Z.land_assoc, Z.land_diag. Qed.

(** X3.  [QResult::Postprocess] leaves the densities alone, and it is
    idempotent: post-processing a result that has been post-processed
    returns it unchanged. *)
Theorem QResult_Postprocess_idempotent {D : Type} `{Double D} (cfg : Build)
  (param : Param.t D) (r r' : QResult.t D) (q : NbcPoint.t D) :
  QResult.Postprocess cfg param r q = Ok r' ->
  QResult.density_pos r' = QResult.density_pos r
  /\ QResult.density_neg r' = QResult.density_neg r
  /\ QResult.Postprocess cfg param r' q = Ok r'.
Proof.
  unfold QResult.Postprocess.
  set (pos := dlt _ _). set (neg := dlt _ _).
  destruct (DEBUG_ASSERT cfg _) eqn:Hassert; simpl; [|discriminate].
  intros [= <-]. cbn [QResult.with_label QResult.density_pos
                        QResult.density_neg QResult.label].
  fold pos. fold neg. split; [reflexivity|]. split; [reflexivity|].
  assert (Hsame :
    (if pos then Z.land (if pos then Z.land (QResult.label r) LAB_POS
                         else if neg then Z.land (QResult.label r) LAB_NEG
                         else QResult.label r) LAB_POS
     else if neg then Z.land (if pos then Z.land (QResult.label r) LAB_POS
                              else if neg then Z.land (QResult.label r) LAB_NEG
                              else QResult.label r) LAB_NEG
     else (if pos then Z.land (QResult.label r) LAB_POS
           else if neg then Z.land (QResult.label r) LAB_NEG
           else QResult.label r))
    = (if pos then Z.land (QResult.label r) LAB_POS
       else if neg then Z.land (QResult.label r) LAB_NEG
       else QResult.label r)).
  { destruct pos, neg; try reflexivity; apply land_idem_r. }
  rewrite Hsame, Hassert. reflexivity.
Qed.


(** ** NbcStat *)

Section Stat.
Context {D : Type} `{Double D} `{Limits D}.

Lemma zero_state_wf (n : nat) :
  MomentInfo_wf n
    {| MomentInfo.mass := repeat (of_index 0) n;
       MomentInfo.sumsq := of_index 0;
       MomentInfo.count := 0 |}.
Proof.
  unfold MomentInfo_wf. simpl. rewrite repeat_length.
  repeat split; trivial. lia.
Qed.

Lemma NbcStat_Init_consistent (cfg : Build) (param : Param.t D)
  (s : NbcStat.t D) :
  NbcStat.Init cfg param = Ok s ->
  NbcStat_consistent (Z.to_nat (Param.dim param)) s
  /\ NbcStat.count_pos s = 0 /\ NbcStat.count_neg s = 0.
Proof.
  unfold NbcStat.Init, MomentInfo.Init.
  destruct (DEBUG_ASSERT cfg _); simpl; [|discriminate].
  intros [= <-]. unfold NbcStat_consistent, la.Zeros. simpl.
  split; [split; [|split; [|split]] | split]; trivial; apply zero_state_wf.
Qed.

Lemma Accumulate_point_consistent (n : nat) (param : Param.t D)
  (s : NbcStat.t D) (point : NbcPoint.t D) :
  NbcStat_consistent n s ->
  length (NbcPoint.vec point) = n ->
  NbcStat_consistent n (NbcStat.Accumulate_point param s point)
  /\ NbcStat.count_pos (NbcStat.Accumulate_point param s point)
     = NbcStat.count_pos s + (if NbcPoint.is_pos point then 1 else 0)
  /\ NbcStat.count_neg (NbcStat.Accumulate_point param s point)
     = NbcStat.count_neg s + (if NbcPoint.is_pos point then 0 else 1).
Proof.
  intros (Hp & Hn & Hcp & Hcn) Hlen.
  unfold NbcStat.Accumulate_point, NbcStat_consistent.
  destruct (NbcPoint.is_pos point); simpl;
    (split; [split; [|split; [|split]] | split]); trivial; try lia;
    try (apply Add_parts_wf; trivial; lia);
    unfold MomentInfo.Add_parts; simpl; lia.
Qed.

Lemma Add_count (a b : MomentInfo.t D) :
  MomentInfo.count (MomentInfo.Add a b)
  = MomentInfo.count a + MomentInfo.count b.
Proof.
  unfold MomentInfo.Add, MomentInfo.Add_parts.
  destruct (Z.eqb_spec (MomentInfo.count b) 0) as [Hz|Hz]; simpl; lia.
Qed.

Lemma Accumulate_consistent (n : nat) (param : Param.t D)
  (s stat : NbcStat.t D) (bound : Bound.t D) (k : Z) :
  NbcStat_consistent n s -> NbcStat_consistent n stat ->
  NbcStat_consistent n (NbcStat.Accumulate param s stat bound k).
Proof.
  intros (Hp & Hn & Hcp & Hcn) (Hp' & Hn' & Hcp' & Hcn').
  unfold NbcStat.Accumulate, NbcStat_consistent. simpl.
  rewrite !Add_count.
  split; [|split; [|split]]; try lia; now apply Add_wf.
Qed.

Lemma accumulate_points_consistent (n : nat) (param : Param.t D)
  (ps : list (NbcPoint.t D)) (s : NbcStat.t D) :
  NbcStat_consistent n s ->
  Forall (fun p => length (NbcPoint.vec p) = n) ps ->
  NbcStat_consistent n (accumulate_points param ps s)
  /\ NbcStat.count_pos (accumulate_points param ps s)
     = NbcStat.count_pos s + Z.of_nat (length (class_points true ps))
  /\ NbcStat.count_neg (accumulate_points param ps s)
     = NbcStat.count_neg s + Z.of_nat (length (class_points false ps)).
Proof.
  revert s. induction ps as [|p ps IH]; intros s Hs Hps.
  - unfold accumulate_points, class_points. simpl.
    split; [exact Hs|]. split; lia.
  - apply Forall_cons_iff in Hps as [Hp Hps'].
    destruct (@Accumulate_point_consistent n param s p Hs Hp)
      as (Hs1 & Hc1 & Hc2).
    destruct (IH _ Hs1 Hps') as (Hs2 & Hc3 & Hc4).
    unfold accumulate_points in *. cbn [fold_left].
    split; [exact Hs2|]. rewrite Hc3, Hc4, Hc1, Hc2.
    unfold class_points. cbn [filter].
    destruct (NbcPoint.is_pos p); cbn [Bool.eqb map length];
      rewrite ?Nat2Z.inj_succ; split; lia.
Qed.
End Stat.

(** ** Kernel sums of accumulated points

    Exact rational arithmetic. *)

Section Exact_sums.
Local Open Scope Q_scope.

Lemma Dot_AddTo (q x y : la.Vector Q) :
  length x = length y ->
  la.Dot q (la.AddTo x y) == la.Dot q y + la.Dot q x.
Proof.
  revert x y. induction q as [|a q IH]; intros [|b x] [|c y]; try discriminate;
    cbn [la.Dot la.AddTo]; to_Q; intros Hlen; try ring.
  injection Hlen as Hlen. rewrite (IH _ _ Hlen). ring.
Qed.

Lemma Dot_zeros (q : la.Vector Q) (n : nat) :
  la.Dot q (repeat (of_index 0) n) == 0.
Proof.
  revert n. induction q as [|a q IH]; intros [|n]; cbn [la.Dot repeat]; to_Q;
    try ring.
  rewrite IH. ring.
Qed.

Lemma ComputeKernelSum_empty (n : nat) (param : Param.t Q)
  (m : MomentInfo.t Q) (q : la.Vector Q) :
  MomentInfo_wf n m -> MomentInfo.count m = 0%Z ->
  MomentInfo.ComputeKernelSum param m q == 0.
Proof.
  intros (_ & _ & Hzero) Hc. destruct (Hzero Hc) as [Hm Hs].
  unfold MomentInfo.ComputeKernelSum. rewrite Hm, Hs, Hc, Dot_zeros.
  to_Q. ring.
Qed.

Lemma ComputeKernelSum_parts (param : Param.t Q) (m : MomentInfo.t Q)
  (count_in : Z) (mass_in : la.Vector Q) (sumsq_in : Q) (q : la.Vector Q) :
  count_in <> 0%Z ->
  length mass_in = length (MomentInfo.mass m) ->
  MomentInfo.ComputeKernelSum param
    (MomentInfo.Add_parts m count_in mass_in sumsq_in) q
  == MomentInfo.ComputeKernelSum param m q
     + (inject_Z count_in
        - (inject_Z count_in * la.Dot q q - 2 * la.Dot q mass_in + sumsq_in)
          * Kernel.inv_bandwidth_sq (Param.kernel param)).
Proof.
  intros Hc Hlen. unfold MomentInfo.Add_parts.
  apply Z.eqb_neq in Hc. rewrite Hc. cbn [negb].
  unfold MomentInfo.ComputeKernelSum.
  cbn [MomentInfo.mass MomentInfo.sumsq MomentInfo.count].
  rewrite Dot_AddTo by exact Hlen. to_Q. rewrite inject_Z_plus. ring.
Qed.

Lemma ComputeKernelSum_Add (n : nat) (param : Param.t Q)
  (a b : MomentInfo.t Q) (q : la.Vector Q) :
  MomentInfo_wf n a -> MomentInfo_wf n b ->
  MomentInfo.ComputeKernelSum param (MomentInfo.Add a b) q
  == MomentInfo.ComputeKernelSum param a q
     + MomentInfo.ComputeKernelSum param b q.
Proof.
  intros Ha Hb. destruct (Z.eq_dec (MomentInfo.count b) 0) as [Hc|Hc].
  - rewrite (@Add_empty _ _ a b Hc).
    rewrite (@ComputeKernelSum_empty n param b q Hb Hc). ring.
  - unfold MomentInfo.Add. rewrite ComputeKernelSum_parts; trivial.
    + unfold MomentInfo.ComputeKernelSum at 3. to_Q. ring.
    + destruct Ha as (Ha & _), Hb as (Hb & _). congruence.
Qed.

Lemma ComputeKernelSum_point (param : Param.t Q) (m : MomentInfo.t Q)
  (p q : la.Vector Q) :
  length p = length (MomentInfo.mass m) -> length q = length p ->
  MomentInfo.ComputeKernelSum param
    (MomentInfo.Add_parts m 1 p (la.Dot p p)) q
  == MomentInfo.ComputeKernelSum param m q
     + (1 - la.DistanceSqEuclidean q p
            * Kernel.inv_bandwidth_sq (Param.kernel param)).
Proof.
  intros Hp Hq. rewrite ComputeKernelSum_parts by (trivial; discriminate).
  rewrite DistanceSq_expand by exact Hq. to_Q. ring.
Qed.

Lemma profile_is_kernel (k : Kernel.t Q) (q : la.Vector Q)
  (ps : list (la.Vector Q)) :
  Forall (fun p => la.DistanceSqEuclidean q p < Kernel.bandwidth_sq k) ps ->
  profile_total k q ps = kernel_total k q ps.
Proof.
  induction 1 as [|p ps Hp _ IH]; cbn [profile_total kernel_total]; trivial.
  rewrite IH. unfold Kernel.EvalUnnormOnSq.
  destruct (Q_dlt_spec (la.DistanceSqEuclidean q p) (Kernel.bandwidth_sq k))
    as [_|Hge]; trivial.
  exfalso. apply (Qlt_not_le _ _ Hp Hge).
Qed.

Lemma accumulate_points_kernel_sum (n : nat) (param : Param.t Q)
  (ps : list (NbcPoint.t Q)) (s : NbcStat.t Q) (q : la.Vector Q) :
  NbcStat_consistent n s ->
  Forall (fun p => length (NbcPoint.vec p) = n) ps ->
  length q = n ->
  MomentInfo.ComputeKernelSum param
    (NbcStat.moment_info_pos (accumulate_points param ps s)) q
  == MomentInfo.ComputeKernelSum param (NbcStat.moment_info_pos s) q
     + profile_total (Param.kernel param) q (class_points true ps)
  /\ MomentInfo.ComputeKernelSum param
       (NbcStat.moment_info_neg (accumulate_points param ps s)) q
     == MomentInfo.ComputeKernelSum param (NbcStat.moment_info_neg s) q
        + profile_total (Param.kernel param) q (class_points false ps).
Proof.
  intros Hs Hps Hq. revert s Hs.
  induction ps as [|p ps IH]; intros s Hs.
  - unfold accumulate_points, class_points. simpl. to_Q. split; ring.
  - apply Forall_cons_iff in Hps as [Hp Hps'].
    destruct (@Accumulate_point_consistent _ _ n param s p Hs Hp)
      as (Hs1 & _).
    destruct (IH Hps' _ Hs1) as [IHp IHn].
    unfold accumulate_points in *. cbn [fold_left].
    rewrite IHp, IHn. clear IHp IHn.
    destruct Hs as ((Hlp & _) & (Hln & _) & _).
    unfold NbcStat.Accumulate_point, class_points. cbn [filter].
    destruct (NbcPoint.is_pos p);
      cbn [Bool.eqb map profile_total NbcStat.moment_info_pos
             NbcStat.moment_info_neg];
      rewrite ComputeKernelSum_point by congruence; to_Q; split; ring.
Qed.
End Exact_sums.

(** ** The prunes are sound

    Exact rational arithmetic. *)

Section Exact_prunes.
Local Open Scope Q_scope.

Lemma range_between (r o : DRange.t Q) (x y : Q) :
  negb (dlt x (DRange.lo r)) && negb (dlt (DRange.hi r) x) = true ->
  negb (dlt y (DRange.lo o)) && negb (dlt (DRange.hi o) y) = true ->
  Bound.gap_range r o * Bound.gap_range r o <= (x - y) * (x - y)
  /\ (x - y) * (x - y) <= Bound.reach_range r o * Bound.reach_range r o.
Proof.
  intros Hx Hy.
  apply andb_true_iff in Hx as [Hx1 Hx2]. apply andb_true_iff in Hy as [Hy1 Hy2].
  apply negb_true_iff in Hx1, Hx2, Hy1, Hy2.
  destruct (Q_dlt_spec x (DRange.lo r)); [discriminate|].
  destruct (Q_dlt_spec (DRange.hi r) x); [discriminate|].
  destruct (Q_dlt_spec y (DRange.lo o)); [discriminate|].
  destruct (Q_dlt_spec (DRange.hi o) y); [discriminate|].
  unfold Bound.gap_range, Bound.reach_range, dmax.
  destruct (Q_dlt_spec (DRange.hi o) (DRange.lo r));
    destruct (Q_dlt_spec (DRange.hi r) (DRange.lo o));
    destruct (Q_dlt_spec (dsub (DRange.hi o) (DRange.lo r))
                (dsub (DRange.hi r) (DRange.lo o)));
    to_Q;
    (split;
     [first [ apply Q_square_ge_abs; [lra | (left; lra) || (right; lra)]
            | apply Q_square_nonneg ]
     | apply Q_square_le_abs; lra]).
Qed.

(** Two points, one in each box, are no nearer than [MinDistanceSq] and no
    farther than [MaxDistanceSq]. *)
Lemma distance_between_bounds (b o : Bound.t Q) (x y : la.Vector Q) :
  Bound.Contains b x = true -> Bound.Contains o y = true ->
  length b = length x -> length o = length y -> length x = length y ->
  Bound.MinDistanceSq b o <= la.DistanceSqEuclidean x y
  /\ la.DistanceSqEuclidean x y <= Bound.MaxDistanceSq b o.
Proof.
  revert o x y. induction b as [|r b IH]; intros [|s o] [|a x] [|c y];
    try discriminate;
    cbn [Bound.Contains Bound.MinDistanceSq Bound.MaxDistanceSq
           la.DistanceSqEuclidean]; intros Hx Hy Hb Ho Hxy.
  - to_Q. split; apply Qle_refl.
  - apply andb_true_iff in Hx as [Hx Hx']. apply andb_true_iff in Hy as [Hy Hy'].
    injection Hb as Hb. injection Ho as Ho. injection Hxy as Hxy.
    destruct (IH _ _ _ Hx' Hy' Hb Ho Hxy) as [IHmin IHmax].
    destruct (range_between r s a c Hx Hy) as [Hmin Hmax].
    to_Q. split; lra.
Qed.

Lemma distance_sym (x y : la.Vector Q) :
  la.DistanceSqEuclidean x y == la.DistanceSqEuclidean y x.
Proof.
  revert y. induction x as [|a x IH]; intros [|b y];
    cbn [la.DistanceSqEuclidean]; to_Q; try ring.
  rewrite (IH y). ring.
Qed.

(** A kernel built by [Init] that evaluates to zero at one distance
    evaluates to zero at every greater distance. *)
Lemma kernel_zero_beyond (h d d' : Q) :
  dlt d (Kernel.bandwidth_sq (Kernel.Init h)) = false \/ 
  deq (Kernel.EvalUnnormOnSq (Kernel.Init h) d) (of_index 0) = true ->
  d <= d' ->
  Kernel.EvalUnnormOnSq (Kernel.Init h) d' = of_index 0.
Proof.
  intros Hzero Hle. unfold Kernel.EvalUnnormOnSq in *.
  assert (Hbeyond : Kernel.bandwidth_sq (Kernel.Init h) <= d).
  { destruct (Q_dlt_spec d (Kernel.bandwidth_sq (Kernel.Init h)))
      as [Hlt|Hge]; trivial.
    destruct Hzero as [Hf|Hz]; [discriminate|]. exfalso.
    unfold Kernel.Init in *.
    cbn [Kernel.bandwidth_sq Kernel.inv_bandwidth_sq] in *. to_Q.
    apply Qeq_bool_iff in Hz.
    destruct (Qeq_dec (h * h) 0) as [Hh|Hh].
    - rewrite Hh in Hz. unfold Qdiv in Hz.
      change (/ 0) with 0 in Hz. lra.
    - assert (Hd : d == h * h).
      { assert (Hdiv : d * (1 / (h * h)) == 1) by lra.
        assert (Hd : d == d * (1 / (h * h)) * (h * h)).
        { field. intros Hc. apply Hh. rewrite Hc. ring. }
        rewrite Hd, Hdiv. ring. }
      lra. }
  destruct (Q_dlt_spec d' (Kernel.bandwidth_sq (Kernel.Init h))) as [Hlt|_];
    trivial.
  exfalso. lra.
Qed.
End Exact_prunes.

(** ** The Bounds and prior ranges of a statistic cover its points

    Exact rational arithmetic. *)

Section Stat_bounds.
Local Open Scope Q_scope.

Lemma union_point_range (r : DRange.t Q) (d : Q) :
  DRange_covers (DRange.union_point r d) d
  /\ forall e, DRange_covers r e -> DRange_covers (DRange.union_point r d) e.
Proof.
  unfold DRange_covers, DRange.union_point. cbn [DRange.lo DRange.hi].
  destruct (Q_dlt_spec d (DRange.lo r)), (Q_dlt_spec (DRange.hi r) d);
    (split; [|intros e]); lra.
Qed.

Lemma union_range (r o : DRange.t Q) (e : Q) :
  DRange_covers r e \/ DRange_covers o e ->
  DRange_covers (DRange.union r o) e.
Proof.
  unfold DRange_covers, DRange.union. cbn [DRange.lo DRange.hi].
  destruct (Q_dlt_spec (DRange.lo o) (DRange.lo r)),
    (Q_dlt_spec (DRange.hi r) (DRange.hi o)); lra.
Qed.

Lemma Contains_cons (r : DRange.t Q) (b : Bound.t Q) (x : Q)
  (p : la.Vector Q) :
  Bound.Contains (r :: b) (x :: p) = true
  <-> DRange_covers r x /\ Bound.Contains b p = true.
Proof.
  cbn [Bound.Contains]. unfold DRange_covers.
  destruct (Q_dlt_spec x (DRange.lo r)) as [H1|H1],
    (Q_dlt_spec (DRange.hi r) x) as [H2|H2];
    cbn [negb andb]; (split; [intros Hc | intros [[Ha Hb] Hc]]);
    try discriminate; try lra; auto.
Qed.

Lemma Bound_union_point_covers (n : nat) (b : Bound.t Q) (p : la.Vector Q) :
  length b = n -> length p = n ->
  Bound_covers n (Bound.union_point b p) p
  /\ forall y, Bound_covers n b y -> Bound_covers n (Bound.union_point b p) y.
Proof.
  revert b p. induction n as [|n IH]; intros [|r b] [|x p]; try discriminate.
  - intros _ _. unfold Bound_covers. cbn. split; [tauto|]. intros y. tauto.
  - intros Hb Hp. injection Hb as Hb. injection Hp as Hp.
    destruct (IH b p Hb Hp) as [(Hl & _ & Hc) Hkeep].
    destruct (union_point_range r x) as [Hx Hr].
    unfold Bound_covers. cbn [Bound.union_point length].
    split.
    + split; [now rewrite Hl|]. split; [now rewrite Hp|].
      apply Contains_cons. now split.
    + intros [|y0 y] (_ & Hy & Hcy); [discriminate|].
      injection Hy as Hy. apply Contains_cons in Hcy as [Hy0 Hcy].
      split; [now rewrite Hl|]. split; [cbn; now rewrite Hy|].
      apply Contains_cons. split; [now apply Hr|].
      apply Hkeep. unfold Bound_covers. auto.
Qed.

Lemma Bound_union_covers (n : nat) (b o : Bound.t Q) (y : la.Vector Q) :
  length b = n -> length o = n ->
  Bound_covers n b y \/ Bound_covers n o y ->
  Bound_covers n (Bound.union b o) y.
Proof.
  revert b o y. induction n as [|n IH]; intros [|r b] [|s o]; try discriminate.
  - intros y _ _ [H|H]; exact H.
  - intros y Hb Ho Hy. injection Hb as Hb. injection Ho as Ho.
    assert (Hlen : length y = S n) by (destruct Hy as [(_ & H & _)|(_ & H & _)]; exact H).
    destruct y as [|y0 y]; [discriminate|]. injection Hlen as Hlen.
    unfold Bound_covers. cbn [Bound.union length].
    assert (Hrec : Bound_covers n (Bound.union b o) y
                   /\ DRange_covers (DRange.union r s) y0).
    { destruct Hy as [(_ & _ & Hc)|(_ & _ & Hc)];
        apply Contains_cons in Hc as [Hy0 Hc].
      - split; [apply IH; trivial; left; unfold Bound_covers; auto|].
        apply union_range. now left.
      - split; [apply IH; trivial; right; unfold Bound_covers; auto|].
        apply union_range. now right. }
    destruct Hrec as [(Hl & _ & Hc) Hy0].
    split; [now rewrite Hl|]. split; [cbn; now rewrite Hlen|].
    apply Contains_cons. now split.
Qed.

Lemma Bound_Init_length (dim : Z) :
  length (Bound.Init (D := Q) dim) = Z.to_nat dim.
Proof. unfold Bound.Init. apply repeat_length. Qed.

(** What one more point does to the coverage. *)
Lemma Accumulate_point_covers (n : nat) (param : Param.t Q)
  (s : NbcStat.t Q) (p : NbcPoint.t Q) :
  length (NbcStat.bound_pos s) = n -> length (NbcStat.bound_neg s) = n ->
  length (NbcPoint.vec p) = n ->
  let s' := NbcStat.Accumulate_point param s p in
  length (NbcStat.bound_pos s') = n /\ length (NbcStat.bound_neg s') = n
  /\ Bound_covers n
       (if NbcPoint.is_pos p then NbcStat.bound_pos s' else NbcStat.bound_neg s')
       (NbcPoint.vec p)
  /\ DRange_covers (NbcStat.pi_pos s') (NbcPoint.pi_pos p)
  /\ DRange_covers (NbcStat.pi_neg s') (NbcPoint.pi_neg p)
  /\ (forall y, Bound_covers n (NbcStat.bound_pos s) y ->
                Bound_covers n (NbcStat.bound_pos s') y)
  /\ (forall y, Bound_covers n (NbcStat.bound_neg s) y ->
                Bound_covers n (NbcStat.bound_neg s') y)
  /\ (forall e, DRange_covers (NbcStat.pi_pos s) e ->
                DRange_covers (NbcStat.pi_pos s') e)
  /\ (forall e, DRange_covers (NbcStat.pi_neg s) e ->
                DRange_covers (NbcStat.pi_neg s') e).
Proof.
  intros Hbp Hbn Hp. cbv zeta. unfold NbcStat.Accumulate_point.
  destruct (@Bound_union_point_covers n _ _ Hbp Hp) as [Hcp Hkp].
  destruct (@Bound_union_point_covers n _ _ Hbn Hp) as [Hcn Hkn].
  unfold NbcPoint.pi_pos, NbcPoint.pi_neg.
  destruct (NbcPoint.is_pos p);
    cbn [NbcStat.bound_pos NbcStat.bound_neg NbcStat.pi_pos NbcStat.pi_neg];
    repeat match goal with |- _ /\ _ => split end; trivial;
    try apply Hcp; try apply Hcn;
    try (apply (proj1 (union_point_range _ _)));
    intros e He; apply (proj2 (union_point_range _ _)); exact He.
Qed.

Lemma accumulate_points_covers (n : nat) (param : Param.t Q)
  (ps : list (NbcPoint.t Q)) (s : NbcStat.t Q) :
  length (NbcStat.bound_pos s) = n -> length (NbcStat.bound_neg s) = n ->
  Forall (fun p => length (NbcPoint.vec p) = n) ps ->
  let s' := accumulate_points param ps s in
  length (NbcStat.bound_pos s') = n /\ length (NbcStat.bound_neg s') = n
  /\ Forall (fun p =>
       Bound_covers n
         (if NbcPoint.is_pos p then NbcStat.bound_pos s'
          else NbcStat.bound_neg s') (NbcPoint.vec p)
       /\ DRange_covers (NbcStat.pi_pos s') (NbcPoint.pi_pos p)
       /\ DRange_covers (NbcStat.pi_neg s') (NbcPoint.pi_neg p)) ps
  /\ (forall y, Bound_covers n (NbcStat.bound_pos s) y ->
                Bound_covers n (NbcStat.bound_pos s') y)
  /\ (forall y, Bound_covers n (NbcStat.bound_neg s) y ->
                Bound_covers n (NbcStat.bound_neg s') y)
  /\ (forall e, DRange_covers (NbcStat.pi_pos s) e ->
                DRange_covers (NbcStat.pi_pos s') e)
  /\ (forall e, DRange_covers (NbcStat.pi_neg s) e ->
                DRange_covers (NbcStat.pi_neg s') e).
Proof.
  cbv zeta. revert s. induction ps as [|p ps IH]; intros s Hbp Hbn Hps.
  - unfold accumulate_points. cbn [fold_left].
    repeat match goal with |- _ /\ _ => split end; trivial.
  - apply Forall_cons_iff in Hps as [Hp Hps'].
    destruct (@Accumulate_point_covers n param s p Hbp Hbn Hp)
      as (Hl1 & Hl2 & Hc & Hpp & Hpn & Hk1 & Hk2 & Hk3 & Hk4).
    destruct (IH _ Hl1 Hl2 Hps') as (Hl1' & Hl2' & Hall & Hk1' & Hk2' & Hk3' & Hk4').
    unfold accumulate_points in *. cbn [fold_left].
    repeat match goal with |- _ /\ _ => split end; auto.
    apply Forall_cons; [|exact Hall].
    split; [|split]; auto.
    destruct (NbcPoint.is_pos p); auto.
Qed.
End Stat_bounds.

Section Exact_prunes_pair.
Local Open Scope Q_scope.
Variables (cfg : Build) (param : Param.t Q) (q_node r_node : ThorNode.t Q).
Variables (delta0 : Delta.t Q) (g0 : GlobalResult.t) (qp0 : QPostponed.t Q).

Local Abbreviation out :=
  (Algorithm.ConsiderPairIntrinsic cfg param q_node r_node delta0 g0 qp0).
Local Abbreviation st := (ThorNode.stat r_node).

(** Distances from a query point in the query Bound to a reference point
    in a reference Bound, as [VisitPair] takes them. *)
Lemma pair_distance_between (n : nat) (b : Bound.t Q) (q x : la.Vector Q) :
  Bound_covers n (ThorNode.bound q_node) q -> Bound_covers n b x ->
  Bound.MinDistanceSq b (ThorNode.bound q_node) <= la.DistanceSqEuclidean q x
  /\ la.DistanceSqEuclidean q x
     <= Bound.MaxDistanceSq b (ThorNode.bound q_node).
Proof.
  intros (Hlq & Hq & Hcq) (Hlb & Hx & Hcx).
  rewrite (distance_sym q x).
  apply distance_between_bounds; trivial; congruence.
Qed.

Lemma exclusion_zero (n : nat) (h_pos h_neg : Q) :
  Param.kernel_pos param = Kernel.Init h_pos ->
  Param.kernel_neg param = Kernel.Init h_neg ->
  Algorithm.outcome out = Algorithm.Exclusion ->
  forall q, Bound_covers n (ThorNode.bound q_node) q ->
  (0 < NbcStat.count_pos st ->
   forall x, Bound_covers n (NbcStat.bound_pos st) x ->
   Kernel.EvalUnnormOnSq (Param.kernel_pos param)
     (la.DistanceSqEuclidean q x) = of_index 0)%Z
  /\ (0 < NbcStat.count_neg st ->
      forall x, Bound_covers n (NbcStat.bound_neg st) x ->
      Kernel.EvalUnnormOnSq (Param.kernel_neg param)
        (la.DistanceSqEuclidean q x) = of_index 0)%Z.
Proof.
  intros Hkp Hkn. unfold Algorithm.ConsiderPairIntrinsic.
  split_exclusion;
    [|destruct (Algorithm.Inclusion_test cfg param q_node r_node);
      simpl; discriminate].
  intros _ q Hq. apply andb_true_iff in Hexcl as [Hp Hn].
  split; intros Hc x Hx; apply Z.ltb_lt in Hc; rewrite Hc in *.
  - rewrite Hkp in *.
    apply kernel_zero_beyond
      with (d := Bound.MinDistanceSq (NbcStat.bound_pos st)
                   (ThorNode.bound q_node)); [now right|].
    now apply (pair_distance_between Hq Hx).
  - rewrite Hkn in *.
    apply kernel_zero_beyond
      with (d := Bound.MinDistanceSq (NbcStat.bound_neg st)
                   (ThorNode.bound q_node)); [now right|].
    now apply (pair_distance_between Hq Hx).
Qed.

Lemma inclusion_within (n : nat) :
  Algorithm.outcome out = Algorithm.Inclusion ->
  forall q, Bound_covers n (ThorNode.bound q_node) q ->
  (CHECK_POS_NEG_BOUNDS cfg = true ->
   ((0 < NbcStat.count_pos st)%Z ->
    forall x, Bound_covers n (NbcStat.bound_pos st) x ->
    la.DistanceSqEuclidean q x < Kernel.bandwidth_sq (Param.kernel_pos param))
   /\ ((0 < NbcStat.count_neg st)%Z ->
       forall x, Bound_covers n (NbcStat.bound_neg st) x ->
       la.DistanceSqEuclidean q x
       < Kernel.bandwidth_sq (Param.kernel_neg param)))
  /\ (CHECK_POS_NEG_BOUNDS cfg = false ->
      forall x, Bound_covers n (ThorNode.bound r_node) x ->
      la.DistanceSqEuclidean q x
      < Kernel.bandwidth_sq (Param.kernel_pos param)).
Proof.
  intros Hout q Hq. split; intros Hb.
  - destruct (inclusion_per_class cfg param q_node r_node delta0 g0 qp0 Hb Hout)
      as [Hp Hn].
    unfold Claimed.saturated_pos, Claimed.saturated_neg in *.
    split; intros Hc x Hx.
    + specialize (Hp Hc).
      match type of Hp with dlt ?a ?b = true =>
        destruct (Q_dlt_spec a b) as [Hlt|]; [|discriminate] end.
      eapply Qle_lt_trans; [|exact Hlt].
      now apply (pair_distance_between Hq Hx).
    + specialize (Hn Hc).
      match type of Hn with dlt ?a ?b = true =>
        destruct (Q_dlt_spec a b) as [Hlt|]; [|discriminate] end.
      eapply Qle_lt_trans; [|exact Hlt].
      now apply (pair_distance_between Hq Hx).
  - intros x Hx.
    pose proof (inclusion_combined cfg param q_node r_node delta0 g0 qp0 Hb Hout)
      as Hc.
    match type of Hc with dlt ?a ?b = true =>
      destruct (Q_dlt_spec a b) as [Hlt|]; [|discriminate] end.
    eapply Qle_lt_trans; [|exact Hlt].
    now apply (pair_distance_between Hq Hx).
Qed.
End Exact_prunes_pair.

(** ** Class sums of a reference node

    Exact rational arithmetic. *)

Section Exact_class_sums.
Local Open Scope Q_scope.

Lemma class_points_Forall (pos : bool) (P : la.Vector Q -> Prop)
  (ps : list (NbcPoint.t Q)) :
  Forall (fun p => NbcPoint.is_pos p = pos -> P (NbcPoint.vec p)) ps ->
  Forall P (class_points pos ps).
Proof.
  unfold class_points.
  induction 1 as [|p ps Hp _ IH]; cbn [filter map]; [apply Forall_nil|].
  destruct (NbcPoint.is_pos p), pos; cbn [Bool.eqb map]; trivial;
    apply Forall_cons; auto.
Qed.

Lemma class_points_empty (pos : bool) (ps : list (NbcPoint.t Q)) :
  Z.of_nat (length (class_points pos ps)) = 0%Z -> class_points pos ps = [].
Proof. destruct (class_points pos ps); [trivial|cbn [length]; lia]. Qed.

Lemma kernel_total_zero (k : Kernel.t Q) (q : la.Vector Q)
  (ps : list (la.Vector Q)) :
  Forall (fun p => Kernel.bandwidth_sq k <= la.DistanceSqEuclidean q p) ps ->
  kernel_total k q ps == 0.
Proof.
  induction 1 as [|p ps Hp _ IH]; cbn [kernel_total]; to_Q; [reflexivity|].
  rewrite IH. unfold Kernel.EvalUnnormOnSq.
  destruct (Q_dlt_spec (la.DistanceSqEuclidean q p) (Kernel.bandwidth_sq k));
    to_Q; lra.
Qed.

Lemma point_distance_between (n : nat) (b : Bound.t Q) (q x : la.Vector Q) :
  Bound_covers n b x -> length q = n ->
  Bound.MinDistanceSq_point b q <= la.DistanceSqEuclidean q x
  /\ la.DistanceSqEuclidean q x <= Bound.MaxDistanceSq_point b q.
Proof.
  intros (Hb & Hx & Hc) Hq. rewrite (distance_sym q x).
  apply distance_within_bound; trivial; congruence.
Qed.

Variables (cfg : Build) (param : Param.t Q).
Variables (s0 : NbcStat.t Q) (rs : list (NbcPoint.t Q)).
Local Abbreviation n := (Z.to_nat (Param.dim param)).
Local Abbreviation st := (accumulate_points param rs s0).
Hypothesis Hinit : NbcStat.Init cfg param = Ok s0.
Hypothesis Hrs : Forall (fun p => length (NbcPoint.vec p) = n) rs.

Lemma leaf_stat_consistent :
  NbcStat_consistent n st
  /\ NbcStat.count_pos st = Z.of_nat (length (class_points true rs))
  /\ NbcStat.count_neg st = Z.of_nat (length (class_points false rs)).
Proof.
  destruct (NbcStat_Init_consistent cfg param Hinit) as (Hs0 & Hp0 & Hn0).
  destruct (@accumulate_points_consistent _ _ _ n param rs s0 Hs0 Hrs)
    as (Hs & Hp & Hn).
  split; [exact Hs|]. split; lia.
Qed.

Lemma leaf_stat_covers :
  Forall (fun p =>
    Bound_covers n
      (if NbcPoint.is_pos p then NbcStat.bound_pos st else NbcStat.bound_neg st)
      (NbcPoint.vec p)
    /\ DRange_covers (NbcStat.pi_pos st) (NbcPoint.pi_pos p)
    /\ DRange_covers (NbcStat.pi_neg st) (NbcPoint.pi_neg p)) rs.
Proof.
  assert (Hb : length (NbcStat.bound_pos s0) = n
               /\ length (NbcStat.bound_neg s0) = n).
  { revert Hinit. unfold NbcStat.Init, MomentInfo.Init.
    destruct (DEBUG_ASSERT cfg _); simpl; [|discriminate].
    intros [= <-]. simpl. split; apply Bound_Init_length. }
  destruct Hb as [Hbp Hbn].
  apply (@accumulate_points_covers n param rs s0 Hbp Hbn Hrs).
Qed.

Lemma leaf_class_covered (pos : bool) :
  Forall (Bound_covers n
            (if pos then NbcStat.bound_pos st else NbcStat.bound_neg st))
    (class_points pos rs).
Proof.
  apply class_points_Forall.
  eapply Forall_impl; [|exact leaf_stat_covers].
  intros p (Hc & _) <-. exact Hc.
Qed.

(** The kernel sum of a class summary is the unclamped profile summed over
    the points of the class. *)
Lemma leaf_class_sum (q : la.Vector Q) :
  length q = n ->
  MomentInfo.ComputeKernelSum param (NbcStat.moment_info_pos st) q
  == profile_total (Param.kernel param) q (class_points true rs)
  /\ MomentInfo.ComputeKernelSum param (NbcStat.moment_info_neg st) q
     == profile_total (Param.kernel param) q (class_points false rs).
Proof.
  intros Hq.
  destruct (NbcStat_Init_consistent cfg param Hinit) as (Hs0 & Hp0 & Hn0).
  destruct (@accumulate_points_kernel_sum n param rs s0 q Hs0 Hrs Hq)
    as [Hp Hn].
  rewrite Hp, Hn.
  destruct Hs0 as (Hwp & Hwn & Hcp & Hcn).
  rewrite (@ComputeKernelSum_empty n param _ q Hwp) by congruence.
  rewrite (@ComputeKernelSum_empty n param _ q Hwn) by congruence.
  split; ring.
Qed.

(** With every point of the class nearer than the bandwidth, the summary
    gives the brute-force kernel sum. *)
Lemma leaf_class_sum_exact (q : la.Vector Q) :
  length q = n ->
  (Param.kernel param = Param.kernel_pos param ->
   Forall (fun x => la.DistanceSqEuclidean q x
                    < Kernel.bandwidth_sq (Param.kernel_pos param))
     (class_points true rs) ->
   MomentInfo.ComputeKernelSum param (NbcStat.moment_info_pos st) q
   == kernel_total (Param.kernel_pos param) q (class_points true rs))
  /\ (Param.kernel param = Param.kernel_neg param ->
      Forall (fun x => la.DistanceSqEuclidean q x
                       < Kernel.bandwidth_sq (Param.kernel_neg param))
        (class_points false rs) ->
      MomentInfo.ComputeKernelSum param (NbcStat.moment_info_neg st) q
      == kernel_total (Param.kernel_neg param) q (class_points false rs)).
Proof.
  intros Hq. destruct (@leaf_class_sum q Hq) as [Hp Hn].
  split; intros Hk Hall.
  - rewrite Hp, Hk. now rewrite (@profile_is_kernel _ _ _ Hall).
  - rewrite Hn, Hk. now rewrite (@profile_is_kernel _ _ _ Hall).
Qed.
End Exact_class_sums.

Section Exact_inclusion.
Local Open Scope Q_scope.
Variables (cfg : Build) (param : Param.t Q) (q_node r_node : ThorNode.t Q).
Variables (delta0 : Delta.t Q) (g0 : GlobalResult.t) (qp0 : QPostponed.t Q).
Variables (s0 : NbcStat.t Q) (rs : list (NbcPoint.t Q)).

Local Abbreviation n := (Z.to_nat (Param.dim param)).
Local Abbreviation out :=
  (Algorithm.ConsiderPairIntrinsic cfg param q_node r_node delta0 g0 qp0).

Hypothesis Hinit : NbcStat.Init cfg param = Ok s0.
Hypothesis Hrs : Forall (fun p => length (NbcPoint.vec p) = n) rs.
Hypothesis Hstat : ThorNode.stat r_node = accumulate_points param rs s0.

(** What Inclusion postpones for a class is worth, at every query point of
    the query node, the brute-force kernel sum of the class. *)
Lemma inclusion_postpones_exact (q : la.Vector Q) :
  CHECK_POS_NEG_BOUNDS cfg = true ->
  QPostponed_wf n qp0 ->
  Bound_covers n (ThorNode.bound q_node) q ->
  Algorithm.outcome out = Algorithm.Inclusion ->
  (Param.kernel param = Param.kernel_pos param ->
   MomentInfo.ComputeKernelSum param
     (QPostponed.moment_info_pos (Algorithm.q_postponed out)) q
   == MomentInfo.ComputeKernelSum param (QPostponed.moment_info_pos qp0) q
      + kernel_total (Param.kernel_pos param) q (class_points true rs))
  /\ (Param.kernel param = Param.kernel_neg param ->
      MomentInfo.ComputeKernelSum param
        (QPostponed.moment_info_neg (Algorithm.q_postponed out)) q
      == MomentInfo.ComputeKernelSum param (QPostponed.moment_info_neg qp0) q
         + kernel_total (Param.kernel_neg param) q (class_points false rs)).
Proof.
  intros Hb [Hwp Hwn] Hq Hout.
  destruct (pair_intrinsic_writes cfg param q_node r_node delta0 g0 qp0)
    as (_ & _ & _ & _ & _ & Hinc).
  destruct (Hinc Hout) as (_ & Hmp & Hmn). rewrite Hmp, Hmn. clear Hinc Hmp Hmn.
  destruct (@inclusion_within cfg param q_node r_node delta0 g0 qp0 n Hout q Hq)
    as [Hin _].
  destruct (Hin Hb) as [Hinp Hinn]. clear Hin.
  rewrite Hstat in *.
  destruct (@leaf_stat_consistent cfg param s0 rs Hinit Hrs) as ((Hsp & Hsn & _) & Hcp & Hcn).
  assert (Hlq : length q = n) by (destruct Hq as (_ & H & _); exact H).
  destruct (@leaf_class_sum_exact cfg param s0 rs Hinit Hrs q Hlq)
    as [Hep Hen].
  split; intros Hk.
  - destruct (Z.ltb_spec 0
                (NbcStat.count_pos (accumulate_points param rs s0))) as [Hc|Hc].
    + rewrite (@ComputeKernelSum_Add n param _ _ q Hwp Hsp).
      rewrite (Hep Hk); [reflexivity|].
      eapply Forall_impl; [|exact (@leaf_class_covered cfg param s0 rs Hinit Hrs true)].
      intros x Hx. now apply (Hinp Hc).
    + rewrite class_points_empty by lia. cbn [kernel_total]. to_Q. ring.
  - destruct (Z.ltb_spec 0
                (NbcStat.count_neg (accumulate_points param rs s0))) as [Hc|Hc].
    + rewrite (@ComputeKernelSum_Add n param _ _ q Hwn Hsn).
      rewrite (Hen Hk); [reflexivity|].
      eapply Forall_impl; [|exact (@leaf_class_covered cfg param s0 rs Hinit Hrs false)].
      intros x Hx. now apply (Hinn Hc).
    + rewrite class_points_empty by lia. cbn [kernel_total]. to_Q. ring.
Qed.
End Exact_inclusion.

(** ** The leaf visit

    Exact rational arithmetic. *)

Section Exact_leaf.
Local Open Scope Q_scope.

Lemma visit_all_density (cfg : Build) (param : Param.t Q) (q : NbcPoint.t Q)
  (rs : list (NbcPoint.t Q)) (v : PairVisitor.t Q) :
  PairVisitor.do_pos (Narrowing.visit_all cfg param v q rs)
  = PairVisitor.do_pos v
  /\ PairVisitor.do_neg (Narrowing.visit_all cfg param v q rs)
     = PairVisitor.do_neg v
  /\ PairVisitor.density_pos (Narrowing.visit_all cfg param v q rs)
     == PairVisitor.density_pos v
        + (if CHECK_POS_NEG_BOUNDS cfg && negb (PairVisitor.do_pos v) then 0
           else kernel_total (Param.kernel_pos param) (NbcPoint.vec q)
                  (class_points true rs))
  /\ PairVisitor.density_neg (Narrowing.visit_all cfg param v q rs)
     == PairVisitor.density_neg v
        + (if CHECK_POS_NEG_BOUNDS cfg && negb (PairVisitor.do_neg v) then 0
           else kernel_total (Param.kernel_neg param) (NbcPoint.vec q)
                  (class_points false rs)).
Proof.
  revert v. induction rs as [|r rs' IH]; intros v.
  - unfold Narrowing.visit_all, class_points. cbn [fold_left filter map kernel_total].
    split; [reflexivity|]. split; [reflexivity|].
    destruct (CHECK_POS_NEG_BOUNDS cfg && negb (PairVisitor.do_pos v))%bool,
      (CHECK_POS_NEG_BOUNDS cfg && negb (PairVisitor.do_neg v))%bool;
      to_Q; split; ring.
  - unfold Narrowing.visit_all in *. cbn [fold_left].
    destruct (IH (PairVisitor.VisitPair cfg param v q r)) as (H1 & H2 & H3 & H4).
    rewrite H1, H2, H3, H4. clear IH H1 H2 H3 H4.
    unfold PairVisitor.VisitPair, class_points. cbn [filter].
    destruct (CHECK_POS_NEG_BOUNDS cfg), (NbcPoint.is_pos r),
      (PairVisitor.do_pos v) eqn:Hdp, (PairVisitor.do_neg v) eqn:Hdn;
      cbn [Bool.eqb map kernel_total andb negb PairVisitor.do_pos
             PairVisitor.do_neg PairVisitor.density_pos
             PairVisitor.density_neg];
      rewrite ?Hdp, ?Hdn; cbn [negb andb];
      (split; [reflexivity|]); (split; [reflexivity|]); to_Q; split; ring.
Qed.

Lemma class_far (n : nat) (k : Kernel.t Q) (b : Bound.t Q) (q : la.Vector Q)
  (pts : list (la.Vector Q)) :
  Forall (Bound_covers n b) pts -> length q = n ->
  Kernel.bandwidth_sq k <= Bound.MinDistanceSq_point b q ->
  kernel_total k q pts == 0.
Proof.
  intros Hpts Hq Hfar. apply kernel_total_zero.
  eapply Forall_impl; [|exact Hpts].
  intros x Hx. cbv beta.
  destruct (@point_distance_between n b q x Hx Hq) as [Hmin _]. lra.
Qed.

Lemma class_near (n : nat) (bw : Q) (b : Bound.t Q) (q : la.Vector Q)
  (pts : list (la.Vector Q)) :
  Forall (Bound_covers n b) pts -> length q = n ->
  Bound.MaxDistanceSq_point b q < bw ->
  Forall (fun x => la.DistanceSqEuclidean q x < bw) pts.
Proof.
  intros Hpts Hq Hnear.
  eapply Forall_impl; [|exact Hpts].
  intros x Hx. cbv beta.
  destruct (@point_distance_between n b q x Hx Hq) as [_ Hmax]. lra.
Qed.

Lemma dmax_ge (a b : Q) : a <= dmax a b /\ b <= dmax a b.
Proof. unfold dmax. destruct (Q_dlt_spec a b); lra. Qed.

Lemma dmin_le (a b : Q) : dmin a b <= a /\ dmin a b <= b.
Proof. unfold dmin. destruct (Q_dlt_spec b a); lra. Qed.
End Exact_leaf.

Section Exact_leaf_visit.
Local Open Scope Q_scope.
Variables (cfg : Build) (param : Param.t Q).
Variables (s0 : NbcStat.t Q) (rs : list (NbcPoint.t Q)).
Variables (v : PairVisitor.t Q) (q : NbcPoint.t Q) (r_node : ThorNode.t Q).
Variables (unapplied : QSummaryResult.t Q) (q_result : QResult.t Q).

Local Abbreviation n := (Z.to_nat (Param.dim param)).
Local Abbreviation st := (accumulate_points param rs s0).
Local Abbreviation bw_pos := (Kernel.bandwidth_sq (Param.kernel_pos param)).
Local Abbreviation bw_neg := (Kernel.bandwidth_sq (Param.kernel_neg param)).
Local Abbreviation total_pos :=
  (kernel_total (Param.kernel_pos param) (NbcPoint.vec q)
     (class_points true rs)).
Local Abbreviation total_neg :=
  (kernel_total (Param.kernel_neg param) (NbcPoint.vec q)
     (class_points false rs)).

Hypothesis Hinit : NbcStat.Init cfg param = Ok s0.
Hypothesis Hstat : ThorNode.stat r_node = st.
Hypothesis Hcover :
  Forall (fun p => Bound_covers n (ThorNode.bound r_node) (NbcPoint.vec p)) rs.
Hypothesis Hq : length (NbcPoint.vec q) = n.
Hypothesis Hlabel : QResult.label q_result = LAB_EITHER.

Lemma leaf_lengths : Forall (fun p => length (NbcPoint.vec p) = n) rs.
Proof.
  eapply Forall_impl; [|exact Hcover]. now intros p (_ & Hp & _).
Qed.

Lemma leaf_node_covered (pos : bool) :
  Forall (Bound_covers n (ThorNode.bound r_node)) (class_points pos rs).
Proof.
  apply class_points_Forall.
  eapply Forall_impl; [|exact Hcover]. now intros p Hp _.
Qed.

(** The per-class tests of the build that checks the classes
    separately. *)
Lemma class_far_zero :
  ((NbcStat.count_pos st =? 0)%Z
   || dlt bw_pos
        (Bound.MinDistanceSq_point (NbcStat.bound_pos st) (NbcPoint.vec q))
   = true -> total_pos == 0)
  /\ ((NbcStat.count_neg st =? 0)%Z
      || dlt bw_neg
           (Bound.MinDistanceSq_point (NbcStat.bound_neg st) (NbcPoint.vec q))
      = true -> total_neg == 0).
Proof.
  pose proof leaf_lengths as Hrs.
  destruct (@leaf_stat_consistent cfg param s0 rs Hinit Hrs)
    as (_ & Hcp & Hcn).
  split; intros Hfar; apply orb_true_iff in Hfar as [Hz|Hfar].
  - apply Z.eqb_eq in Hz. rewrite class_points_empty by lia. reflexivity.
  - apply (@class_far n _ (NbcStat.bound_pos st)); trivial.
    + exact (@leaf_class_covered cfg param s0 rs Hinit Hrs true).
    + match type of Hfar with dlt ?a ?b = true =>
        destruct (Q_dlt_spec a b); [lra|discriminate] end.
  - apply Z.eqb_eq in Hz. rewrite class_points_empty by lia. reflexivity.
  - apply (@class_far n _ (NbcStat.bound_neg st)); trivial.
    + exact (@leaf_class_covered cfg param s0 rs Hinit Hrs false).
    + match type of Hfar with dlt ?a ?b = true =>
        destruct (Q_dlt_spec a b); [lra|discriminate] end.
Qed.

Lemma class_include_exact :
  (Param.kernel param = Param.kernel_pos param ->
   (0 <? NbcStat.count_pos st)%Z
   && dlt (Bound.MaxDistanceSq_point (NbcStat.bound_pos st) (NbcPoint.vec q))
        bw_pos = true ->
   MomentInfo.ComputeKernelSum param (NbcStat.moment_info_pos st)
     (NbcPoint.vec q) == total_pos)
  /\ (Param.kernel param = Param.kernel_neg param ->
      (0 <? NbcStat.count_neg st)%Z
      && dlt (Bound.MaxDistanceSq_point (NbcStat.bound_neg st) (NbcPoint.vec q))
           bw_neg = true ->
      MomentInfo.ComputeKernelSum param (NbcStat.moment_info_neg st)
        (NbcPoint.vec q) == total_neg).
Proof.
  pose proof leaf_lengths as Hrs.
  destruct (@leaf_class_sum_exact cfg param s0 rs Hinit Hrs _ Hq)
    as [Hep Hen].
  split; intros Hk Hinc; apply andb_true_iff in Hinc as [_ Hnear];
    match type of Hnear with dlt ?a ?b = true =>
      destruct (Q_dlt_spec a b) as [Hlt|]; [|discriminate] end.
  - apply (Hep Hk).
    apply (@class_near n _ (NbcStat.bound_pos st)); trivial.
    exact (@leaf_class_covered cfg param s0 rs Hinit Hrs true).
  - apply (Hen Hk).
    apply (@class_near n _ (NbcStat.bound_neg st)); trivial.
    exact (@leaf_class_covered cfg param s0 rs Hinit Hrs false).
Qed.

(** The tests on the whole node of the default build. *)
Lemma node_far_zero :
  dlt (dmax bw_pos bw_neg)
    (Bound.MinDistanceSq_point (ThorNode.bound r_node) (NbcPoint.vec q))
  = true ->
  total_pos == 0 /\ total_neg == 0.
Proof.
  intros Hfar.
  match type of Hfar with dlt ?a ?b = true =>
    destruct (Q_dlt_spec a b) as [Hlt|]; [|discriminate] end.
  destruct (dmax_ge bw_pos bw_neg) as [Hp Hn].
  split.
  - apply (@class_far n _ (ThorNode.bound r_node)); trivial;
      [apply leaf_node_covered|lra].
  - apply (@class_far n _ (ThorNode.bound r_node)); trivial;
      [apply leaf_node_covered|lra].
Qed.

Lemma node_near_exact :
  dlt (Bound.MaxDistanceSq_point (ThorNode.bound r_node) (NbcPoint.vec q))
    (dmin bw_pos bw_neg) = true ->
  (Param.kernel param = Param.kernel_pos param ->
   (if (0 <? NbcStat.count_pos st)%Z
    then QResult.density_pos q_result
         + MomentInfo.ComputeKernelSum param (NbcStat.moment_info_pos st)
             (NbcPoint.vec q)
    else QResult.density_pos q_result)
   == QResult.density_pos q_result + total_pos)
  /\ (Param.kernel param = Param.kernel_neg param ->
      (if (0 <? NbcStat.count_neg st)%Z
       then QResult.density_neg q_result
            + MomentInfo.ComputeKernelSum param (NbcStat.moment_info_neg st)
                (NbcPoint.vec q)
       else QResult.density_neg q_result)
      == QResult.density_neg q_result + total_neg).
Proof.
  intros Hnear.
  match type of Hnear with dlt ?a ?b = true =>
    destruct (Q_dlt_spec a b) as [Hlt|]; [|discriminate] end.
  destruct (dmin_le bw_pos bw_neg) as [Hp Hn].
  pose proof leaf_lengths as Hrs.
  destruct (@leaf_stat_consistent cfg param s0 rs Hinit Hrs)
    as (_ & Hcp & Hcn).
  destruct (@leaf_class_sum_exact cfg param s0 rs Hinit Hrs _ Hq)
    as [Hep Hen].
  split; intros Hk.
  - destruct (Z.ltb_spec 0 (NbcStat.count_pos st)).
    + rewrite (Hep Hk); [reflexivity|].
      apply (@class_near n _ (ThorNode.bound r_node)); trivial;
        [apply leaf_node_covered|lra].
    + rewrite class_points_empty by lia. cbn [kernel_total]. to_Q. ring.
  - destruct (Z.ltb_spec 0 (NbcStat.count_neg st)).
    + rewrite (Hen Hk); [reflexivity|].
      apply (@class_near n _ (ThorNode.bound r_node)); trivial;
        [apply leaf_node_covered|lra].
    + rewrite class_points_empty by lia. cbn [kernel_total]. to_Q. ring.
Qed.

(** A leaf visit adds to each density the brute-force kernel sum of the
    class, whichever of its three ways it takes. *)
Lemma leaf_visit_exact :
  (Param.kernel param = Param.kernel_pos param ->
   QResult.density_pos
     (visit_leaf cfg param v q r_node rs unapplied q_result)
   == QResult.density_pos q_result + total_pos)
  /\ (Param.kernel param = Param.kernel_neg param ->
      QResult.density_neg
        (visit_leaf cfg param v q r_node rs unapplied q_result)
      == QResult.density_neg q_result + total_neg).
Proof.
  unfold visit_leaf, PairVisitor.StartVisitingQueryPoint.
  rewrite Hlabel, Hstat. cbn [Z.eqb LAB_EITHER Pos.eqb negb].
  destruct class_far_zero as [Hfp Hfn].
  destruct class_include_exact as [Hip Hin].
  destruct (CHECK_POS_NEG_BOUNDS cfg) eqn:Hb.
  - match goal with
    | |- context [if ?C then (false, v, q_result) else _] =>
        destruct C eqn:Hprune
    end.
    + apply andb_true_iff in Hprune as [Hp Hn].
      rewrite (Hfp Hp), (Hfn Hn). to_Q. split; intros _; ring.
    + clear Hprune Hfp Hfn.
      match goal with
      | |- context [negb ((0 <? NbcStat.count_pos ?s)%Z && ?b)] =>
          destruct ((0 <? NbcStat.count_pos s)%Z && b)%bool eqn:Hipos
      end;
      match goal with
      | |- context [negb ((0 <? NbcStat.count_neg ?s)%Z && ?b)] =>
          destruct ((0 <? NbcStat.count_neg s)%Z && b)%bool eqn:Hineg
      end; cbn [PairVisitor.do_pos PairVisitor.do_neg negb orb];
        unfold PairVisitor.FinishVisitingQueryPoint;
        cbn [QResult.density_pos QResult.density_neg];
        try match goal with
            | |- context [Narrowing.visit_all ?c ?p ?v0 ?q0 ?l] =>
                destruct (visit_all_density c p q0 l v0) as (_ & _ & Hvp & Hvn);
                rewrite Hvp, Hvn; clear Hvp Hvn;
                cbn [PairVisitor.do_pos PairVisitor.do_neg
                       PairVisitor.density_pos PairVisitor.density_neg];
                rewrite Hb; cbn [negb andb]
            end;
        (split; intros Hk;
         [ try rewrite (Hip Hk eq_refl) | try rewrite (Hin Hk eq_refl) ];
         to_Q; ring).
  - clear Hfp Hfn Hip Hin.
    match goal with
    | |- context [if ?C then (false, v, q_result) else _] =>
        destruct C eqn:Hfar
    end.
    + destruct (node_far_zero Hfar) as [Hp Hn]. rewrite Hp, Hn.
      to_Q. split; intros _; ring.
    + match goal with
      | |- context [if ?C then (false, v, _) else _] =>
          destruct C eqn:Hnear
      end.
      * cbn [QResult.density_pos QResult.density_neg].
        exact (node_near_exact Hnear).
      * unfold PairVisitor.FinishVisitingQueryPoint.
        cbn [QResult.density_pos QResult.density_neg].
        match goal with
        | |- context [Narrowing.visit_all ?c ?p ?v0 ?q0 ?l] =>
            destruct (visit_all_density c p q0 l v0) as (_ & _ & Hvp & Hvn);
            rewrite Hvp, Hvn; clear Hvp Hvn
        end.
        cbn [PairVisitor.density_pos PairVisitor.density_neg].
        rewrite Hb. cbn [andb]. to_Q. split; intros _; ring.
Qed.
End Exact_leaf_visit.

(** ** Postponed contributions compose

    Exact rational arithmetic. *)

Section Exact_postponed.
Local Open Scope Q_scope.
Variables (cfg : Build) (param : Param.t Q) (n : nat).

Lemma assert_both_labels (a b c : Z) (A : Type) (x : Result A) :
  (DEBUG_ASSERT cfg (negb (Z.land a b =? LAB_NEITHER)%Z) ;;;
   DEBUG_ASSERT cfg (negb (Z.land (Z.land a b) c =? LAB_NEITHER)%Z) ;;; x)%result
  = (DEBUG_ASSERT cfg (negb (Z.land (Z.land a b) c =? LAB_NEITHER)%Z) ;;; x)%result.
Proof.
  unfold DEBUG_ASSERT, LAB_NEITHER. destruct (DEBUG cfg); [|reflexivity].
  destruct (Z.eqb_spec (Z.land a b) 0) as [Hz|Hz]; [|reflexivity].
  rewrite Hz, Z.land_0_l. reflexivity.
Qed.

Lemma QPostponed_ApplyPostponed_assoc (p a b : QPostponed.t Q) :
  QPostponed_wf n p -> QPostponed_wf n a -> QPostponed_wf n b ->
  (x <- QPostponed.ApplyPostponed cfg param p a ;;
   QPostponed.ApplyPostponed cfg param x b)%result
  = (y <- QPostponed.ApplyPostponed cfg param a b ;;
     QPostponed.ApplyPostponed cfg param p y)%result.
Proof.
  intros [Hpp Hpn] [Hap Han] [Hbp Hbn].
  unfold QPostponed.ApplyPostponed.
  transitivity
    (DEBUG_ASSERT cfg
       (negb (Z.land (Z.land (QPostponed.label p) (QPostponed.label a))
                (QPostponed.label b) =? LAB_NEITHER)%Z) ;;;
     Ok {| QPostponed.moment_info_pos :=
             MomentInfo.Add
               (MomentInfo.Add (QPostponed.moment_info_pos p)
                  (QPostponed.moment_info_pos a))
               (QPostponed.moment_info_pos b);
           QPostponed.moment_info_neg :=
             MomentInfo.Add
               (MomentInfo.Add (QPostponed.moment_info_neg p)
                  (QPostponed.moment_info_neg a))
               (QPostponed.moment_info_neg b);
           QPostponed.label :=
             Z.land (Z.land (QPostponed.label p) (QPostponed.label a))
               (QPostponed.label b) |})%result.
  - rewrite <- assert_both_labels.
    destruct (DEBUG_ASSERT cfg
                (negb (Z.land (QPostponed.label p) (QPostponed.label a)
                       =? LAB_NEITHER)%Z)); reflexivity.
  - rewrite (Add_assoc Q_dadd_assoc Q_dadd_0_l Hpp Hap Hbp).
    rewrite (Add_assoc Q_dadd_assoc Q_dadd_0_l Hpn Han Hbn).
    rewrite <- !Z.land_assoc.
    rewrite (Z.land_comm (QPostponed.label p)
               (Z.land (QPostponed.label a) (QPostponed.label b))).
    rewrite <- (assert_both_labels (QPostponed.label a) (QPostponed.label b)
                  (QPostponed.label p)).
    rewrite (Z.land_comm (Z.land (QPostponed.label a) (QPostponed.label b))
               (QPostponed.label p)).
    destruct (DEBUG_ASSERT cfg
                (negb (Z.land (QPostponed.label a) (QPostponed.label b)
                       =? LAB_NEITHER)%Z)); reflexivity.
Qed.

Lemma QPostponed_Reset_neutral (p x : QPostponed.t Q) :
  is_class_label (QPostponed.label p) ->
  QPostponed.ApplyPostponed cfg param p (QPostponed.Reset param x) = Ok p.
Proof.
  intros Hl. unfold QPostponed.ApplyPostponed, QPostponed.Reset.
  cbn [QPostponed.label QPostponed.moment_info_pos QPostponed.moment_info_neg].
  rewrite !Add_empty by reflexivity.
  assert (Hland : Z.land (QPostponed.label p) LAB_EITHER = QPostponed.label p)
    by (destruct Hl as [->| [->| ->]]; reflexivity).
  rewrite Hland.
  replace (negb (QPostponed.label p =? LAB_NEITHER)%Z) with true
    by (destruct Hl as [->| [->| ->]]; reflexivity).
  rewrite DEBUG_ASSERT_true. cbn. now destruct p.
Qed.

Lemma density_after_both (d : Q) (a b : MomentInfo.t Q) (q : la.Vector Q) :
  MomentInfo_wf n a -> MomentInfo_wf n b ->
  (let d1 := if negb (MomentInfo.is_empty a)
             then (d + MomentInfo.ComputeKernelSum param a q)%dbl else d in
   if negb (MomentInfo.is_empty b)
   then (d1 + MomentInfo.ComputeKernelSum param b q)%dbl else d1)
  == (if negb (MomentInfo.is_empty (MomentInfo.Add a b))
      then (d + MomentInfo.ComputeKernelSum param (MomentInfo.Add a b) q)%dbl
      else d).
Proof.
  intros Ha Hb. cbv zeta. unfold MomentInfo.is_empty.
  rewrite Add_count.
  pose proof (@ComputeKernelSum_Add n param a b q Ha Hb) as Hadd.
  pose proof (@ComputeKernelSum_empty n param a q Ha) as Hea.
  pose proof (@ComputeKernelSum_empty n param b q Hb) as Heb.
  destruct Ha as (_ & Hca & _), Hb as (_ & Hcb & _).
  destruct (Z.eqb_spec (MomentInfo.count a) 0) as [Hza|Hza],
    (Z.eqb_spec (MomentInfo.count b) 0) as [Hzb|Hzb],
    (Z.eqb_spec (MomentInfo.count a + MomentInfo.count b) 0) as [Hz|Hz];
    try lia; cbn [negb]; to_Q; try rewrite Hadd;
    try rewrite (Hea Hza); try rewrite (Heb Hzb); ring.
Qed.

Lemma QResult_ApplyPostponed_merged (r : QResult.t Q) (a b : QPostponed.t Q)
  (q : NbcPoint.t Q) :
  QPostponed_wf n a -> QPostponed_wf n b ->
  Result_rel QResult_equiv
    (x <- QResult.ApplyPostponed cfg param r a q ;;
     QResult.ApplyPostponed cfg param x b q)%result
    (m <- QPostponed.ApplyPostponed cfg param a b ;;
     QResult.ApplyPostponed cfg param r m q)%result.
Proof.
  intros [Hap Han] [Hbp Hbn].
  unfold QResult.ApplyPostponed, QPostponed.ApplyPostponed.
  unfold DEBUG_ASSERT, LAB_NEITHER.
  cbn [QPostponed.label QPostponed.moment_info_pos QPostponed.moment_info_neg].
  destruct (DEBUG cfg).
  - destruct (Z.eqb_spec (Z.land (QResult.label r) (QPostponed.label a)) 0)
      as [Hra|Hra];
      destruct (Z.eqb_spec (Z.land (QPostponed.label a) (QPostponed.label b)) 0)
        as [Hab|Hab];
      cbn [negb bind QResult.label QPostponed.label
             QPostponed.moment_info_pos QPostponed.moment_info_neg
             QResult.density_pos QResult.density_neg].
    + exact I.
    + rewrite Z.land_assoc, Hra, Z.land_0_l. cbn. exact I.
    + rewrite <- Z.land_assoc, Hab, Z.land_0_r. cbn. exact I.
    + rewrite <- Z.land_assoc.
      destruct (Z.eqb_spec
                  (Z.land (QResult.label r)
                     (Z.land (QPostponed.label a) (QPostponed.label b))) 0);
        cbn [negb bind Result_rel]; [exact I|].
      split; [|split; [|reflexivity]].
      * apply (@density_after_both (QResult.density_pos r) _ _ (NbcPoint.vec q) Hap Hbp).
      * apply (@density_after_both (QResult.density_neg r) _ _ (NbcPoint.vec q) Han Hbn).
  - cbn [negb bind Result_rel QResult.label QPostponed.label
             QPostponed.moment_info_pos QPostponed.moment_info_neg
             QResult.density_pos QResult.density_neg].
    split; [|split; [|symmetry; apply Z.land_assoc]].
    + apply (@density_after_both (QResult.density_pos r) _ _ (NbcPoint.vec q) Hap Hbp).
    + apply (@density_after_both (QResult.density_neg r) _ _ (NbcPoint.vec q) Han Hbn).
Qed.
End Exact_postponed.

(** ** The bottom-up pass over a query node's results

    Exact rational arithmetic. *)

Section Exact_reaccumulate.
Local Open Scope Q_scope.
Variables (cfg : Build) (param : Param.t Q).

Local Abbreviation accumulate_all :=
  (fold_left
     (fun acc r => a <- acc ;; QSummaryResult.Accumulate cfg param a r)%result).

Lemma label_within_lor (l m x : Z) :
  label_within l m -> label_within l (Z.lor m x).
Proof.
  unfold label_within. intros H.
  rewrite Z.land_lor_distr_r, H. apply Z.bits_inj'. intros k _.
  rewrite Z.lor_spec, Z.land_spec. now destruct (Z.testbit l k).
Qed.

Lemma label_within_lor_r (m x : Z) : label_within x (Z.lor m x).
Proof.
  unfold label_within. apply Z.bits_inj'. intros k _.
  rewrite Z.land_spec, Z.lor_spec.
  now destruct (Z.testbit x k), (Z.testbit m k).
Qed.

Lemma label_within_narrowed (l m : Z) :
  label_within l m -> l <> LAB_NEITHER -> is_narrowed m -> l = m.
Proof.
  unfold label_within, is_narrowed, LAB_NEITHER, LAB_POS, LAB_NEG.
  intros Hl Hz [-> | ->].
  - assert (Hb : (0 <= l <= 1)%Z).
    { pose proof (Z.land_ones l 1) as Hmod.
      change (Z.ones 1) with 1%Z in Hmod. change (2 ^ 1)%Z with 2%Z in Hmod.
      pose proof (Z.mod_pos_bound l 2). lia. }
    lia.
  - destruct (Z.eq_dec l 2) as [|Hne]; trivial. exfalso.
    assert (Hbits : forall k, (0 <= k)%Z -> k <> 1%Z -> Z.testbit l k = false).
    { intros k Hk Hk1. rewrite <- Hl, Z.land_spec.
      replace (Z.testbit 2 k) with false; [apply andb_false_r|].
      symmetry. change 2%Z with (2 ^ 1)%Z. apply Z.pow2_bits_false. lia. }
    destruct (Z.testbit l 1) eqn:H1.
    + apply Hne. apply Z.bits_inj'. intros k Hk.
      destruct (Z.eq_dec k 1) as [->|Hk1]; [now rewrite H1|].
      rewrite (Hbits k Hk Hk1). symmetry.
      change 2%Z with (2 ^ 1)%Z. apply Z.pow2_bits_false. lia.
    + apply Hz. apply Z.bits_inj'. intros k Hk. rewrite Z.bits_0.
      destruct (Z.eq_dec k 1) as [->|Hk1]; trivial. now apply Hbits.
Qed.

Lemma accumulate_all_failed (rs : list (QResult.t Q)) :
  accumulate_all rs AssertionFailed = AssertionFailed.
Proof. induction rs as [|r rs IH]; cbn [fold_left bind]; trivial. Qed.

Lemma accumulate_all_covers (rs : list (QResult.t Q))
  (a a' : QSummaryResult.t Q) :
  accumulate_all rs (Ok a) = Ok a' ->
  (forall e, DRange_covers (QSummaryResult.density_pos a) e ->
             DRange_covers (QSummaryResult.density_pos a') e)
  /\ (forall e, DRange_covers (QSummaryResult.density_neg a) e ->
                DRange_covers (QSummaryResult.density_neg a') e)
  /\ (forall l, label_within l (QSummaryResult.label a) ->
                label_within l (QSummaryResult.label a'))
  /\ Forall (fun r =>
       DRange_covers (QSummaryResult.density_pos a') (QResult.density_pos r)
       /\ DRange_covers (QSummaryResult.density_neg a') (QResult.density_neg r)
       /\ label_within (QResult.label r) (QSummaryResult.label a')
       /\ (DEBUG cfg = true -> QResult.label r <> LAB_NEITHER)) rs.
Proof.
  revert a. induction rs as [|r rs IH]; intros a; cbn [fold_left bind].
  - intros [= <-]. split; [|split; [|split]]; auto.
  - unfold QSummaryResult.Accumulate at 2.
    destruct (DEBUG_ASSERT cfg _) eqn:Hassert; cbn [bind];
      [|rewrite accumulate_all_failed; discriminate].
    intros Hrun. destruct (IH _ Hrun) as (Hp & Hn & Hl & Hall). clear IH.
    cbn [QSummaryResult.density_pos QSummaryResult.density_neg
           QSummaryResult.label] in Hp, Hn, Hl.
    split; [|split; [|split]].
    + intros e He. apply Hp. now apply (proj2 (union_point_range _ _)).
    + intros e He. apply Hn. now apply (proj2 (union_point_range _ _)).
    + intros l Hw. apply Hl. now apply label_within_lor.
    + apply Forall_cons; [|exact Hall].
      split; [|split; [|split]].
      * apply Hp. apply (proj1 (union_point_range _ _)).
      * apply Hn. apply (proj1 (union_point_range _ _)).
      * apply Hl. apply label_within_lor_r.
      * intros Hd. unfold DEBUG_ASSERT in Hassert. rewrite Hd in Hassert.
        destruct (Z.eqb_spec (QResult.label r) LAB_NEITHER); [discriminate|].
        assumption.
Qed.

Lemma reaccumulate_bounds (q_node : ThorNode.t Q) (s s' : QSummaryResult.t Q)
  (rs : list (QResult.t Q)) :
  reaccumulate cfg param q_node s rs = Ok s' ->
  Forall (fun r =>
    DRange_covers (QSummaryResult.density_pos s') (QResult.density_pos r)
    /\ DRange_covers (QSummaryResult.density_neg s') (QResult.density_neg r)
    /\ label_within (QResult.label r) (QSummaryResult.label s')) rs
  /\ (DEBUG cfg = true -> is_narrowed (QSummaryResult.label s') ->
      Forall (fun r => QResult.label r = QSummaryResult.label s') rs).
Proof.
  unfold reaccumulate.
  destruct (fold_left _ rs _) as [a'|] eqn:Hrun; cbn [bind]; [|discriminate].
  unfold QSummaryResult.FinishReaccumulate. intros [= <-].
  destruct (accumulate_all_covers _ _ Hrun) as (_ & _ & _ & Hall).
  split.
  - eapply Forall_impl; [|exact Hall]. intros r (H1 & H2 & H3 & _). auto.
  - intros Hd Hnar. eapply Forall_impl; [|exact Hall].
    intros r (_ & _ & Hw & Hz). apply label_within_narrowed; auto.
Qed.
End Exact_reaccumulate.

(** ** Param::ComputeConsts

    Exact rational arithmetic. *)

Section Exact_consts.
Local Open Scope Q_scope.

Lemma Qdiv_lt_pos (a b N : Q) : 0 < N -> a < b -> a / N < b / N.
Proof.
  intros HN Hab. unfold Qdiv. apply Qmult_lt_compat_r; trivial.
  now apply Qinv_lt_0_compat.
Qed.

Lemma ComputeConsts_brackets (CalcNormConstant : Kernel.t Q -> Z -> Q)
  (p : Param.t Q) (count_pos_in count_neg_in : Z) :
  0 < Param.threshold p -> Param.threshold p < 1 ->
  0 < CalcNormConstant (Param.kernel_pos p) (Param.dim p) ->
  0 < CalcNormConstant (Param.kernel_neg p) (Param.dim p) ->
  (0 < count_pos_in)%Z -> (0 < count_neg_in)%Z ->
  let p' := Param.ComputeConsts CalcNormConstant p count_pos_in count_neg_in in
  let norm_pos :=
    CalcNormConstant (Param.kernel_pos p) (Param.dim p) * inject_Z count_pos_in in
  let norm_neg :=
    CalcNormConstant (Param.kernel_neg p) (Param.dim p) * inject_Z count_neg_in in
  (0 < DRange.lo (Param.const_pos p')
   /\ DRange.lo (Param.const_pos p') < (1 - Param.threshold p) / norm_pos
   /\ (1 - Param.threshold p) / norm_pos < DRange.hi (Param.const_pos p'))
  /\ (0 < DRange.lo (Param.const_neg p')
      /\ DRange.lo (Param.const_neg p') < Param.threshold p / norm_neg
      /\ Param.threshold p / norm_neg < DRange.hi (Param.const_neg p'))
  /\ Param.count_pos p' = count_pos_in /\ Param.count_neg p' = count_neg_in.
Proof.
  intros Ht0 Ht1 Hnp Hnn Hcp Hcn. cbv zeta.
  unfold Param.ComputeConsts.
  cbn [Param.const_pos Param.const_neg Param.count_pos Param.count_neg
         DRange.lo DRange.hi].
  to_Q.
  set (eps := dmin (Param.threshold p) (1 - Param.threshold p)
              * (1 / inject_Z 1000)).
  assert (Heps : 0 < eps /\ eps < Param.threshold p
                 /\ eps < 1 - Param.threshold p).
  { unfold eps, dmin.
    assert (Hk : 1 / inject_Z 1000 == 1 # 1000) by reflexivity.
    destruct (Q_dlt_spec (1 - Param.threshold p) (Param.threshold p));
      rewrite Hk; lra. }
  destruct Heps as (He0 & Het & He1).
  assert (HNp : 0 < CalcNormConstant (Param.kernel_pos p) (Param.dim p)
                    * inject_Z count_pos_in).
  { apply Qmult_lt_0_compat; trivial. now apply index_positive. }
  assert (HNn : 0 < CalcNormConstant (Param.kernel_neg p) (Param.dim p)
                    * inject_Z count_neg_in).
  { apply Qmult_lt_0_compat; trivial. now apply index_positive. }
  assert (Hzero : forall N, 0 / N == 0) by (intros N; unfold Qdiv; ring).
  split; [|split; [|split; reflexivity]].
  - split; [|split].
    + rewrite <- (Hzero (CalcNormConstant (Param.kernel_pos p) (Param.dim p)
                         * inject_Z count_pos_in)).
      apply Qdiv_lt_pos; trivial; lra.
    + apply Qdiv_lt_pos; trivial; lra.
    + apply Qdiv_lt_pos; trivial; lra.
  - split; [|split].
    + rewrite <- (Hzero (CalcNormConstant (Param.kernel_neg p) (Param.dim p)
                         * inject_Z count_neg_in)).
      apply Qdiv_lt_pos; trivial; lra.
    + apply Qdiv_lt_pos; trivial; lra.
    + apply Qdiv_lt_pos; trivial; lra.
Qed.
End Exact_consts.

(** ** The statistic of a parent node

    Exact rational arithmetic. *)

Section Exact_parent.
Local Open Scope Q_scope.
Variables (cfg : Build) (param : Param.t Q).

Local Abbreviation n := (Z.to_nat (Param.dim param)).

Lemma point_moment_wf (k : nat) (p : la.Vector Q) :
  length p = k -> MomentInfo_wf k (point_moment p).
Proof.
  intros Hp. unfold MomentInfo_wf, point_moment. cbn.
  split; [exact Hp|]. split; [lia|]. intros Hz. discriminate.
Qed.

Lemma accumulate_points_moments (k : nat) (ps : list (NbcPoint.t Q))
  (s1 s2 : NbcStat.t Q) (mp mn : MomentInfo.t Q) :
  Forall (fun p => length (NbcPoint.vec p) = k) ps ->
  MomentInfo_wf k mp -> MomentInfo_wf k mn ->
  NbcStat_consistent k s2 ->
  NbcStat.moment_info_pos s1 = MomentInfo.Add mp (NbcStat.moment_info_pos s2) ->
  NbcStat.moment_info_neg s1 = MomentInfo.Add mn (NbcStat.moment_info_neg s2) ->
  NbcStat.moment_info_pos (accumulate_points param ps s1)
  = MomentInfo.Add mp (NbcStat.moment_info_pos (accumulate_points param ps s2))
  /\ NbcStat.moment_info_neg (accumulate_points param ps s1)
     = MomentInfo.Add mn
         (NbcStat.moment_info_neg (accumulate_points param ps s2)).
Proof.
  intros Hps Hmp Hmn. revert s1 s2.
  induction Hps as [|p ps Hp _ IH]; intros s1 s2 Hs2 Hpos Hneg.
  - unfold accumulate_points. cbn [fold_left]. now split.
  - unfold accumulate_points in *. cbn [fold_left].
    destruct (@Accumulate_point_consistent _ _ k param s2 p Hs2 Hp)
      as (Hs2' & _).
    apply IH; trivial; clear IH;
      destruct Hs2 as (Hw2p & Hw2n & _);
      unfold NbcStat.Accumulate_point; destruct (NbcPoint.is_pos p);
      cbn [NbcStat.moment_info_pos NbcStat.moment_info_neg]; trivial.
    + rewrite Hpos.
      apply (Add_assoc Q_dadd_assoc Q_dadd_0_l Hmp Hw2p
               (@point_moment_wf k _ Hp)).
    + rewrite Hneg.
      apply (Add_assoc Q_dadd_assoc Q_dadd_0_l Hmn Hw2n
               (@point_moment_wf k _ Hp)).
Qed.

Lemma Bound_union_length (k : nat) (b o : Bound.t Q) :
  length b = k -> length o = k -> length (Bound.union b o) = k.
Proof.
  revert b o. induction k as [|k IH]; intros [|r b] [|s o]; try discriminate;
    cbn [Bound.union length]; trivial.
  intros Hb Ho. injection Hb as Hb. injection Ho as Ho.
  now rewrite (IH b o Hb Ho).
Qed.

Lemma Accumulate_covers (k : nat) (s t : NbcStat.t Q) (b : Bound.t Q)
  (c : Z) :
  length (NbcStat.bound_pos s) = k -> length (NbcStat.bound_neg s) = k ->
  length (NbcStat.bound_pos t) = k -> length (NbcStat.bound_neg t) = k ->
  forall p : NbcPoint.t Q,
  (Bound_covers k
     (if NbcPoint.is_pos p then NbcStat.bound_pos s else NbcStat.bound_neg s)
     (NbcPoint.vec p)
   /\ DRange_covers (NbcStat.pi_pos s) (NbcPoint.pi_pos p)
   /\ DRange_covers (NbcStat.pi_neg s) (NbcPoint.pi_neg p))
  \/ (Bound_covers k
        (if NbcPoint.is_pos p then NbcStat.bound_pos t else NbcStat.bound_neg t)
        (NbcPoint.vec p)
      /\ DRange_covers (NbcStat.pi_pos t) (NbcPoint.pi_pos p)
      /\ DRange_covers (NbcStat.pi_neg t) (NbcPoint.pi_neg p)) ->
  Bound_covers k
    (if NbcPoint.is_pos p
     then NbcStat.bound_pos (NbcStat.Accumulate param s t b c)
     else NbcStat.bound_neg (NbcStat.Accumulate param s t b c))
    (NbcPoint.vec p)
  /\ DRange_covers (NbcStat.pi_pos (NbcStat.Accumulate param s t b c))
       (NbcPoint.pi_pos p)
  /\ DRange_covers (NbcStat.pi_neg (NbcStat.Accumulate param s t b c))
       (NbcPoint.pi_neg p).
Proof.
  intros Hsp Hsn Htp Htn p Hp.
  cbn [NbcStat.Accumulate NbcStat.bound_pos NbcStat.bound_neg
         NbcStat.pi_pos NbcStat.pi_neg].
  split; [|split].
  - destruct (NbcPoint.is_pos p); apply Bound_union_covers; trivial; tauto.
  - apply union_range. tauto.
  - apply union_range. tauto.
Qed.

Lemma parent_statistic (s0 : NbcStat.t Q) (ps ps' : list (NbcPoint.t Q))
  (b1 b2 : Bound.t Q) (k1 k2 : Z) :
  NbcStat.Init cfg param = Ok s0 ->
  Forall (fun p => length (NbcPoint.vec p) = n) ps ->
  Forall (fun p => length (NbcPoint.vec p) = n) ps' ->
  let parent :=
    NbcStat.Accumulate param
      (NbcStat.Accumulate param s0 (accumulate_points param ps s0) b1 k1)
      (accumulate_points param ps' s0) b2 k2 in
  let flat := accumulate_points param (ps ++ ps') s0 in
  NbcStat.moment_info_pos parent = NbcStat.moment_info_pos flat
  /\ NbcStat.moment_info_neg parent = NbcStat.moment_info_neg flat
  /\ NbcStat.count_pos parent = NbcStat.count_pos flat
  /\ NbcStat.count_neg parent = NbcStat.count_neg flat
  /\ Forall (fun p =>
       Bound_covers n
         (if NbcPoint.is_pos p then NbcStat.bound_pos parent
          else NbcStat.bound_neg parent) (NbcPoint.vec p)
       /\ DRange_covers (NbcStat.pi_pos parent) (NbcPoint.pi_pos p)
       /\ DRange_covers (NbcStat.pi_neg parent) (NbcPoint.pi_neg p))
      (ps ++ ps').
Proof.
  intros Hinit Hps Hps'. cbv zeta.
  destruct (NbcStat_Init_consistent cfg param Hinit) as (Hs0 & Hp0 & Hn0).
  destruct (@accumulate_points_consistent _ _ _ n param ps s0 Hs0 Hps)
    as (Hs & Hcp & Hcn).
  destruct (@accumulate_points_consistent _ _ _ n param ps' s0 Hs0 Hps')
    as (Hs' & Hcp' & Hcn').
  assert (Happ : Forall (fun p => length (NbcPoint.vec p) = n) (ps ++ ps'))
    by (apply Forall_app; now split).
  destruct (@accumulate_points_consistent _ _ _ n param (ps ++ ps') s0 Hs0 Happ)
    as (_ & Hcpa & Hcna).
  assert (Hflat : accumulate_points param (ps ++ ps') s0
                  = accumulate_points param ps' (accumulate_points param ps s0))
    by (unfold accumulate_points; apply fold_left_app).
  pose proof Hs0 as (Hw0p & Hw0n & Hc0p & Hc0n).
  pose proof Hs as (Hwp & Hwn & _).
  destruct (@accumulate_points_moments n ps' (accumulate_points param ps s0) s0
              (NbcStat.moment_info_pos (accumulate_points param ps s0))
              (NbcStat.moment_info_neg (accumulate_points param ps s0))
              Hps' Hwp Hwn Hs0) as [Hmp Hmn];
    try (symmetry; apply Add_empty; congruence).
  cbn [NbcStat.Accumulate NbcStat.moment_info_pos NbcStat.moment_info_neg
         NbcStat.count_pos NbcStat.count_neg NbcStat.bound_pos
         NbcStat.bound_neg NbcStat.pi_pos NbcStat.pi_neg].
  split; [|split; [|split; [|split]]].
  - rewrite Hflat, Hmp.
    rewrite (@Add_into_empty _ _ Q_dadd_0_l n _ _ Hw0p Hwp) by congruence.
    reflexivity.
  - rewrite Hflat, Hmn.
    rewrite (@Add_into_empty _ _ Q_dadd_0_l n _ _ Hw0n Hwn) by congruence.
    reflexivity.
  - rewrite Hcpa, Hcp, Hcp'. unfold class_points.
    rewrite filter_app, map_app, length_app. lia.
  - rewrite Hcna, Hcn, Hcn'. unfold class_points.
    rewrite filter_app, map_app, length_app. lia.
  - pose proof (@leaf_stat_covers cfg param s0 ps Hinit Hps) as Hcov.
    pose proof (@leaf_stat_covers cfg param s0 ps' Hinit Hps') as Hcov'.
    assert (Hb0 : length (NbcStat.bound_pos s0) = n
                  /\ length (NbcStat.bound_neg s0) = n).
    { revert Hinit. unfold NbcStat.Init, MomentInfo.Init.
      destruct (DEBUG_ASSERT cfg _); simpl; [|discriminate].
      intros [= <-]. simpl. split; apply Bound_Init_length. }
    destruct Hb0 as [Hb0p Hb0n].
    destruct (@accumulate_points_covers n param ps s0 Hb0p Hb0n Hps)
      as (Hlp & Hln & _).
    destruct (@accumulate_points_covers n param ps' s0 Hb0p Hb0n Hps')
      as (Hlp' & Hln' & _).
    apply Forall_app. split.
    + eapply Forall_impl; [|exact Hcov]. intros p Hp.
      apply (@Accumulate_covers n
               (NbcStat.Accumulate param s0 (accumulate_points param ps s0) b1 k1)
               (accumulate_points param ps' s0) b2 k2); trivial;
        try (cbn [NbcStat.Accumulate NbcStat.bound_pos NbcStat.bound_neg];
             now apply Bound_union_length).
      left. apply (@Accumulate_covers n s0 (accumulate_points param ps s0) b1 k1);
        trivial. now right.
    + eapply Forall_impl; [|exact Hcov']. intros p Hp.
      apply (@Accumulate_covers n
               (NbcStat.Accumulate param s0 (accumulate_points param ps s0) b1 k1)
               (accumulate_points param ps' s0) b2 k2); trivial;
        try (cbn [NbcStat.Accumulate NbcStat.bound_pos NbcStat.bound_neg];
             now apply Bound_union_length).
      now right.
Qed.
End Exact_parent.

(** ** A SummaryResult keeps bounding its Results

    Exact rational arithmetic. *)

Section Exact_summary.
Local Open Scope Q_scope.
Variables (cfg : Build) (param : Param.t Q) (n : nat).

Lemma kernel_sum_in_range (m : MomentInfo.t Q) (query_bound : Bound.t Q)
  (q : la.Vector Q) :
  MomentInfo_wf n m -> MomentInfo.count m <> 0%Z ->
  Bound_covers n query_bound q ->
  0 <= Kernel.inv_bandwidth_sq (Param.kernel param) ->
  exists r,
    MomentInfo.ComputeKernelSumRange cfg param m query_bound = Ok r
    /\ DRange_covers r (MomentInfo.ComputeKernelSum param m q).
Proof.
  intros (Hm & Hc & _) Hnz (Hb & Hq & Hin) Hk.
  rewrite ComputeKernelSumRange_returns by exact Hnz.
  eexists. split; [reflexivity|].
  cbv zeta. unfold DRange_covers. cbn [DRange.lo DRange.hi].
  fold (centroid m). fold (centroid_norm_sq m).
  assert (Hpos : (0 < MomentInfo.count m)%Z) by lia.
  rewrite (@kernel_sum_closed_form param m q Hpos) by congruence.
  destruct (@distance_within_bound query_bound q (centroid m) Hin)
    as [Hmin Hmax]; try congruence.
  { unfold centroid, la.Scale. rewrite length_map. congruence. }
  split; apply closed_form_antitone; trivial.
Qed.

Lemma label_within_both (r s p : Z) :
  label_within r s -> label_within (Z.land r p) (Z.land s p).
Proof.
  unfold label_within. intros H. apply Z.bits_inj'. intros k _.
  assert (Hk : Z.testbit (Z.land r s) k = Z.testbit r k) by now rewrite H.
  rewrite !Z.land_spec in *.
  destruct (Z.testbit r k), (Z.testbit s k), (Z.testbit p k);
    trivial; discriminate.
Qed.

Lemma label_within_either (r s : Z) :
  label_within r s -> label_within (Z.land r LAB_EITHER) s.
Proof.
  unfold label_within. intros H. apply Z.bits_inj'. intros k _.
  assert (Hk : Z.testbit (Z.land r s) k = Z.testbit r k) by now rewrite H.
  rewrite !Z.land_spec in *.
  destruct (Z.testbit r k), (Z.testbit s k), (Z.testbit LAB_EITHER k);
    trivial; discriminate.
Qed.

Lemma summary_keeps_bounding (s s' : QSummaryResult.t Q)
  (change_made : option bool) (postponed : QPostponed.t Q)
  (q_node : ThorNode.t Q) (r r' : QResult.t Q) (q : NbcPoint.t Q) :
  QPostponed_wf n postponed ->
  Bound_covers n (ThorNode.bound q_node) (NbcPoint.vec q) ->
  0 <= Kernel.inv_bandwidth_sq (Param.kernel param) ->
  DRange_covers (QSummaryResult.density_pos s) (QResult.density_pos r) ->
  DRange_covers (QSummaryResult.density_neg s) (QResult.density_neg r) ->
  label_within (QResult.label r) (QSummaryResult.label s) ->
  QSummaryResult.ApplyPostponed cfg param s postponed q_node
  = Ok (s', change_made) ->
  QResult.ApplyPostponed cfg param r postponed q = Ok r' ->
  DRange_covers (QSummaryResult.density_pos s') (QResult.density_pos r')
  /\ DRange_covers (QSummaryResult.density_neg s') (QResult.density_neg r')
  /\ label_within (QResult.label r') (QSummaryResult.label s').
Proof.
  intros [Hwp Hwn] Hq Hk Hdp Hdn Hl.
  unfold QSummaryResult.ApplyPostponed, QResult.ApplyPostponed,
    MomentInfo.is_empty.
  destruct (DEBUG_ASSERT cfg
              (negb (Z.land (QResult.label r) (QPostponed.label postponed)
                     =? LAB_NEITHER)%Z)); cbn [bind]; [|intros _; discriminate].
  assert (Hlab :
    forall x : Result (QSummaryResult.t Q * option bool),
      x = (if negb (QPostponed.label postponed =? LAB_EITHER)%Z
           then (DEBUG_ASSERT cfg
                   (negb (Z.land (QSummaryResult.label s)
                            (QPostponed.label postponed) =? LAB_NEITHER)%Z) ;;;
                 Ok ({| QSummaryResult.density_pos := QSummaryResult.density_pos s;
                        QSummaryResult.density_neg := QSummaryResult.density_neg s;
                        QSummaryResult.label :=
                          Z.land (QSummaryResult.label s)
                            (QPostponed.label postponed) |}, Some true))%result
           else Ok (s, None)) ->
      forall s1 c1, x = Ok (s1, c1) ->
      QSummaryResult.density_pos s1 = QSummaryResult.density_pos s
      /\ QSummaryResult.density_neg s1 = QSummaryResult.density_neg s
      /\ label_within
           (Z.land (QResult.label r) (QPostponed.label postponed))
           (QSummaryResult.label s1)).
  { intros x -> s1 c1.
    destruct (Z.eqb_spec (QPostponed.label postponed) LAB_EITHER) as [He|He];
      cbn [negb].
    - intros [= <- <-]. rewrite He. repeat split.
      now apply label_within_either.
    - destruct (DEBUG_ASSERT cfg _); cbn [bind]; [|discriminate].
      intros [= <- <-]. cbn. repeat split. now apply label_within_both. }
  match goal with
  | |- context [bind ?x _] =>
      match x with
      | (if negb (QPostponed.label postponed =? LAB_EITHER)%Z then _ else _) =>
          specialize (Hlab x eq_refl); destruct x as [[s1 c1]|];
          cbn [bind]; [|intros; discriminate]
      end
  end.
  destruct (Hlab s1 c1 eq_refl) as (H1p & H1n & H1l). clear Hlab.
  destruct (Z.eqb_spec (MomentInfo.count (QPostponed.moment_info_pos postponed)) 0)
    as [Hzp|Hzp];
    destruct (Z.eqb_spec (MomentInfo.count (QPostponed.moment_info_neg postponed)) 0)
      as [Hzn|Hzn]; cbn [negb bind];
    try (destruct (@kernel_sum_in_range (QPostponed.moment_info_pos postponed)
                     (ThorNode.bound q_node) (NbcPoint.vec q) Hwp Hzp Hq Hk)
           as (rp & -> & Hrp1 & Hrp2); cbn [bind]);
    try (destruct (@kernel_sum_in_range (QPostponed.moment_info_neg postponed)
                     (ThorNode.bound q_node) (NbcPoint.vec q) Hwn Hzn Hq Hk)
           as (rn & -> & Hrn1 & Hrn2); cbn [bind]);
    intros [= <- <-] [= <-];
    cbn [QSummaryResult.density_pos QSummaryResult.density_neg
           QSummaryResult.label QResult.density_pos QResult.density_neg
           QResult.label DRange.add DRange.lo DRange.hi];
    rewrite ?H1p, ?H1n; unfold DRange_covers in *;
    cbn [DRange.add DRange.lo DRange.hi];
    unfold MomentInfo.ComputeKernelSum in *; to_Q;
    (split; [|split; [|exact H1l]]); lra.
Qed.
End Exact_summary.

(** ** The horizontal reduce over children

    Exact rational arithmetic. *)

Section Exact_children.
Local Open Scope Q_scope.

Lemma label_within_lor_l (l m x : Z) :
  label_within l x -> label_within l (Z.lor m x).
Proof. rewrite Z.lor_comm. apply label_within_lor. Qed.

Lemma Accumulate_summary_bounds (cfg : Build) (param : Param.t Q)
  (s child s' : QSummaryResult.t Q) (n_points : Z) :
  QSummaryResult.Accumulate_summary cfg param s child n_points = Ok s' ->
  (forall e, DRange_covers (QSummaryResult.density_pos s) e
             \/ DRange_covers (QSummaryResult.density_pos child) e ->
             DRange_covers (QSummaryResult.density_pos s') e)
  /\ (forall e, DRange_covers (QSummaryResult.density_neg s) e
                \/ DRange_covers (QSummaryResult.density_neg child) e ->
                DRange_covers (QSummaryResult.density_neg s') e)
  /\ (forall l, label_within l (QSummaryResult.label s)
                \/ label_within l (QSummaryResult.label child) ->
                label_within l (QSummaryResult.label s'))
  /\ (DEBUG cfg = true -> QSummaryResult.label s' <> LAB_NEITHER).
Proof.
  unfold QSummaryResult.Accumulate_summary.
  destruct (DEBUG_ASSERT cfg _) eqn:Hassert; cbn [bind]; [|discriminate].
  intros [= <-].
  cbn [QSummaryResult.density_pos QSummaryResult.density_neg
         QSummaryResult.label].
  split; [|split; [|split]].
  - intros e. apply union_range.
  - intros e. apply union_range.
  - intros l [Hl|Hl];
      [now apply label_within_lor | now apply label_within_lor_l].
  - intros Hd. unfold DEBUG_ASSERT in Hassert. rewrite Hd in Hassert.
    destruct (Z.eqb_spec (QSummaryResult.label child) LAB_NEITHER) as [|Hne];
      [discriminate|].
    intros Hz. apply Hne. unfold LAB_NEITHER in *.
    apply Z.lor_eq_0_iff in Hz. tauto.
Qed.
End Exact_children.

(** ** The Delta of the Approximate outcome

    Exact rational arithmetic. *)

Section Exact_approximate.
Local Open Scope Q_scope.

Lemma below_bandwidth (h d : Q) :
  d < h * h -> d * (1 / (h * h)) <= 1.
Proof.
  intros Hd. destruct (Qeq_dec (h * h) 0) as [Hz|Hz].
  - rewrite Hz. unfold Qdiv. change (/ 0) with 0. lra.
  - pose proof (Q_square_nonneg h) as Hsq.
    assert (Hpos : 0 < h * h) by lra.
    assert (Hinv : 0 < 1 / (h * h)).
    { unfold Qdiv. rewrite Qmult_1_l. now apply Qinv_lt_0_compat. }
    assert (Hone : h * h * (1 / (h * h)) == 1).
    { field. intros Hc. apply Hz. rewrite Hc. ring. }
    assert (Hle : 0 <= (h * h - d) * (1 / (h * h)))
      by (apply Qmult_le_0_compat; lra).
    lra.
Qed.

Lemma kernel_eval_bounds (h d d' : Q) :
  d <= d' ->
  0 <= Kernel.EvalUnnormOnSq (Kernel.Init h) d'
  /\ Kernel.EvalUnnormOnSq (Kernel.Init h) d'
     <= Kernel.EvalUnnormOnSq (Kernel.Init h) d.
Proof.
  intros Hle. unfold Kernel.EvalUnnormOnSq, Kernel.Init.
  cbn [Kernel.bandwidth_sq Kernel.inv_bandwidth_sq].
  pose proof (Init_inv_bandwidth_sq_nonneg h) as Hinv.
  unfold Kernel.Init in Hinv. cbn [Kernel.inv_bandwidth_sq] in Hinv.
  destruct (Q_dlt_spec d' (dmul h h)) as [H1|H1],
    (Q_dlt_spec d (dmul h h)) as [H2|H2]; to_Q.
  - pose proof (@below_bandwidth h d' H1).
    assert (0 <= (d' - d) * (1 / (h * h)))
      by (apply Qmult_le_0_compat; lra).
    lra.
  - lra.
  - pose proof (@below_bandwidth h d H2). lra.
  - lra.
Qed.

Lemma kernel_total_bounds (h : Q) (q : la.Vector Q) (pts : list (la.Vector Q))
  (d : Q) :
  Forall (fun x => d <= la.DistanceSqEuclidean q x) pts ->
  0 <= kernel_total (Kernel.Init h) q pts
  /\ kernel_total (Kernel.Init h) q pts
     <= inject_Z (Z.of_nat (length pts))
        * Kernel.EvalUnnormOnSq (Kernel.Init h) d.
Proof.
  induction 1 as [|x pts Hx _ IH]; cbn [kernel_total length].
  - change (Z.of_nat 0) with 0%Z. to_Q. lra.
  - destruct IH as [IH0 IH1].
    destruct (@kernel_eval_bounds h d _ Hx) as [He0 He1].
    rewrite Nat2Z.inj_succ. unfold Z.succ. rewrite inject_Z_plus. to_Q.
    lra.
Qed.

Variables (cfg : Build) (param : Param.t Q) (q_node r_node : ThorNode.t Q).
Variables (delta0 : Delta.t Q) (g0 : GlobalResult.t) (qp0 : QPostponed.t Q).
Variables (s0 : NbcStat.t Q) (rs : list (NbcPoint.t Q)) (h_neg : Q).

Local Abbreviation n := (Z.to_nat (Param.dim param)).
Local Abbreviation out :=
  (Algorithm.ConsiderPairIntrinsic cfg param q_node r_node delta0 g0 qp0).

Hypothesis Hinit : NbcStat.Init cfg param = Ok s0.
Hypothesis Hrs : Forall (fun p => length (NbcPoint.vec p) = n) rs.
Hypothesis Hstat : ThorNode.stat r_node = accumulate_points param rs s0.
Hypothesis Hkn : Param.kernel_neg param = Kernel.Init h_neg.

Lemma approximate_neg_brackets (q : la.Vector Q) :
  Bound_covers n (ThorNode.bound q_node) q ->
  Algorithm.outcome out = Algorithm.Approximate ->
  DRange_covers (Delta.d_density_neg (Algorithm.delta out))
    (kernel_total (Param.kernel_neg param) q (class_points false rs)).
Proof.
  intros Hq Hout.
  rewrite (approximate_delta_stored cfg param q_node r_node delta0 g0 qp0 Hout).
  cbn [Delta.d_density_neg]. unfold DRange_covers. cbn [DRange.lo DRange.hi].
  rewrite Hstat, Hkn.
  destruct (@leaf_stat_consistent cfg param s0 rs Hinit Hrs) as (_ & _ & Hcn).
  pose proof (@leaf_class_covered cfg param s0 rs Hinit Hrs false) as Hcov.
  cbn [negb] in Hcov.
  assert (Hfar :
    Forall (fun x =>
      Bound.MinDistanceSq
        (NbcStat.bound_neg (accumulate_points param rs s0))
        (ThorNode.bound q_node) <= la.DistanceSqEuclidean q x)
      (class_points false rs)).
  { eapply Forall_impl; [|exact Hcov]. intros x Hx. cbv beta.
    now apply (@pair_distance_between q_node n _ q x Hq Hx). }
  destruct (@kernel_total_bounds h_neg _ _ _ Hfar) as [H0 H1].
  rewrite Hcn.
  destruct (Z.ltb_spec 0 (Z.of_nat (length (class_points false rs))))
    as [Hc|Hc]; to_Q.
  - split; [exact H0 | exact H1].
  - assert (Hnil : class_points false rs = [])
      by (apply class_points_empty; lia).
    rewrite Hnil. cbn [kernel_total length]. to_Q.
    change (inject_Z (Z.of_nat 0)) with 0. lra.
Qed.
End Exact_approximate.

(** ** Query termination agrees with the per-point decision

    Exact rational arithmetic. *)

Section Exact_termination.
Local Open Scope Q_scope.
Variables (cfg : Build) (param : Param.t Q) (q_node : ThorNode.t Q).
Variables (s : QSummaryResult.t Q) (g0 : GlobalResult.t).
Variables (qp0 qp' : QPostponed.t Q) (r r' : QResult.t Q) (q : NbcPoint.t Q).

Hypothesis Hcp : range_ok (Param.const_pos param).
Hypothesis Hcn : range_ok (Param.const_neg param).
Hypothesis Hdp0 : 0 <= DRange.lo (QSummaryResult.density_pos s).
Hypothesis Hdn0 : 0 <= DRange.lo (QSummaryResult.density_neg s).
Hypothesis Hpp0 : 0 <= DRange.lo (NbcStat.pi_pos (ThorNode.stat q_node)).
Hypothesis Hpn0 : 0 <= DRange.lo (NbcStat.pi_neg (ThorNode.stat q_node)).
Hypothesis Hdp :
  DRange_covers (QSummaryResult.density_pos s) (QResult.density_pos r).
Hypothesis Hdn :
  DRange_covers (QSummaryResult.density_neg s) (QResult.density_neg r).
Hypothesis Hpp :
  DRange_covers (NbcStat.pi_pos (ThorNode.stat q_node)) (NbcPoint.pi_pos q).
Hypothesis Hpn :
  DRange_covers (NbcStat.pi_neg (ThorNode.stat q_node)) (NbcPoint.pi_neg q).

Lemma termination_agrees :
  QSummaryResult.label s = LAB_EITHER ->
  Algorithm.ConsiderQueryTermination cfg param q_node s g0 qp0
  = Ok (false, qp') ->
  QResult.Postprocess cfg param r q = Ok r' ->
  is_narrowed (QPostponed.label qp')
  /\ QResult.label r' = Z.land (QResult.label r) (QPostponed.label qp').
Proof.
  intros Hlabel.
  unfold Algorithm.ConsiderQueryTermination, QResult.Postprocess.
  destruct (DEBUG_ASSERT cfg _); cbn [bind]; [|discriminate].
  destruct (DEBUG_ASSERT cfg _); cbn [bind]; [|discriminate].
  rewrite Hlabel. cbn [Z.eqb LAB_EITHER Pos.eqb negb].
  destruct Hcp as [Hcp0 Hcp1], Hcn as [Hcn0 Hcn1].
  destruct Hdp as [Hdp1 Hdp2], Hdn as [Hdn1 Hdn2].
  destruct Hpp as [Hpp1 Hpp2], Hpn as [Hpn1 Hpn2].
  pose proof (@triple_product_mono
                (DRange.lo (Param.const_pos param))
                (DRange.lo (Param.const_pos param))
                (DRange.lo (QSummaryResult.density_pos s))
                (QResult.density_pos r)
                (DRange.lo (NbcStat.pi_pos (ThorNode.stat q_node)))
                (NbcPoint.pi_pos q)) as Hlo_pos.
  pose proof (@triple_product_mono
                (DRange.lo (Param.const_neg param))
                (DRange.lo (Param.const_neg param))
                (DRange.lo (QSummaryResult.density_neg s))
                (QResult.density_neg r)
                (DRange.lo (NbcStat.pi_neg (ThorNode.stat q_node)))
                (NbcPoint.pi_neg q)) as Hlo_neg.
  pose proof (@triple_product_mono
                (DRange.hi (Param.const_pos param))
                (DRange.hi (Param.const_pos param))
                (QResult.density_pos r)
                (DRange.hi (QSummaryResult.density_pos s))
                (NbcPoint.pi_pos q)
                (DRange.hi (NbcStat.pi_pos (ThorNode.stat q_node))))
    as Hhi_pos.
  pose proof (@triple_product_mono
                (DRange.hi (Param.const_neg param))
                (DRange.hi (Param.const_neg param))
                (QResult.density_neg r)
                (DRange.hi (QSummaryResult.density_neg s))
                (NbcPoint.pi_neg q)
                (DRange.hi (NbcStat.pi_neg (ThorNode.stat q_node))))
    as Hhi_neg.
  pose proof (@triple_product_mono
                (DRange.lo (Param.const_pos param))
                (DRange.hi (Param.const_pos param))
                (QResult.density_pos r) (QResult.density_pos r)
                (NbcPoint.pi_pos q) (NbcPoint.pi_pos q)) as Hc_pos.
  pose proof (@triple_product_mono
                (DRange.lo (Param.const_neg param))
                (DRange.hi (Param.const_neg param))
                (QResult.density_neg r) (QResult.density_neg r)
                (NbcPoint.pi_neg q) (NbcPoint.pi_neg q)) as Hc_neg.
  assert (Hlo_pos' := Hlo_pos ltac:(lra) ltac:(lra) ltac:(lra) ltac:(lra)
                        ltac:(lra) ltac:(lra)).
  assert (Hlo_neg' := Hlo_neg ltac:(lra) ltac:(lra) ltac:(lra) ltac:(lra)
                        ltac:(lra) ltac:(lra)).
  assert (Hhi_pos' := Hhi_pos ltac:(lra) ltac:(lra) ltac:(lra) ltac:(lra)
                        ltac:(lra) ltac:(lra)).
  assert (Hhi_neg' := Hhi_neg ltac:(lra) ltac:(lra) ltac:(lra) ltac:(lra)
                        ltac:(lra) ltac:(lra)).
  assert (Hc_pos' := Hc_pos ltac:(lra) ltac:(lra) ltac:(lra) ltac:(lra)
                       ltac:(lra) ltac:(lra)).
  assert (Hc_neg' := Hc_neg ltac:(lra) ltac:(lra) ltac:(lra) ltac:(lra)
                       ltac:(lra) ltac:(lra)).
  clear Hlo_pos Hlo_neg Hhi_pos Hhi_neg Hc_pos Hc_neg.
  repeat match goal with
         | |- context [dlt ?a ?b] =>
             destruct (Q_dlt_spec a b)
         end; to_Q; try (exfalso; lra);
    try (intros [= <-]; fail);
    destruct (DEBUG_ASSERT cfg _); cbn [bind]; try discriminate;
    intros [= <-] [= <-]; cbn [QPostponed.with_label QPostponed.label
                                 QResult.with_label QResult.label];
    (split; [(left; reflexivity) || (right; reflexivity) | reflexivity]).
Qed.
End Exact_termination.

(** ** Interval contributions

    Exact rational arithmetic. *)

Section Exact_contributions.
Local Open Scope Q_scope.

Lemma add_covers (a b : DRange.t Q) (x y : Q) :
  DRange_covers a x -> DRange_covers b y -> DRange_covers (DRange.add a b) (x + y).
Proof.
  unfold DRange_covers, DRange.add. cbn [DRange.lo DRange.hi]. to_Q.
  intros [? ?] [? ?]. split; lra.
Qed.

Lemma label_within_land (l a b : Z) :
  label_within l a -> label_within l b -> label_within l (Z.land a b).
Proof.
  unfold label_within. intros Ha Hb.
  now rewrite Z.land_assoc, Ha, Hb.
Qed.

Lemma contributions_keep_bounding (cfg : Build) (param : Param.t Q)
  (s other s' : QSummaryResult.t Q) (delta : Delta.t Q) (r : QResult.t Q)
  (c_pos c_neg : Q) :
  DRange_covers (QSummaryResult.density_pos s) (QResult.density_pos r) ->
  DRange_covers (QSummaryResult.density_neg s) (QResult.density_neg r) ->
  (DRange_covers (Delta.d_density_pos delta) c_pos ->
   DRange_covers (Delta.d_density_neg delta) c_neg ->
   DRange_covers
     (QSummaryResult.density_pos (QSummaryResult.ApplyDelta param s delta))
     (QResult.density_pos r + c_pos)
   /\ DRange_covers
        (QSummaryResult.density_neg (QSummaryResult.ApplyDelta param s delta))
        (QResult.density_neg r + c_neg)
   /\ QSummaryResult.label (QSummaryResult.ApplyDelta param s delta)
      = QSummaryResult.label s)
  /\ (QSummaryResult.ApplySummaryResult cfg param s other = Ok s' ->
      DRange_covers (QSummaryResult.density_pos other) c_pos ->
      DRange_covers (QSummaryResult.density_neg other) c_neg ->
      DRange_covers (QSummaryResult.density_pos s')
        (QResult.density_pos r + c_pos)
      /\ DRange_covers (QSummaryResult.density_neg s')
           (QResult.density_neg r + c_neg)
      /\ (label_within (QResult.label r) (QSummaryResult.label s) ->
          label_within (QResult.label r) (QSummaryResult.label other) ->
          label_within (QResult.label r) (QSummaryResult.label s'))).
Proof.
  intros Hp Hn. split.
  - intros Hcp Hcn. unfold QSummaryResult.ApplyDelta.
    cbn [QSummaryResult.density_pos QSummaryResult.density_neg
           QSummaryResult.label].
    split; [|split; [|reflexivity]]; now apply add_covers.
  - unfold QSummaryResult.ApplySummaryResult.
    destruct (DEBUG_ASSERT cfg _); cbn [bind]; [|discriminate].
    intros [= <-] Hcp Hcn.
    cbn [QSummaryResult.density_pos QSummaryResult.density_neg
           QSummaryResult.label].
    split; [|split]; try (now apply add_covers).
    apply label_within_land.
Qed.
End Exact_contributions.

(** * Further properties: the statements *)

(** ** NbcStat *)

(** X4.  The statistic that [NbcStat::Init] and then
    [Accumulate(param, point)] for each point of a leaf build is
    consistent: both summaries are well-formed over the data's dimension,
    [count_pos] and [count_neg] equal the summaries' counts, and they are
    the numbers of positive and negative points accumulated. *)
Theorem NbcStat_accumulate_consistent {D : Type} `{Double D} `{Limits D}
  (cfg : Build) (param : Param.t D) (s0 : NbcStat.t D)
  (ps : list (NbcPoint.t D)) :
  NbcStat.Init cfg param = Ok s0 ->
  Forall (fun p => length (NbcPoint.vec p) = Z.to_nat (Param.dim param)) ps ->
  NbcStat_consistent (Z.to_nat (Param.dim param))
    (accumulate_points param ps s0)
  /\ NbcStat.count_pos (accumulate_points param ps s0)
     = Z.of_nat (length (class_points true ps))
  /\ NbcStat.count_neg (accumulate_points param ps s0)
     = Z.of_nat (length (class_points false ps)).
Proof.
  intros Hinit Hps.
  destruct (NbcStat_Init_consistent cfg param Hinit) as (Hs0 & Hp0 & Hn0).
  destruct (@accumulate_points_consistent _ _ _ _ param ps s0 Hs0 Hps)
    as (Hs & Hp & Hn).
  split; [exact Hs|]. split; lia.
Qed.

(** X5.  Over exact arithmetic, after [NbcStat::Init] and
    [Accumulate(param, point)] for each point, [bound_pos] contains every
    positive point and [bound_neg] every negative point accumulated, and
    [pi_pos] and [pi_neg] contain every point's prior [pi] and [1 - pi]. *)
Theorem NbcStat_bounds_cover_points (cfg : Build) (param : Param.t Q)
  (s0 : NbcStat.t Q) (ps : list (NbcPoint.t Q)) :
  NbcStat.Init cfg param = Ok s0 ->
  Forall (fun p => length (NbcPoint.vec p) = Z.to_nat (Param.dim param)) ps ->
  Forall (fun p =>
    Bound_covers (Z.to_nat (Param.dim param))
      (if NbcPoint.is_pos p
       then NbcStat.bound_pos (accumulate_points param ps s0)
       else NbcStat.bound_neg (accumulate_points param ps s0))
      (NbcPoint.vec p)
    /\ DRange_covers (NbcStat.pi_pos (accumulate_points param ps s0))
         (NbcPoint.pi_pos p)
    /\ DRange_covers (NbcStat.pi_neg (accumulate_points param ps s0))
         (NbcPoint.pi_neg p)) ps.
Proof. intros Hinit Hps. exact (@leaf_stat_covers cfg param s0 ps Hinit Hps). Qed.

(** X6.  Over exact arithmetic, the statistic of a parent, built by
    [NbcStat::Init] and [Accumulate(param, stat, bound, n)] with the
    statistics of its two children, has the summaries and the counts of
    the statistic built point by point from the points of both children,
    and its Bounds and prior ranges cover all of those points. *)
Theorem NbcStat_parent_statistic (cfg : Build) (param : Param.t Q)
  (s0 : NbcStat.t Q) (ps ps' : list (NbcPoint.t Q)) (b1 b2 : Bound.t Q)
  (k1 k2 : Z) :
  NbcStat.Init cfg param = Ok s0 ->
  Forall (fun p => length (NbcPoint.vec p) = Z.to_nat (Param.dim param)) ps ->
  Forall (fun p => length (NbcPoint.vec p) = Z.to_nat (Param.dim param)) ps' ->
  let parent :=
    NbcStat.Accumulate param
      (NbcStat.Accumulate param s0 (accumulate_points param ps s0) b1 k1)
      (accumulate_points param ps' s0) b2 k2 in
  let flat := accumulate_points param (ps ++ ps') s0 in
  NbcStat.moment_info_pos parent = NbcStat.moment_info_pos flat
  /\ NbcStat.moment_info_neg parent = NbcStat.moment_info_neg flat
  /\ NbcStat.count_pos parent = NbcStat.count_pos flat
  /\ NbcStat.count_neg parent = NbcStat.count_neg flat
  /\ Forall (fun p =>
       Bound_covers (Z.to_nat (Param.dim param))
         (if NbcPoint.is_pos p then NbcStat.bound_pos parent
          else NbcStat.bound_neg parent) (NbcPoint.vec p)
       /\ DRange_covers (NbcStat.pi_pos parent) (NbcPoint.pi_pos p)
       /\ DRange_covers (NbcStat.pi_neg parent) (NbcPoint.pi_neg p))
      (ps ++ ps').
Proof.
  intros Hinit Hps Hps'.
  exact (@parent_statistic cfg param s0 ps ps' b1 b2 k1 k2 Hinit Hps Hps').
Qed.

(** ** Kernel sums from summaries *)

(** X7.  Over exact arithmetic, [ComputeKernelSum] is additive over
    [MomentInfo::Add]: the kernel sum of a merged summary at a query point
    is the sum of the kernel sums of the two summaries merged. *)
Theorem ComputeKernelSum_additive (n : nat) (param : Param.t Q)
  (a b : MomentInfo.t Q) (q : la.Vector Q) :
  MomentInfo_wf n a -> MomentInfo_wf n b ->
  (MomentInfo.ComputeKernelSum param (MomentInfo.Add a b) q
   == MomentInfo.ComputeKernelSum param a q
      + MomentInfo.ComputeKernelSum param b q)%Q.
Proof. intros Ha Hb. now apply (@ComputeKernelSum_Add n). Qed.

(** X8.  Over exact arithmetic, [ComputeKernelSum] on a class summary of a
    leaf's statistic is the sum, over the points of the class, of the
    kernel profile [1 - d^2 * inv_bandwidth_sq] at the squared distance
    [d^2] from the query point; when every point of the class is nearer
    than the bandwidth that is the brute-force sum of [EvalUnnormOnSq]. *)
Theorem ComputeKernelSum_sums_profiles (cfg : Build) (param : Param.t Q)
  (s0 : NbcStat.t Q) (ps : list (NbcPoint.t Q)) (q : la.Vector Q) :
  NbcStat.Init cfg param = Ok s0 ->
  Forall (fun p => length (NbcPoint.vec p) = Z.to_nat (Param.dim param)) ps ->
  length q = Z.to_nat (Param.dim param) ->
  (MomentInfo.ComputeKernelSum param
     (NbcStat.moment_info_pos (accumulate_points param ps s0)) q
   == profile_total (Param.kernel param) q (class_points true ps))%Q
  /\ (MomentInfo.ComputeKernelSum param
        (NbcStat.moment_info_neg (accumulate_points param ps s0)) q
      == profile_total (Param.kernel param) q (class_points false ps))%Q
  /\ forall pos : bool,
       Forall (fun x => (la.DistanceSqEuclidean q x
                         < Kernel.bandwidth_sq (Param.kernel param))%Q)
         (class_points pos ps) ->
       profile_total (Param.kernel param) q (class_points pos ps)
       = kernel_total (Param.kernel param) q (class_points pos ps).
Proof.
  intros Hinit Hps Hq.
  destruct (@leaf_class_sum cfg param s0 ps Hinit Hps q Hq) as [Hp Hn].
  split; [exact Hp|]. split; [exact Hn|].
  intros pos Hall. now apply profile_is_kernel.
Qed.

(** ** ConsiderPairIntrinsic *)

(** X9.  Exclusion is sound.  Over exact arithmetic and with kernels built
    by [Init]: when [ConsiderPairIntrinsic] ends in Exclusion, for every
    query point inside the query node's Bound and every point inside the
    Bound of a non-empty reference class, the kernel of that class is zero
    at their squared distance. *)
Theorem ConsiderPairIntrinsic_Exclusion_sound (cfg : Build)
  (param : Param.t Q) (q_node r_node : ThorNode.t Q) (delta0 : Delta.t Q)
  (g0 : GlobalResult.t) (qp0 : QPostponed.t Q) (h_pos h_neg : Q) (n : nat)
  (q : la.Vector Q) :
  Param.kernel_pos param = Kernel.Init h_pos ->
  Param.kernel_neg param = Kernel.Init h_neg ->
  Algorithm.outcome
    (Algorithm.ConsiderPairIntrinsic cfg param q_node r_node delta0 g0 qp0)
  = Algorithm.Exclusion ->
  Bound_covers n (ThorNode.bound q_node) q ->
  (0 < NbcStat.count_pos (ThorNode.stat r_node) ->
   forall x, Bound_covers n (NbcStat.bound_pos (ThorNode.stat r_node)) x ->
   Kernel.EvalUnnormOnSq (Param.kernel_pos param)
     (la.DistanceSqEuclidean q x) = of_index 0)
  /\ (0 < NbcStat.count_neg (ThorNode.stat r_node) ->
      forall x, Bound_covers n (NbcStat.bound_neg (ThorNode.stat r_node)) x ->
      Kernel.EvalUnnormOnSq (Param.kernel_neg param)
        (la.DistanceSqEuclidean q x) = of_index 0).
Proof.
  intros Hkp Hkn Hout Hq.
  exact (@exclusion_zero cfg param q_node r_node delta0 g0 qp0 n h_pos h_neg
           Hkp Hkn Hout q Hq).
Qed.

(** X10.  What Inclusion guarantees.  Over exact arithmetic, when
    [ConsiderPairIntrinsic] ends in Inclusion, every query point inside the
    query node's Bound is, in the build that checks the classes
    separately, nearer than the class's bandwidth to every point inside
    the Bound of a non-empty reference class; in the default build it is
    nearer than the positive bandwidth to every point inside the reference
    node's Bound. *)
Theorem ConsiderPairIntrinsic_Inclusion_within (cfg : Build)
  (param : Param.t Q) (q_node r_node : ThorNode.t Q) (delta0 : Delta.t Q)
  (g0 : GlobalResult.t) (qp0 : QPostponed.t Q) (n : nat) (q : la.Vector Q) :
  Algorithm.outcome
    (Algorithm.ConsiderPairIntrinsic cfg param q_node r_node delta0 g0 qp0)
  = Algorithm.Inclusion ->
  Bound_covers n (ThorNode.bound q_node) q ->
  (CHECK_POS_NEG_BOUNDS cfg = true ->
   (0 < NbcStat.count_pos (ThorNode.stat r_node) ->
    forall x, Bound_covers n (NbcStat.bound_pos (ThorNode.stat r_node)) x ->
    (la.DistanceSqEuclidean q x
     < Kernel.bandwidth_sq (Param.kernel_pos param))%Q)
   /\ (0 < NbcStat.count_neg (ThorNode.stat r_node) ->
       forall x, Bound_covers n (NbcStat.bound_neg (ThorNode.stat r_node)) x ->
       (la.DistanceSqEuclidean q x
        < Kernel.bandwidth_sq (Param.kernel_neg param))%Q))
  /\ (CHECK_POS_NEG_BOUNDS cfg = false ->
      forall x, Bound_covers n (ThorNode.bound r_node) x ->
      (la.DistanceSqEuclidean q x
       < Kernel.bandwidth_sq (Param.kernel_pos param))%Q).
Proof.
  intros Hout Hq.
  exact (@inclusion_within cfg param q_node r_node delta0 g0 qp0 n Hout q Hq).
Qed.

(** X11.  Inclusion is exact.  Over exact arithmetic, in the build that
    checks the classes separately, with the reference node's statistic
    built from its points: when [ConsiderPairIntrinsic] ends in Inclusion,
    the kernel sum of the Postponed's summary of a class, at any query
    point inside the query node's Bound, grows by the brute-force kernel
    sum over the reference points of that class, provided the kernel that
    [ComputeKernelSum] reads is the kernel of that class. *)
Theorem ConsiderPairIntrinsic_Inclusion_exact (cfg : Build)
  (param : Param.t Q) (q_node r_node : ThorNode.t Q) (delta0 : Delta.t Q)
  (g0 : GlobalResult.t) (qp0 : QPostponed.t Q) (s0 : NbcStat.t Q)
  (rs : list (NbcPoint.t Q)) (q : la.Vector Q) :
  NbcStat.Init cfg param = Ok s0 ->
  Forall (fun p => length (NbcPoint.vec p) = Z.to_nat (Param.dim param)) rs ->
  ThorNode.stat r_node = accumulate_points param rs s0 ->
  CHECK_POS_NEG_BOUNDS cfg = true ->
  QPostponed_wf (Z.to_nat (Param.dim param)) qp0 ->
  Bound_covers (Z.to_nat (Param.dim param)) (ThorNode.bound q_node) q ->
  Algorithm.outcome
    (Algorithm.ConsiderPairIntrinsic cfg param q_node r_node delta0 g0 qp0)
  = Algorithm.Inclusion ->
  (Param.kernel param = Param.kernel_pos param ->
   (MomentInfo.ComputeKernelSum param
      (QPostponed.moment_info_pos
         (Algorithm.q_postponed
            (Algorithm.ConsiderPairIntrinsic cfg param q_node r_node delta0
               g0 qp0))) q
    == MomentInfo.ComputeKernelSum param (QPostponed.moment_info_pos qp0) q
       + kernel_total (Param.kernel_pos param) q (class_points true rs))%Q)
  /\ (Param.kernel param = Param.kernel_neg param ->
      (MomentInfo.ComputeKernelSum param
         (QPostponed.moment_info_neg
            (Algorithm.q_postponed
               (Algorithm.ConsiderPairIntrinsic cfg param q_node r_node delta0
                  g0 qp0))) q
       == MomentInfo.ComputeKernelSum param (QPostponed.moment_info_neg qp0) q
          + kernel_total (Param.kernel_neg param) q (class_points false rs))%Q).
Proof.
  intros Hinit Hrs Hstat Hb Hwf Hq Hout.
  exact (@inclusion_postpones_exact cfg param q_node r_node delta0 g0 qp0 s0
           rs Hinit Hrs Hstat q Hb Hwf Hq Hout).
Qed.

(** X12.  Over exact arithmetic, with the negative kernel built by [Init]
    and the reference node's statistic built from its points: when
    [ConsiderPairIntrinsic] ends in Approximate, the interval it stores in
    [delta->d_density_neg] contains, for every query point inside the
    query node's Bound, the brute-force kernel sum over the negative
    reference points. *)
Theorem ConsiderPairIntrinsic_Approximate_neg_brackets (cfg : Build)
  (param : Param.t Q) (q_node r_node : ThorNode.t Q) (delta0 : Delta.t Q)
  (g0 : GlobalResult.t) (qp0 : QPostponed.t Q) (s0 : NbcStat.t Q)
  (rs : list (NbcPoint.t Q)) (h_neg : Q) (q : la.Vector Q) :
  NbcStat.Init cfg param = Ok s0 ->
  Forall (fun p => length (NbcPoint.vec p) = Z.to_nat (Param.dim param)) rs ->
  ThorNode.stat r_node = accumulate_points param rs s0 ->
  Param.kernel_neg param = Kernel.Init h_neg ->
  Bound_covers (Z.to_nat (Param.dim param)) (ThorNode.bound q_node) q ->
  Algorithm.outcome
    (Algorithm.ConsiderPairIntrinsic cfg param q_node r_node delta0 g0 qp0)
  = Algorithm.Approximate ->
  DRange_covers
    (Delta.d_density_neg
       (Algorithm.delta
          (Algorithm.ConsiderPairIntrinsic cfg param q_node r_node delta0 g0
             qp0)))
    (kernel_total (Param.kernel_neg param) q (class_points false rs)).
Proof.
  intros Hinit Hrs Hstat Hkn Hq Hout.
  exact (@approximate_neg_brackets cfg param q_node r_node delta0 g0 qp0 s0
           rs h_neg Hinit Hrs Hstat Hkn q Hq Hout).
Qed.

(** ** PairVisitor *)

(** X13.  The leaf visit is exact.  Over exact arithmetic, for a query
    point still labelled [LAB_EITHER] and a reference leaf whose statistic
    is built from its points and whose Bound contains them:
    [StartVisitingQueryPoint], followed when it returns [true] by
    [VisitPair] for every reference point and [FinishVisitingQueryPoint],
    adds to each density of the result the brute-force kernel sum over the
    reference points of the class, in both builds and whichever way
    [StartVisitingQueryPoint] takes (prune, whole-node inclusion, or the
    point-by-point visit), provided the kernel that [ComputeKernelSum]
    reads is the kernel of the class. *)
Theorem PairVisitor_leaf_visit_exact (cfg : Build) (param : Param.t Q)
  (s0 : NbcStat.t Q) (rs : list (NbcPoint.t Q)) (v : PairVisitor.t Q)
  (q : NbcPoint.t Q) (r_node : ThorNode.t Q) (unapplied : QSummaryResult.t Q)
  (q_result : QResult.t Q) :
  NbcStat.Init cfg param = Ok s0 ->
  ThorNode.stat r_node = accumulate_points param rs s0 ->
  Forall (fun p => Bound_covers (Z.to_nat (Param.dim param))
                     (ThorNode.bound r_node) (NbcPoint.vec p)) rs ->
  length (NbcPoint.vec q) = Z.to_nat (Param.dim param) ->
  QResult.label q_result = LAB_EITHER ->
  (Param.kernel param = Param.kernel_pos param ->
   (QResult.density_pos
      (visit_leaf cfg param v q r_node rs unapplied q_result)
    == QResult.density_pos q_result
       + kernel_total (Param.kernel_pos param) (NbcPoint.vec q)
           (class_points true rs))%Q)
  /\ (Param.kernel param = Param.kernel_neg param ->
      (QResult.density_neg
         (visit_leaf cfg param v q r_node rs unapplied q_result)
       == QResult.density_neg q_result
          + kernel_total (Param.kernel_neg param) (NbcPoint.vec q)
              (class_points false rs))%Q).
Proof.
  intros Hinit Hstat Hcover Hq Hlabel.
  exact (@leaf_visit_exact cfg param s0 rs v q r_node unapplied q_result
           Hinit Hstat Hcover Hq Hlabel).
Qed.

(** ** Postponed contributions *)

(** X14.  Over exact arithmetic, [QPostponed::ApplyPostponed] is
    associative, failed assertions included: applying [a] and then [b] to
    [p] ends as applying to [p] the result of applying [b] to [a]; and a
    Postponed left by [Reset] is neutral for a Postponed whose label names
    a class. *)
Theorem QPostponed_ApplyPostponed_associative (cfg : Build)
  (param : Param.t Q) (n : nat) (p a b old : QPostponed.t Q) :
  QPostponed_wf n p -> QPostponed_wf n a -> QPostponed_wf n b ->
  (x <- QPostponed.ApplyPostponed cfg param p a ;;
   QPostponed.ApplyPostponed cfg param x b)%result
  = (y <- QPostponed.ApplyPostponed cfg param a b ;;
     QPostponed.ApplyPostponed cfg param p y)%result
  /\ (is_class_label (QPostponed.label p) ->
      QPostponed.ApplyPostponed cfg param p (QPostponed.Reset param old)
      = Ok p).
Proof.
  intros Hp Ha Hb. split.
  - now apply (@QPostponed_ApplyPostponed_assoc cfg param n).
  - apply QPostponed_Reset_neutral.
Qed.

(** X15.  Over exact arithmetic, pushing two Postponeds down to a point's
    result one after the other ([QResult::ApplyPostponed] twice) ends as
    merging them first ([QPostponed::ApplyPostponed]) and pushing the
    merged one down once: both fail, or both return results with equal
    densities and the same label. *)
Theorem QResult_ApplyPostponed_merges (cfg : Build) (param : Param.t Q)
  (n : nat) (r : QResult.t Q) (a b : QPostponed.t Q) (q : NbcPoint.t Q) :
  QPostponed_wf n a -> QPostponed_wf n b ->
  Result_rel QResult_equiv
    (x <- QResult.ApplyPostponed cfg param r a q ;;
     QResult.ApplyPostponed cfg param x b q)%result
    (m <- QPostponed.ApplyPostponed cfg param a b ;;
     QResult.ApplyPostponed cfg param r m q)%result.
Proof. intros Ha Hb. now apply (@QResult_ApplyPostponed_merged cfg param n). Qed.

(** ** QSummaryResult *)

(** X16.  Over exact arithmetic, the SummaryResult that the bottom-up pass
    ([StartReaccumulate], [Accumulate] for every result,
    [FinishReaccumulate]) returns bounds every result: its density
    intervals contain the result's densities and its label allows every
    class the result's label allows.  In a debug build, when the returned
    label is a single class, every result has that label. *)
Theorem QSummaryResult_reaccumulate_bounds (cfg : Build) (param : Param.t Q)
  (q_node : ThorNode.t Q) (s s' : QSummaryResult.t Q)
  (rs : list (QResult.t Q)) :
  reaccumulate cfg param q_node s rs = Ok s' ->
  Forall (fun r =>
    DRange_covers (QSummaryResult.density_pos s') (QResult.density_pos r)
    /\ DRange_covers (QSummaryResult.density_neg s') (QResult.density_neg r)
    /\ label_within (QResult.label r) (QSummaryResult.label s')) rs
  /\ (DEBUG cfg = true -> is_narrowed (QSummaryResult.label s') ->
      Forall (fun r => QResult.label r = QSummaryResult.label s') rs).
Proof. apply reaccumulate_bounds. Qed.

(** X17.  Over exact arithmetic and a kernel whose inverse squared
    bandwidth is not negative: a SummaryResult that bounds a point's
    result (densities inside the intervals, label within the label) still
    bounds it after both have taken the same Postponed, the SummaryResult
    by [QSummaryResult::ApplyPostponed] and the result by
    [QResult::ApplyPostponed], for a query point inside the query node's
    Bound. *)
Theorem QSummaryResult_keeps_bounding (cfg : Build) (param : Param.t Q)
  (n : nat) (s s' : QSummaryResult.t Q) (change_made : option bool)
  (postponed : QPostponed.t Q) (q_node : ThorNode.t Q) (r r' : QResult.t Q)
  (q : NbcPoint.t Q) :
  QPostponed_wf n postponed ->
  Bound_covers n (ThorNode.bound q_node) (NbcPoint.vec q) ->
  (0 <= Kernel.inv_bandwidth_sq (Param.kernel param))%Q ->
  DRange_covers (QSummaryResult.density_pos s) (QResult.density_pos r) ->
  DRange_covers (QSummaryResult.density_neg s) (QResult.density_neg r) ->
  label_within (QResult.label r) (QSummaryResult.label s) ->
  QSummaryResult.ApplyPostponed cfg param s postponed q_node
  = Ok (s', change_made) ->
  QResult.ApplyPostponed cfg param r postponed q = Ok r' ->
  DRange_covers (QSummaryResult.density_pos s') (QResult.density_pos r')
  /\ DRange_covers (QSummaryResult.density_neg s') (QResult.density_neg r')
  /\ label_within (QResult.label r') (QSummaryResult.label s').
Proof.
  intros Hwf Hq Hk Hdp Hdn Hl Hs Hr.
  exact (@summary_keeps_bounding cfg param n s s' change_made postponed
           q_node r r' q Hwf Hq Hk Hdp Hdn Hl Hs Hr).
Qed.

(** X18.  Over exact arithmetic, a SummaryResult whose intervals contain
    a result's densities contains them still after a contribution has been
    added to both: [ApplyDelta] adds a Delta that contains the
    contribution and keeps the label; [ApplySummaryResult], when its
    assertion passes, adds another SummaryResult's intervals that contain
    the contribution, and its new label still has within it every label
    that was within both labels. *)
Theorem QSummaryResult_contributions_keep_bounding (cfg : Build)
  (param : Param.t Q) (s other s' : QSummaryResult.t Q) (delta : Delta.t Q)
  (r : QResult.t Q) (c_pos c_neg : Q) :
  DRange_covers (QSummaryResult.density_pos s) (QResult.density_pos r) ->
  DRange_covers (QSummaryResult.density_neg s) (QResult.density_neg r) ->
  (DRange_covers (Delta.d_density_pos delta) c_pos ->
   DRange_covers (Delta.d_density_neg delta) c_neg ->
   DRange_covers
     (QSummaryResult.density_pos (QSummaryResult.ApplyDelta param s delta))
     (QResult.density_pos r + c_pos)%Q
   /\ DRange_covers
        (QSummaryResult.density_neg (QSummaryResult.ApplyDelta param s delta))
        (QResult.density_neg r + c_neg)%Q
   /\ QSummaryResult.label (QSummaryResult.ApplyDelta param s delta)
      = QSummaryResult.label s)
  /\ (QSummaryResult.ApplySummaryResult cfg param s other = Ok s' ->
      DRange_covers (QSummaryResult.density_pos other) c_pos ->
      DRange_covers (QSummaryResult.density_neg other) c_neg ->
      DRange_covers (QSummaryResult.density_pos s')
        (QResult.density_pos r + c_pos)%Q
      /\ DRange_covers (QSummaryResult.density_neg s')
           (QResult.density_neg r + c_neg)%Q
      /\ (label_within (QResult.label r) (QSummaryResult.label s) ->
          label_within (QResult.label r) (QSummaryResult.label other) ->
          label_within (QResult.label r) (QSummaryResult.label s'))).
Proof.
  intros Hp Hn.
  exact (@contributions_keep_bounding cfg param s other s' delta r c_pos
           c_neg Hp Hn).
Qed.

(** X19.  Over exact arithmetic, the horizontal reduce
    [Accumulate(param, result, n_points)] of a child's SummaryResult into
    its parent's keeps every bound: a density inside the parent's or the
    child's interval is inside the parent's new interval, a label within
    the parent's or the child's label is within the parent's new label,
    and in a debug build the new label is not [LAB_NEITHER]. *)
Theorem QSummaryResult_Accumulate_keeps_bounds (cfg : Build)
  (param : Param.t Q) (s child s' : QSummaryResult.t Q) (n_points : Z) :
  QSummaryResult.Accumulate_summary cfg param s child n_points = Ok s' ->
  (forall e, DRange_covers (QSummaryResult.density_pos s) e
             \/ DRange_covers (QSummaryResult.density_pos child) e ->
             DRange_covers (QSummaryResult.density_pos s') e)
  /\ (forall e, DRange_covers (QSummaryResult.density_neg s) e
                \/ DRange_covers (QSummaryResult.density_neg child) e ->
                DRange_covers (QSummaryResult.density_neg s') e)
  /\ (forall l, label_within l (QSummaryResult.label s)
                \/ label_within l (QSummaryResult.label child) ->
                label_within l (QSummaryResult.label s'))
  /\ (DEBUG cfg = true -> QSummaryResult.label s' <> LAB_NEITHER).
Proof. apply Accumulate_summary_bounds. Qed.

(** ** Param *)

(** X20.  Over exact arithmetic, for a threshold strictly between 0 and 1,
    positive normalization constants and positive class counts,
    [ComputeConsts] stores positive constants in order that bracket the
    class weights: [const_pos] brackets [(1 - threshold) / norm_pos],
    [const_neg] brackets [threshold / norm_neg]; and it stores the two
    counts. *)
Theorem Param_ComputeConsts_brackets
  (CalcNormConstant : Kernel.t Q -> Z -> Q) (p : Param.t Q)
  (count_pos_in count_neg_in : Z) :
  (0 < Param.threshold p)%Q -> (Param.threshold p < 1)%Q ->
  (0 < CalcNormConstant (Param.kernel_pos p) (Param.dim p))%Q ->
  (0 < CalcNormConstant (Param.kernel_neg p) (Param.dim p))%Q ->
  0 < count_pos_in -> 0 < count_neg_in ->
  let p' := Param.ComputeConsts CalcNormConstant p count_pos_in count_neg_in in
  let norm_pos :=
    (CalcNormConstant (Param.kernel_pos p) (Param.dim p)
     * inject_Z count_pos_in)%Q in
  let norm_neg :=
    (CalcNormConstant (Param.kernel_neg p) (Param.dim p)
     * inject_Z count_neg_in)%Q in
  ((0 < DRange.lo (Param.const_pos p'))%Q
   /\ (DRange.lo (Param.const_pos p') < (1 - Param.threshold p) / norm_pos)%Q
   /\ ((1 - Param.threshold p) / norm_pos < DRange.hi (Param.const_pos p'))%Q)
  /\ ((0 < DRange.lo (Param.const_neg p'))%Q
      /\ (DRange.lo (Param.const_neg p') < Param.threshold p / norm_neg)%Q
      /\ (Param.threshold p / norm_neg < DRange.hi (Param.const_neg p'))%Q)
  /\ Param.count_pos p' = count_pos_in /\ Param.count_neg p' = count_neg_in.
Proof.
  intros Ht0 Ht1 Hnp Hnn Hcp Hcn. now apply ComputeConsts_brackets.
Qed.

(** ** ConsiderQueryTermination *)

(** X21.  [ConsiderQueryTermination] stores the Postponed's label by
    assignment, not by AND.  When the label of the SummaryResult it is
    handed names a class and is within the Postponed's label, what it
    leaves is nevertheless the Postponed narrowed: either it returns
    [true] and the Postponed is unchanged, or it returns [false] and the
    label it leaves is a single class, POS or NEG, that equals the
    Postponed's old label ANDed with that class. *)
Theorem ConsiderQueryTermination_stores_narrowing {D : Type} `{Double D}
  (cfg : Build) (param : Param.t D) (q_node : ThorNode.t D)
  (s : QSummaryResult.t D) (g0 : GlobalResult.t) (qp0 qp' : QPostponed.t D)
  (b : bool) :
  is_class_label (QSummaryResult.label s) ->
  label_within (QSummaryResult.label s) (QPostponed.label qp0) ->
  Algorithm.ConsiderQueryTermination cfg param q_node s g0 qp0 = Ok (b, qp') ->
  (b = true /\ qp' = qp0)
  \/ (b = false
      /\ exists c, is_narrowed c
                   /\ QPostponed.label qp' = c
                   /\ QPostponed.label qp' = Z.land (QPostponed.label qp0) c).
Proof.
  unfold label_within. intros Hclass Hin Hrun.
  pose proof (termination_stores _ _ _ _ _ _ Hrun) as Hst.
  destruct (Narrowing.termination_evidence param q_node s) as [ev|].
  - right. destruct Hst as (-> & -> & Heither & Hother).
    split; [reflexivity|]. exists ev. simpl.
    destruct (Z.eq_dec (QSummaryResult.label s) LAB_EITHER) as [He|He].
    + rewrite He in Hin. destruct (either_within _ Hin) as [Hp Hn].
      split; [exact (Heither He)|]. split; [reflexivity|].
      destruct (Heither He) as [-> | ->]; congruence.
    + destruct (Hother He) as [-> _].
      split; [|split; [reflexivity|]].
      * destruct Hclass as [Hc | [Hc | Hc]];
          [now left | now right | contradiction].
      * now rewrite Z.land_comm.
  - left. destruct Hst as (-> & -> & _). now split.
Qed.

(** X22.  Query termination agrees with the per-point decision.  Over
    exact arithmetic, with constants, density bounds and prior bounds that
    are not negative: when [ConsiderQueryTermination], handed a
    SummaryResult still labelled [LAB_EITHER], returns [false], it has
    stored a single class, and [QResult::Postprocess] narrows to that same
    class the result of every query point whose densities lie inside the
    SummaryResult's intervals and whose priors lie inside the query node's
    prior ranges. *)
Theorem ConsiderQueryTermination_agrees_with_Postprocess (cfg : Build)
  (param : Param.t Q) (q_node : ThorNode.t Q) (s : QSummaryResult.t Q)
  (g0 : GlobalResult.t) (qp0 qp' : QPostponed.t Q) (r r' : QResult.t Q)
  (q : NbcPoint.t Q) :
  range_ok (Param.const_pos param) -> range_ok (Param.const_neg param) ->
  (0 <= DRange.lo (QSummaryResult.density_pos s))%Q ->
  (0 <= DRange.lo (QSummaryResult.density_neg s))%Q ->
  (0 <= DRange.lo (NbcStat.pi_pos (ThorNode.stat q_node)))%Q ->
  (0 <= DRange.lo (NbcStat.pi_neg (ThorNode.stat q_node)))%Q ->
  DRange_covers (QSummaryResult.density_pos s) (QResult.density_pos r) ->
  DRange_covers (QSummaryResult.density_neg s) (QResult.density_neg r) ->
  DRange_covers (NbcStat.pi_pos (ThorNode.stat q_node)) (NbcPoint.pi_pos q) ->
  DRange_covers (NbcStat.pi_neg (ThorNode.stat q_node)) (NbcPoint.pi_neg q) ->
  QSummaryResult.label s = LAB_EITHER ->
  Algorithm.ConsiderQueryTermination cfg param q_node s g0 qp0
  = Ok (false, qp') ->
  QResult.Postprocess cfg param r q = Ok r' ->
  is_narrowed (QPostponed.label qp')
  /\ QResult.label r' = Z.land (QResult.label r) (QPostponed.label qp').
Proof.
  intros Hcp Hcn Hdp0 Hdn0 Hpp0 Hpn0 Hdp Hdn Hpp Hpn Hlabel Hrun Hpost.
  exact (@termination_agrees cfg param q_node s g0 qp0 qp' r r' q Hcp Hcn
           Hdp0 Hdn0 Hpp0 Hpn0 Hdp Hdn Hpp Hpn Hlabel Hrun Hpost).
Qed.

(** * Further properties: the statements at concrete inputs *)

Lemma Sample_points_lengths :
  Forall (fun p : NbcPoint.t Q => length (NbcPoint.vec p) = 1%nat)
    Sample.points.
Proof. repeat (apply Forall_cons; [reflexivity|]). apply Forall_nil. Qed.

Lemma Sample_point_length (x : Z) (is_pos : bool) :
  Forall (fun p : NbcPoint.t Q => length (NbcPoint.vec p) = 1%nat)
    [Sample.point x is_pos].
Proof. apply Forall_cons; [reflexivity | apply Forall_nil]. Qed.

Lemma Example_empty_wf : MomentInfo_wf (D := Q) 1 Example.empty.
Proof.
  unfold MomentInfo_wf. cbn. split; [reflexivity|]. split; [lia|].
  intros _. split; reflexivity.
Qed.

Lemma Example_postponed_wf (l : Z) :
  QPostponed_wf (D := Q) 1 (Example.postponed l).
Proof. split; apply Example_empty_wf. Qed.

Lemma Sample_postponed_point_wf (x : Z) :
  QPostponed_wf (D := Q) 1 (Sample.postponed_point x).
Proof. split; [apply Example_one_point_wf | apply Example_empty_wf]. Qed.

Lemma QResult_Postprocess_idempotent_witness :
  QResult.Postprocess (D := Q) Example.debug_build (Example.param 1 1)
    (Example.result LAB_POS) (Sample.point 0 true)
  = Ok (Example.result LAB_POS).
Proof.
  apply (@QResult_Postprocess_idempotent Q _ Example.debug_build
           (Example.param 1 1) (Example.result LAB_EITHER)
           (Example.result LAB_POS) (Sample.point 0 true)).
  reflexivity.
Defined.

Lemma NbcStat_accumulate_consistent_witness :
  NbcStat.count_pos
    (accumulate_points (D := Q) (Example.param 1 1) Sample.points
       Sample.zero_stat) = 1
  /\ NbcStat.count_neg
       (accumulate_points (D := Q) (Example.param 1 1) Sample.points
          Sample.zero_stat) = 1.
Proof.
  apply (@NbcStat_accumulate_consistent Q _ _ Example.debug_build
           (Example.param 1 1) Sample.zero_stat Sample.points).
  - reflexivity.
  - exact Sample_points_lengths.
Defined.

Lemma NbcStat_bounds_cover_points_witness :
  Bound.Contains
    (NbcStat.bound_pos
       (accumulate_points (D := Q) (Example.param 1 1) Sample.points
          Sample.zero_stat)) [of_index 0] = true.
Proof.
  pose proof (@NbcStat_bounds_cover_points Example.debug_build
                (Example.param 1 1) Sample.zero_stat Sample.points
                eq_refl Sample_points_lengths) as Hall.
  apply Forall_cons_iff in Hall as [((_ & _ & Hc) & _) _]. exact Hc.
Defined.

Lemma NbcStat_parent_statistic_witness :
  NbcStat.moment_info_pos
    (NbcStat.Accumulate (D := Q) (Example.param 1 1)
       (NbcStat.Accumulate (Example.param 1 1) Sample.zero_stat
          (accumulate_points (Example.param 1 1) [Sample.point 0 true]
             Sample.zero_stat) [] 1)
       (accumulate_points (Example.param 1 1) [Sample.point 2 true]
          Sample.zero_stat) [] 1)
  = NbcStat.moment_info_pos
      (accumulate_points (Example.param 1 1)
         ([Sample.point 0 true] ++ [Sample.point 2 true]) Sample.zero_stat).
Proof.
  exact (proj1
           (@NbcStat_parent_statistic Example.debug_build (Example.param 1 1)
              Sample.zero_stat [Sample.point 0 true] [Sample.point 2 true]
              [] [] 1 1 eq_refl
              (Sample_point_length 0 true) (Sample_point_length 2 true))).
Defined.

Lemma ComputeKernelSum_additive_witness :
  (MomentInfo.ComputeKernelSum (Example.param 2 2)
     (MomentInfo.Add (Example.one_point 1) (Example.one_point 0))
     [Example.half]
   == MomentInfo.ComputeKernelSum (Example.param 2 2) (Example.one_point 1)
        [Example.half]
      + MomentInfo.ComputeKernelSum (Example.param 2 2) (Example.one_point 0)
          [Example.half])%Q.
Proof.
  exact (@ComputeKernelSum_additive 1 (Example.param 2 2)
           (Example.one_point 1) (Example.one_point 0) [Example.half]
           (Example_one_point_wf 1) (Example_one_point_wf 0)).
Defined.

Lemma ComputeKernelSum_sums_profiles_witness :
  (MomentInfo.ComputeKernelSum (Example.param 2 2)
     (NbcStat.moment_info_pos
        (accumulate_points (Example.param 2 2) Sample.points
           Sample.zero_stat)) [Example.half]
   == profile_total (Param.kernel (Example.param 2 2)) [Example.half]
        (class_points true Sample.points))%Q.
Proof.
  exact (proj1
           (@ComputeKernelSum_sums_profiles Example.debug_build
              (Example.param 2 2) Sample.zero_stat Sample.points
              [Example.half] eq_refl Sample_points_lengths eq_refl)).
Defined.

Lemma ConsiderPairIntrinsic_Exclusion_sound_witness :
  Kernel.EvalUnnormOnSq (Param.kernel_pos (Example.param (D := Q) 1 1))
    (la.DistanceSqEuclidean [Example.half] [of_index 10])
  = of_index 0.
Proof.
  refine (proj1
            (@ConsiderPairIntrinsic_Exclusion_sound Example.debug_build
               (Example.param 1 1) (Example.node 0 1 0 1)
               (Example.node 10 12 10 12) Example.delta0 GlobalResult.Init
               (Example.postponed LAB_EITHER) (of_index 1) (of_index 1)
               1%nat [Example.half] eq_refl eq_refl _ _)
            _ [of_index 10] _).
  - vm_compute. reflexivity.
  - split; [reflexivity|]. split; reflexivity.
  - reflexivity.
  - split; [reflexivity|]. split; reflexivity.
Defined.

Lemma ConsiderPairIntrinsic_Inclusion_within_witness :
  (la.DistanceSqEuclidean [Example.half] [of_index 0]
   < Kernel.bandwidth_sq (Param.kernel_pos (Example.param (D := Q) 2 2)))%Q.
Proof.
  refine (proj1
            (proj1
               (@ConsiderPairIntrinsic_Inclusion_within
                  Example.per_class_build (Example.param 2 2)
                  (Example.node 0 1 0 1) (Example.node 0 1 0 1)
                  Example.delta0 GlobalResult.Init
                  (Example.postponed LAB_EITHER) 1%nat [Example.half] _ _)
               eq_refl)
            _ [of_index 0] _).
  - vm_compute. reflexivity.
  - split; [reflexivity|]. split; reflexivity.
  - reflexivity.
  - split; [reflexivity|]. split; reflexivity.
Defined.

Lemma ConsiderPairIntrinsic_Inclusion_exact_witness :
  (MomentInfo.ComputeKernelSum (Example.param 2 2)
     (QPostponed.moment_info_pos
        (Algorithm.q_postponed
           (Algorithm.ConsiderPairIntrinsic Example.per_class_build
              (Example.param 2 2) (Example.node 0 1 0 1)
              (Sample.leaf 0 1 2 Sample.points) Example.delta0
              GlobalResult.Init (Example.postponed LAB_EITHER))))
     [Example.half]
   == MomentInfo.ComputeKernelSum (Example.param 2 2)
        (QPostponed.moment_info_pos (Example.postponed LAB_EITHER))
        [Example.half]
      + kernel_total (Param.kernel_pos (Example.param 2 2)) [Example.half]
          (class_points true Sample.points))%Q.
Proof.
  refine (proj1
            (@ConsiderPairIntrinsic_Inclusion_exact Example.per_class_build
               (Example.param 2 2) (Example.node 0 1 0 1)
               (Sample.leaf 0 1 2 Sample.points) Example.delta0
               GlobalResult.Init (Example.postponed LAB_EITHER)
               Sample.zero_stat Sample.points [Example.half]
               eq_refl Sample_points_lengths eq_refl eq_refl
               (Example_postponed_wf LAB_EITHER) _ _)
            eq_refl).
  - split; [reflexivity|]. split; reflexivity.
  - vm_compute. reflexivity.
Defined.

Lemma ConsiderPairIntrinsic_Approximate_neg_brackets_witness :
  DRange_covers
    (Delta.d_density_neg
       (Algorithm.delta
          (Algorithm.ConsiderPairIntrinsic Example.debug_build
             (Example.param 2 2) (Example.node 0 1 0 1)
             (Sample.leaf 0 3 2 Sample.points) Example.delta0
             GlobalResult.Init (Example.postponed LAB_EITHER))))
    (kernel_total (Param.kernel_neg (Example.param 2 2)) [Example.half]
       (class_points false Sample.points)).
Proof.
  refine (@ConsiderPairIntrinsic_Approximate_neg_brackets Example.debug_build
            (Example.param 2 2) (Example.node 0 1 0 1)
            (Sample.leaf 0 3 2 Sample.points) Example.delta0
            GlobalResult.Init (Example.postponed LAB_EITHER)
            Sample.zero_stat Sample.points (of_index 2) [Example.half]
            eq_refl Sample_points_lengths eq_refl eq_refl _ _).
  - split; [reflexivity|]. split; reflexivity.
  - vm_compute. reflexivity.
Defined.

Lemma PairVisitor_leaf_visit_exact_witness :
  (QResult.density_pos
     (visit_leaf Example.debug_build (Example.param 2 2) Sample.visitor
        (Sample.point 0 false) (Sample.leaf 0 1 2 Sample.points)
        Sample.points (Example.summary 0 0 0 0 LAB_EITHER)
        (Example.result LAB_EITHER))
   == QResult.density_pos (Example.result LAB_EITHER)
      + kernel_total (Param.kernel_pos (Example.param 2 2))
          (NbcPoint.vec (Sample.point 0 false))
          (class_points true Sample.points))%Q.
Proof.
  refine (proj1
            (@PairVisitor_leaf_visit_exact Example.debug_build
               (Example.param 2 2) Sample.zero_stat Sample.points
               Sample.visitor (Sample.point 0 false)
               (Sample.leaf 0 1 2 Sample.points)
               (Example.summary 0 0 0 0 LAB_EITHER)
               (Example.result LAB_EITHER) eq_refl eq_refl _ eq_refl
               eq_refl)
            eq_refl).
  apply Forall_cons; [split; [reflexivity|]; split; reflexivity|].
  apply Forall_cons; [split; [reflexivity|]; split; reflexivity|].
  apply Forall_nil.
Defined.

Lemma QPostponed_ApplyPostponed_associative_witness :
  QPostponed.ApplyPostponed (D := Q) Example.debug_build (Example.param 1 1)
    (Sample.postponed_point 1)
    (QPostponed.Reset (Example.param 1 1) (Sample.postponed_point 2))
  = Ok (Sample.postponed_point 1).
Proof.
  refine (proj2
            (@QPostponed_ApplyPostponed_associative Example.debug_build
               (Example.param 1 1) 1%nat (Sample.postponed_point 1)
               (Sample.postponed_point 1) (Sample.postponed_point 1)
               (Sample.postponed_point 2) (Sample_postponed_point_wf 1)
               (Sample_postponed_point_wf 1) (Sample_postponed_point_wf 1))
            _).
  right. right. reflexivity.
Defined.

Lemma QResult_ApplyPostponed_merges_witness :
  Result_rel QResult_equiv
    (x <- QResult.ApplyPostponed Example.debug_build (Example.param 2 2)
            (Example.result LAB_EITHER) (Sample.postponed_point 1)
            (Sample.point 0 false) ;;
     QResult.ApplyPostponed Example.debug_build (Example.param 2 2) x
       (Sample.postponed_point 0) (Sample.point 0 false))%result
    (m <- QPostponed.ApplyPostponed Example.debug_build (Example.param 2 2)
            (Sample.postponed_point 1) (Sample.postponed_point 0) ;;
     QResult.ApplyPostponed Example.debug_build (Example.param 2 2)
       (Example.result LAB_EITHER) m (Sample.point 0 false))%result.
Proof.
  exact (@QResult_ApplyPostponed_merges Example.debug_build
           (Example.param 2 2) 1%nat (Example.result LAB_EITHER)
           (Sample.postponed_point 1) (Sample.postponed_point 0)
           (Sample.point 0 false) (Sample_postponed_point_wf 1)
           (Sample_postponed_point_wf 0)).
Defined.

Lemma QSummaryResult_reaccumulate_bounds_witness :
  Forall (fun r : QResult.t Q =>
            QResult.label r
            = QSummaryResult.label (Example.summary (D := Q) 1 1 0 0 LAB_POS))
    [Example.result LAB_POS; Example.result LAB_POS].
Proof.
  refine (proj2
            (@QSummaryResult_reaccumulate_bounds Example.debug_build
               (Example.param 1 1) (Example.node 0 1 0 1)
               (Example.summary 0 0 0 0 LAB_EITHER)
               (Example.summary 1 1 0 0 LAB_POS)
               [Example.result LAB_POS; Example.result LAB_POS] _)
            eq_refl _).
  - vm_compute. reflexivity.
  - left. reflexivity.
Defined.

Lemma QSummaryResult_keeps_bounding_witness :
  match
    QSummaryResult.ApplyPostponed (D := Q) Example.debug_build
      (Example.param 2 2) (Example.summary 0 2 0 2 LAB_EITHER)
      (Sample.postponed_point 1) (Example.node 0 1 0 1),
    QResult.ApplyPostponed Example.debug_build (Example.param 2 2)
      (Example.result LAB_EITHER) (Sample.postponed_point 1)
      (Sample.point 0 false)
  with
  | Ok (s', _), Ok r' =>
      DRange_covers (QSummaryResult.density_pos s') (QResult.density_pos r')
      /\ DRange_covers (QSummaryResult.density_neg s')
           (QResult.density_neg r')
      /\ label_within (QResult.label r') (QSummaryResult.label s')
  | _, _ => False
  end.
Proof.
  destruct (QSummaryResult.ApplyPostponed (D := Q) Example.debug_build
              (Example.param 2 2) (Example.summary 0 2 0 2 LAB_EITHER)
              (Sample.postponed_point 1) (Example.node 0 1 0 1))
    as [[s' change_made]|] eqn:Hs; [|vm_compute in Hs; discriminate].
  destruct (QResult.ApplyPostponed Example.debug_build (Example.param 2 2)
              (Example.result LAB_EITHER) (Sample.postponed_point 1)
              (Sample.point 0 false))
    as [r'|] eqn:Hr; [|vm_compute in Hr; discriminate].
  refine (@QSummaryResult_keeps_bounding Example.debug_build
            (Example.param 2 2) 1%nat (Example.summary 0 2 0 2 LAB_EITHER) s'
            change_made (Sample.postponed_point 1) (Example.node 0 1 0 1)
            (Example.result LAB_EITHER) r' (Sample.point 0 false)
            (Sample_postponed_point_wf 1) _ _ _ _ eq_refl Hs Hr).
  - split; [reflexivity|]. split; reflexivity.
  - vm_compute. discriminate.
  - split; vm_compute; discriminate.
  - split; vm_compute; discriminate.
Defined.

Lemma QSummaryResult_contributions_keep_bounding_witness :
  DRange_covers
    (QSummaryResult.density_pos
       (QSummaryResult.ApplyDelta (Example.param 1 1)
          (Example.summary 0 2 0 2 LAB_EITHER) Example.delta0))
    (QResult.density_pos (Example.result LAB_EITHER) + of_index 7)%Q.
Proof.
  refine (proj1
            (proj1
               (@QSummaryResult_contributions_keep_bounding
                  Example.debug_build (Example.param 1 1)
                  (Example.summary 0 2 0 2 LAB_EITHER)
                  (Example.summary 0 1 0 1 LAB_EITHER)
                  (Example.summary 0 3 0 3 LAB_EITHER) Example.delta0
                  (Example.result LAB_EITHER) (of_index 7) (of_index 7) _ _)
               _ _)).
  - split; vm_compute; discriminate.
  - split; vm_compute; discriminate.
  - split; vm_compute; discriminate.
  - split; vm_compute; discriminate.
Defined.

Lemma QSummaryResult_Accumulate_keeps_bounds_witness :
  label_within LAB_NEG
    (QSummaryResult.label (Example.summary (D := Q) 0 2 0 1 LAB_EITHER)).
Proof.
  refine (proj1 (proj2 (proj2
            (@QSummaryResult_Accumulate_keeps_bounds Example.debug_build
               (Example.param 1 1) (Example.summary 0 1 0 1 LAB_POS)
               (Example.summary 1 2 0 1 LAB_NEG)
               (Example.summary 0 2 0 1 LAB_EITHER) 1 _)))
            LAB_NEG _).
  - vm_compute. reflexivity.
  - right. reflexivity.
Defined.

Lemma Param_ComputeConsts_brackets_witness :
  (0 < DRange.lo
         (Param.const_pos
            (Param.ComputeConsts (fun _ _ => of_index 1)
               (Example.param (D := Q) 1 1) 1 1)))%Q.
Proof.
  exact (proj1 (proj1
           (@Param_ComputeConsts_brackets (fun _ _ => of_index 1)
              (Example.param 1 1) 1 1 eq_refl eq_refl eq_refl eq_refl
              eq_refl eq_refl))).
Defined.

Lemma ConsiderQueryTermination_stores_narrowing_witness :
  exists c,
    is_narrowed c
    /\ QPostponed.label
         (QPostponed.with_label (D := Q) (Example.postponed LAB_EITHER)
            LAB_POS) = c
    /\ QPostponed.label
         (QPostponed.with_label (D := Q) (Example.postponed LAB_EITHER)
            LAB_POS)
       = Z.land (QPostponed.label (Example.postponed (D := Q) LAB_EITHER)) c.
Proof.
  assert (Hclass : is_class_label
                     (QSummaryResult.label
                        (Example.summary (D := Q) 1 2 0 1 LAB_POS)))
    by (left; reflexivity).
  assert (Hrun : Algorithm.ConsiderQueryTermination (D := Q)
                   Example.debug_build (Example.param 1 1)
                   (Example.node 0 1 0 1) (Example.summary 1 2 0 1 LAB_POS)
                   GlobalResult.Init (Example.postponed LAB_EITHER)
                 = Ok (false,
                       QPostponed.with_label (Example.postponed LAB_EITHER)
                         LAB_POS))
    by (vm_compute; reflexivity).
  destruct (@ConsiderQueryTermination_stores_narrowing Q _ Example.debug_build
              (Example.param 1 1) (Example.node 0 1 0 1)
              (Example.summary 1 2 0 1 LAB_POS) GlobalResult.Init
              (Example.postponed LAB_EITHER)
              (QPostponed.with_label (Example.postponed LAB_EITHER) LAB_POS)
              false Hclass eq_refl Hrun) as [[Hb _] | [_ Hc]].
  - discriminate Hb.
  - exact Hc.
Defined.

Lemma ConsiderQueryTermination_agrees_with_Postprocess_witness :
  QResult.label (Sample.result (D := Q) 3 1 LAB_POS)
  = Z.land (QResult.label (Sample.result (D := Q) 3 1 LAB_EITHER))
      (QPostponed.label
         (QPostponed.with_label (D := Q) (Example.postponed LAB_EITHER)
            LAB_POS)).
Proof.
  refine (proj2
            (@ConsiderQueryTermination_agrees_with_Postprocess
               Example.debug_build (Example.param 1 1) (Example.node 0 1 0 1)
               (Example.summary 3 4 0 1 LAB_EITHER) GlobalResult.Init
               (Example.postponed LAB_EITHER)
               (QPostponed.with_label (Example.postponed LAB_EITHER) LAB_POS)
               (Sample.result 3 1 LAB_EITHER) (Sample.result 3 1 LAB_POS)
               (Sample.point 0 false) _ _ _ _ _ _ _ _ _ _ eq_refl _ _)).
  - split; vm_compute; discriminate.
  - split; vm_compute; discriminate.
  - vm_compute; discriminate.
  - vm_compute; discriminate.
  - vm_compute; discriminate.
  - vm_compute; discriminate.
  - split; vm_compute; discriminate.
  - split; vm_compute; discriminate.
  - split; vm_compute; discriminate.
  - split; vm_compute; discriminate.
  - vm_compute. reflexivity.
  - vm_compute. reflexivity.
Defined.
